(** * youtube-to-tiktok-converter: queue lease, pipeline state, integrity and audit

    A shallow embedding of the parts of the repository that coordinate work and
    record provenance:

    - [src/validation/integrity_validator.py]  (module [Integrity])
    - [src/logging/audit.py]                   (module [Audit])
    - [src/worker.py]                          (module [Worker])
    - [src/web/app.py]                         (modules [Web], [Endpoints])
    - [src/storage/artifact_manager.py]        (module [Artifacts])
    - [src/optimization/viral_optimizer.py]    (module [Viral], the hashtags)

    with the file methods of the validator (module [FileIntegrity]) and of the
    audit logger (module [AuditFiles]) over a file system (module [Os]).  The
    two runs of the pipeline ([Worker.process_task], [Web.process_conversion])
    act on the state of module [Pipeline]; the stage classes they call are
    the fields of [Pipeline.environment], and may raise.

    Python values are the JSON-serialisable ones (None, bool, int, str, list,
    dict with str keys); a str is a sequence of code points below 256.  Floats
    (wall-clock timestamps) are integers here.  The standard-library calls the
    code makes (json.dumps, hashlib.sha256, hmac.new, hmac.compare_digest) and
    the MongoDB calls (find_one_and_update, update_one, insert_one) are embedded
    by their documented behaviour, on collections held in memory: a call to
    the database returns. *)

From Stdlib Require Import ZArith List String Ascii Bool Lia DecimalString.
From Stdlib Require QArith OrderedTypeEx.
From stdpp Require Import base option list strings gmap.

#[local] Set Warnings "-register-all".
Open Scope string_scope.
Open Scope Z_scope.
Open Scope list_scope.

(** ** Python values *)
Module Py.

Inductive value : Type :=
  | VNone
  | VBool (b : bool)
  | VInt (z : Z)
  | VStr (s : string)
  | VList (l : list value)
  | VDict (d : list (string * value)).

(** [type(v).__name__] *)
Definition type_name (v : value) : string :=
  match v with
  | VNone => "NoneType"
  | VBool _ => "bool"
  | VInt _ => "int"
  | VStr _ => "str"
  | VList _ => "list"
  | VDict _ => "dict"
  end.

(** [d[k]] / [k in d] on a dict built by the code (insertion order kept). *)
Fixpoint dict_get (k : string) (d : list (string * value)) : option value :=
  match d with
  | [] => None
  | (k', v) :: d' => if String.eqb k k' then Some v else dict_get k d'
  end.

(** The integer a bool or int stands for in a comparison. *)
Definition as_number (v : value) : option Z :=
  match v with
  | VBool b => Some (if b then 1 else 0)
  | VInt z => Some z
  | _ => None
  end.

(** Python's [==]: bools compare as the integers 0 and 1, lists element by
    element, dicts key by key whatever the insertion order. *)
Fixpoint py_eq (a b : value) {struct a} : bool :=
  match a with
  | VNone => match b with VNone => true | _ => false end
  | VBool x =>
      match as_number b with Some n => Z.eqb (if x then 1 else 0) n | None => false end
  | VInt x =>
      match as_number b with Some n => Z.eqb x n | None => false end
  | VStr s => match b with VStr t => String.eqb s t | _ => false end
  | VList l =>
      match b with
      | VList m =>
          (fix eq_list (l : list value) (m : list value) {struct l} : bool :=
             match l, m with
             | [], [] => true
             | x :: l', y :: m' => py_eq x y && eq_list l' m'
             | _, _ => false
             end) l m
      | _ => false
      end
  | VDict d =>
      match b with
      | VDict e =>
          Nat.eqb (length d) (length e) &&
          (fix eq_items (d : list (string * value)) {struct d} : bool :=
             match d with
             | [] => true
             | (k, v) :: d' =>
                 match dict_get k e with
                 | Some w => py_eq v w && eq_items d'
                 | None => false
                 end
             end) d
      | _ => false
      end
  end.

(** Truthiness, as [if v:] / [a and b] read it. *)
Definition truthy (v : value) : bool :=
  match v with
  | VNone => false
  | VBool b => b
  | VInt z => negb (Z.eqb z 0)
  | VStr s => negb (String.eqb s "")
  | VList l => negb (Nat.eqb (length l) 0)
  | VDict d => negb (Nat.eqb (length d) 0)
  end.

(** *** json.dumps(v, sort_keys=True) *)

Definition hex_digit (n : Z) : ascii :=
  ascii_of_N (Z.to_N (if n <? 10 then 48 + n else 87 + n)).

(** One character inside a JSON string, [ensure_ascii=True]. *)
Definition escape_char (c : ascii) : string :=
  let n := Z.of_N (N_of_ascii c) in
  if n =? 34 then "\" +:+ String c ""
  else if n =? 92 then "\\"
  else if n =? 10 then "\n"
  else if n =? 13 then "\r"
  else if n =? 9 then "\t"
  else if n =? 8 then "\b"
  else if n =? 12 then "\f"
  else if (32 <=? n) && (n <=? 126) then String c ""
  else "\u00" +:+ String (hex_digit (n / 16)) (String (hex_digit (n mod 16)) "").

Fixpoint escape_string (s : string) : string :=
  match s with
  | EmptyString => ""
  | String c s' => escape_char c +:+ escape_string s'
  end.

Definition quote := String (ascii_of_N 34) "".

Definition json_string (s : string) : string := quote +:+ escape_string s +:+ quote.

Fixpoint join (sep : string) (l : list string) : string :=
  match l with
  | [] => ""
  | [x] => x
  | x :: l' => x +:+ sep +:+ join sep l'
  end.

(** [sorted(items)] by key: a stable insertion sort on the code-point order
    (the keys of a dict are distinct, so values are never compared). *)
Fixpoint insert_by_key (kv : string * string) (l : list (string * string))
  : list (string * string) :=
  match l with
  | [] => [kv]
  | kv' :: l' =>
      if String.ltb (fst kv') (fst kv) then kv' :: insert_by_key kv l'
      else kv :: l
  end.

Definition sort_by_key (l : list (string * string)) : list (string * string) :=
  fold_right insert_by_key [] l.

Definition json_int (z : Z) : string := NilZero.string_of_int (Z.to_int z).

Fixpoint json_dumps (v : value) : string :=
  match v with
  | VNone => "null"
  | VBool true => "true"
  | VBool false => "false"
  | VInt z => json_int z
  | VStr s => json_string s
  | VList l => "[" +:+ join ", " (map json_dumps l) +:+ "]"
  | VDict d =>
      let items := map (fun kv => (fst kv, json_dumps (snd kv))) d in
      "{" +:+ join ", "
               (map (fun kv => json_string (fst kv) +:+ ": " +:+ snd kv)
                    (sort_by_key items))
          +:+ "}"
  end.

(** [s.encode('utf-8')] for code points below 256. *)
Fixpoint utf8 (s : string) : list Z :=
  match s with
  | EmptyString => []
  | String c s' =>
      let n := Z.of_N (N_of_ascii c) in
      (if n <? 128 then [n]
       else [Z.lor 192 (Z.shiftr n 6); Z.lor 128 (Z.land n 63)]) ++ utf8 s'
  end.

(** [bytes.hex()] *)
Fixpoint hex (bs : list Z) : string :=
  match bs with
  | [] => ""
  | b :: bs' => String (hex_digit (b / 16)) (String (hex_digit (b mod 16)) (hex bs'))
  end.

(** A str [hmac.compare_digest] accepts: ASCII only. *)
Fixpoint is_ascii (s : string) : bool :=
  match s with
  | EmptyString => true
  | String c s' => (Z.of_N (N_of_ascii c) <? 128) && is_ascii s'
  end.

End Py.

(** ** hashlib.sha256 (FIPS 180-4), on bytes as integers 0..255 *)
Module Sha256.

Definition w32 (x : Z) : Z := x mod 4294967296.
Definition add32 (x y : Z) : Z := w32 (x + y).
Definition rotr (n x : Z) : Z := Z.lor (Z.shiftr x n) (w32 (Z.shiftl x (32 - n))).
Definition not32 (x : Z) : Z := Z.lxor x 4294967295.

Definition Ch (x y z : Z) : Z := Z.lxor (Z.land x y) (Z.land (not32 x) z).
Definition Maj (x y z : Z) : Z :=
  Z.lxor (Z.lxor (Z.land x y) (Z.land x z)) (Z.land y z).
Definition Sigma0 (x : Z) : Z := Z.lxor (Z.lxor (rotr 2 x) (rotr 13 x)) (rotr 22 x).
Definition Sigma1 (x : Z) : Z := Z.lxor (Z.lxor (rotr 6 x) (rotr 11 x)) (rotr 25 x).
Definition sigma0 (x : Z) : Z := Z.lxor (Z.lxor (rotr 7 x) (rotr 18 x)) (Z.shiftr x 3).
Definition sigma1 (x : Z) : Z := Z.lxor (Z.lxor (rotr 17 x) (rotr 19 x)) (Z.shiftr x 10).

(** The constants are taken from the primes, as the standard defines them:
    [K] holds the first 32 fractional bits of the cube roots of the first 64
    primes, [H0] those of the square roots of the first 8. *)
Definition is_prime (n : nat) : bool :=
  forallb (fun d => negb (Nat.eqb (n mod d) 0)) (seq 2 (n - 2)).

Definition primes (count : nat) : list Z :=
  map Z.of_nat (firstn count (List.filter is_prime (seq 2 400))).

(** The integer cube root, one bit at a time from bit [bits - 1] down. *)
Fixpoint cube_root (bits : nat) (n r : Z) : Z :=
  match bits with
  | O => r
  | S b =>
      let c := r + 2 ^ Z.of_nat b in
      cube_root b n (if c * c * c <=? n then c else r)
  end.

Definition K : list Z :=
  Eval vm_compute in
    map (fun p => w32 (cube_root 40 (p * 2 ^ 96) 0)) (primes 64).

Definition H0 : list Z :=
  Eval vm_compute in
    map (fun p => w32 (Z.sqrt (p * 2 ^ 64))) (primes 8).

(** Big-endian bytes of an integer, [n] of them. *)
Fixpoint be_bytes (n : nat) (x : Z) : list Z :=
  match n with
  | O => []
  | S n' => (Z.shiftr x (8 * Z.of_nat n')) mod 256 :: be_bytes n' x
  end.

Fixpoint be_words (fuel : nat) (bs : list Z) : list Z :=
  match fuel, bs with
  | S f, b0 :: b1 :: b2 :: b3 :: rest =>
      (b0 * 16777216 + b1 * 65536 + b2 * 256 + b3) :: be_words f rest
  | _, _ => []
  end.

Definition pad (msg : list Z) : list Z :=
  let len := Z.of_nat (length msg) in
  let zeros := Z.to_nat ((55 - len) mod 64) in
  msg ++ [128] ++ repeat 0 zeros ++ be_bytes 8 (8 * len).

Definition word (w : list Z) (i : nat) : Z := nth i w 0.

(** The message schedule: 48 more words after the block's 16. *)
Fixpoint schedule (n : nat) (w : list Z) : list Z :=
  match n with
  | O => w
  | S n' =>
      let t := length w in
      let x := add32 (add32 (sigma1 (word w (t - 2))) (word w (t - 7)))
                     (add32 (sigma0 (word w (t - 15))) (word w (t - 16))) in
      schedule n' (w ++ [x])
  end.

Definition round (s : list Z) (kw : Z * Z) : list Z :=
  match s with
  | [a; b; c; d; e; f; g; h] =>
      let t1 := add32 (add32 (add32 h (Sigma1 e)) (add32 (Ch e f g) (fst kw))) (snd kw) in
      let t2 := add32 (Sigma0 a) (Maj a b c) in
      [add32 t1 t2; a; b; c; add32 d t1; e; f; g]
  | _ => s
  end.

Fixpoint add_words (x y : list Z) : list Z :=
  match x, y with
  | a :: x', b :: y' => add32 a b :: add_words x' y'
  | _, _ => []
  end.

Definition compress (h : list Z) (block : list Z) : list Z :=
  let w := schedule 48 (be_words 16 block) in
  add_words h (fold_left round (combine K w) h).

Fixpoint blocks (fuel : nat) (h : list Z) (bs : list Z) : list Z :=
  match fuel with
  | O => h
  | S f =>
      match bs with
      | [] => h
      | _ => blocks f (compress h (firstn 64 bs)) (skipn 64 bs)
      end
  end.

Definition sha256 (msg : list Z) : list Z :=
  let p := pad msg in
  flat_map (be_bytes 4) (blocks (length p) H0 p).

End Sha256.

(** ** hmac.new(key, msg, hashlib.sha256) (RFC 2104) *)
Module Hmac.

Definition block_size : nat := 64.

Definition block_key (key : list Z) : list Z :=
  let k := if Nat.ltb block_size (length key) then Sha256.sha256 key else key in
  k ++ repeat 0 (block_size - length k).

Definition hmac_sha256 (key msg : list Z) : list Z :=
  let k := block_key key in
  let inner := Sha256.sha256 (map (Z.lxor 54) k ++ msg) in
  Sha256.sha256 (map (Z.lxor 92) k ++ inner).

End Hmac.

(** ** src/validation/integrity_validator.py *)
Module Integrity.
Import Py.

(** One entry of [report["validations"]]: its type and its details (the
    wall-clock timestamp is not kept). *)
Definition validation : Type := string * value.

(** [self.report] and the report file last written by [_save_report]. *)
Record IntegrityValidator : Type := mkValidator {
  process_id : string;
  validations : list validation;
  report_file : option (list validation)
}.

(** [IntegrityValidator(process_id)] *)
Definition init (pid : string) : IntegrityValidator :=
  {| process_id := pid; validations := []; report_file := None |}.

Definition _save_report (self : IntegrityValidator) : IntegrityValidator :=
  {| process_id := process_id self;
     validations := validations self;
     report_file := Some (validations self) |}.

Definition _record_validation (validation_type : string) (details : value)
    (self : IntegrityValidator) : IntegrityValidator :=
  let self' := {| process_id := process_id self;
                  validations := validations self ++ [(validation_type, details)];
                  report_file := report_file self |} in
  if (length (validations self') mod 10 =? 0)%nat then _save_report self' else self'.

(** [generate_data_hash]: every value of [Py.value] serialises, so the
    fallback on [str(data)] is never taken. *)
Definition data_digest (data : value) : string :=
  hex (Sha256.sha256 (utf8 (json_dumps data))).

Definition generate_data_hash (data : value) (self : IntegrityValidator)
  : string * IntegrityValidator :=
  let data_hash := data_digest data in
  (data_hash,
   _record_validation "data_hash"
     (VDict [("hash", VStr data_hash); ("algorithm", VStr "sha256");
             ("data_type", VStr (type_name data))]) self).

(** [k in data] and [data[k]] on a chain record. *)
Definition has_key (k : string) (data : gmap string value) : bool :=
  bool_decide (is_Some (data !! k)).

Definition item (data : gmap string value) (k : string) : value :=
  default VNone (data !! k).

Definition required_fields : list string := ["stage"; "timestamp"; "data_hash"].

Definition is_None (v : value) : bool :=
  match v with VNone => true | _ => false end.

(** [v is not False] *)
Definition is_not_False (v : value) : bool :=
  match v with VBool false => false | _ => true end.

(** The local variables of the loop of [validate_process_chain]. *)
Record chain_state : Type := mkChain {
  cs_self : IntegrityValidator;
  cs_is_valid : bool;
  cs_previous_hash : value;
  cs_results : list value
}.

(** One iteration of [for i, data in enumerate(chain_data)]. *)
Definition chain_step (i : nat) (data : gmap string value) (st : chain_state)
  : chain_state :=
  if negb (forallb (fun k => has_key k data) required_fields) then
    {| cs_self := cs_self st;
       cs_is_valid := false;
       cs_previous_hash := cs_previous_hash st;
       cs_results := cs_results st ++
         [VDict [("index", VInt (Z.of_nat i)); ("is_valid", VBool false);
                 ("error", VStr "Champs manquants")]] |}
  else
    let '(hash_valid, self1, valid1) :=
      if has_key "data" data then
        let '(calculated_hash, self1) := generate_data_hash (item data "data") (cs_self st) in
        let hash_valid := py_eq (VStr calculated_hash) (item data "data_hash") in
        (VBool hash_valid, self1, if hash_valid then cs_is_valid st else false)
      else (VNone, cs_self st, cs_is_valid st) in
    let '(prev_hash_valid, valid2) :=
      if negb (is_None (cs_previous_hash st)) && has_key "previous_hash" data then
        let prev_hash_valid := py_eq (item data "previous_hash") (cs_previous_hash st) in
        (VBool prev_hash_valid, if prev_hash_valid then valid1 else false)
      else (VNone, valid1) in
    {| cs_self := self1;
       cs_is_valid := valid2;
       cs_previous_hash := item data "data_hash";
       cs_results := cs_results st ++
         [VDict [("index", VInt (Z.of_nat i));
                 ("stage", item data "stage");
                 ("timestamp", item data "timestamp");
                 ("hash_valid", hash_valid);
                 ("prev_hash_valid", prev_hash_valid);
                 ("is_valid",
                  VBool (is_not_False hash_valid && is_not_False prev_hash_valid))]] |}.

Fixpoint chain_loop (i : nat) (chain_data : list (gmap string value))
    (st : chain_state) : chain_state :=
  match chain_data with
  | [] => st
  | data :: rest => chain_loop (S i) rest (chain_step i data st)
  end.

(** The state the loop leaves, from [is_valid = True], [previous_hash = None],
    [validation_results = []]. *)
Definition chain_run (chain_data : list (gmap string value))
    (self : IntegrityValidator) : chain_state :=
  chain_loop 0 chain_data
    {| cs_self := self; cs_is_valid := true; cs_previous_hash := VNone;
       cs_results := [] |}.

(** [validate_process_chain]; nothing in the body raises on these values,
    so the [except] branch is not taken. *)
Definition validate_process_chain (chain_data : list (gmap string value))
    (self : IntegrityValidator) : bool * IntegrityValidator :=
  match chain_data with
  | [] => (false, self)
  | _ =>
      let st := chain_run chain_data self in
      (cs_is_valid st,
       _record_validation "process_chain"
         (VDict [("is_valid", VBool (cs_is_valid st));
                 ("chain_length", VInt (Z.of_nat (length chain_data)));
                 ("results", VList (cs_results st))]) (cs_self st))
  end.

(** The [results] list the last ["process_chain"] validation carries. *)
Definition chain_results (chain_data : list (gmap string value))
    (self : IntegrityValidator) : list value :=
  cs_results (chain_run chain_data self).

(** [result["is_valid"]] of a per-record result. *)
Definition result_is_valid (r : value) : option value :=
  match r with VDict d => dict_get "is_valid" d | _ => None end.

Definition result_field (k : string) (r : value) : option value :=
  match r with VDict d => dict_get k d | _ => None end.

Definition hmac_hex (secret_key : string) (json_data : string) : string :=
  hex (Hmac.hmac_sha256 (utf8 secret_key) (utf8 json_data)).

Definition create_integrity_signature (data : value) (secret_key : string)
    (self : IntegrityValidator) : string * IntegrityValidator :=
  let json_data := json_dumps data in
  let signature := hmac_hex secret_key json_data in
  (signature,
   _record_validation "integrity_signature"
     (VDict [("signature", VStr signature); ("algorithm", VStr "hmac-sha256");
             ("data_type", VStr (type_name data))]) self).

(** [hmac.compare_digest(a, b)] on two str: a TypeError ([None]) unless both
    are ASCII, else whether they are equal. *)
Definition compare_digest (a b : string) : option bool :=
  if is_ascii a && is_ascii b then Some (String.eqb a b) else None.

Definition verify_integrity_signature (data : value) (signature secret_key : string)
    (self : IntegrityValidator) : bool * IntegrityValidator :=
  let '(new_signature, self1) := create_integrity_signature data secret_key self in
  match compare_digest new_signature signature with
  | Some is_valid =>
      (is_valid,
       _record_validation "signature_verification"
         (VDict [("is_valid", VBool is_valid); ("algorithm", VStr "hmac-sha256");
                 ("data_type", VStr (type_name data))]) self1)
  | None =>
      (false,
       _record_validation "signature_verification_error"
         (VDict [("error",
                  VStr "comparing strings with non-ASCII characters is not supported")])
         self1)
  end.

(** The counts [generate_full_report] puts under ["statistics"]:
    (total_validations, successful_validations). *)
Definition successful (v : validation) : bool :=
  match snd v with
  | VDict d => match dict_get "is_valid" d with Some b => truthy b | None => false end
  | _ => false
  end.

Definition statistics (self : IntegrityValidator) : nat * nat :=
  (length (validations self), length (filter (fun v => successful v = true) (validations self))).

End Integrity.

(** ** Exceptions, statements and the stages of the pipeline *)
Module Runtime.

Inductive stage : Type :=
  | acquisition | analysis | editing | adaptation | optimization | publication.


(** The value of ["stage"] in the record [save_file_info] gets for a stage. *)
Definition stage_name (s : stage) : string :=
  match s with
  | acquisition => "acquisition"
  | analysis => "analysis"
  | editing => "editing"
  | adaptation => "adaptation"
  | optimization => "optimization"
  | publication => "publication"
  end.

(** The outcome of a Python call: an exception ([str(e)]) or a value. *)
Inductive result (A : Type) : Type :=
  | Raised (e : string)
  | Returned (a : A).
Arguments Raised {A} e.
Arguments Returned {A} a.

(** Statements over a state [S]. *)
Definition M (S A : Type) : Type := S -> result A * S.

Definition ret {S A} (a : A) : M S A := fun s => (Returned a, s).

Definition bind {S A B} (m : M S A) (k : A -> M S B) : M S B :=
  fun s => match m s with
           | (Raised e, s') => (Raised e, s')
           | (Returned a, s') => k a s'
           end.

Definition raise {S A} (e : string) : M S A := fun s => (Raised e, s).

Definition modify {S} (f : S -> S) : M S unit := fun s => (Returned tt, f s).

(** [try: body  except Exception as e: handler(str(e))] *)
Definition try_except {S A} (body : M S A) (handler : string -> M S A) : M S A :=
  fun s => match body s with
           | (Raised e, s') => handler e s'
           | r => r
           end.

(** [try: body  except: pass] *)
Definition try_pass {S} (body : M S unit) : M S unit :=
  try_except body (fun _ => ret tt).

Declare Scope py_scope.
Delimit Scope py_scope with py.
Notation "x ← y ; z" := (bind y (fun x => z))
  (at level 20, y at level 100, z at level 200, only parsing) : py_scope.
Notation "x ;; z" := (bind x (fun _ => z))
  (at level 100, z at level 200, only parsing, right associativity) : py_scope.

(** The stages a run goes through, in order. *)
Definition pipeline (publish : bool) : list stage :=
  [acquisition; analysis; editing; adaptation; optimization]
  ++ (if publish then [publication] else []).

End Runtime.

(** ** src/logging/audit.py *)
Module Audit.
Import Py Runtime.

(** One element of [logs[0]["events"]] (without its wall-clock stamps). *)
Record event : Type := mkEvent {
  e_type : string;
  e_details : value
}.

(** [logs[0]]: the audit document, with every key the class ever sets. *)
Record audit_doc : Type := mkDoc {
  d_process_id : string;
  d_start_time : Z;
  d_status : string;
  d_events : list event;
  d_error : option string;
  d_end_time : option Z;
  d_duration : option Z;
  d_has_validation_errors : bool
}.

(** An [AuditLogger] object; [self.logs] always holds exactly one document,
    kept here as [logs0]. *)
Record AuditLogger : Type := mkLogger {
  process_id : string;
  start_time : Z;
  logs0 : audit_doc
}.

(** The audit documents on disk, [data/logs/{process_id}/audit.json], by
    process id.  The text of [audit.log] is not kept. *)
Abbreviation files := (gmap string audit_doc).

Definition with_doc (self : AuditLogger) (d : audit_doc) : AuditLogger :=
  {| process_id := process_id self; start_time := start_time self; logs0 := d |}.

(** [for key, value in event["details"].items()] in the rendering of
    [audit.log]: an AttributeError for the first event whose details are not
    a dict. *)
Fixpoint render_events (events : list event) : result unit :=
  match events with
  | [] => Returned tt
  | e :: rest =>
      match e_details e with
      | VDict _ => render_events rest
      | v => Raised ("'" +:+ type_name v +:+ "' object has no attribute 'items'")
      end
  end.

(** [_write_log]: [audit.json] is rewritten from [self.logs] first, then
    [audit.log] is rendered, which may raise. *)
Definition _write_log (self : AuditLogger) (fs : files) : result unit * files :=
  (render_events (d_events (logs0 self)), <[process_id self := logs0 self]> fs).

(** [AuditLogger(process_id)]: [__init__] then [_init_log]; with no event
    to render, [_write_log] returns. *)
Definition new (pid : string) (now : Z) (fs : files) : AuditLogger * files :=
  let init_log :=
    {| d_process_id := pid; d_start_time := now; d_status := "started";
       d_events := []; d_error := None; d_end_time := None; d_duration := None;
       d_has_validation_errors := false |} in
  let self := {| process_id := pid; start_time := now; logs0 := init_log |} in
  (self, snd (_write_log self fs)).

Definition append_event (d : audit_doc) (e : event) : audit_doc :=
  {| d_process_id := d_process_id d; d_start_time := d_start_time d;
     d_status := d_status d; d_events := d_events d ++ [e];
     d_error := d_error d; d_end_time := d_end_time d;
     d_duration := d_duration d;
     d_has_validation_errors := d_has_validation_errors d |}.

(** A method of the logger: what it returns or raises, the object and the
    files as it leaves them. *)
Definition method : Type := AuditLogger -> files -> result unit * (AuditLogger * files).

Definition log_event (event_type : string) (details : value) : method :=
  fun self fs =>
    let self' := with_doc self
                   (append_event (logs0 self)
                      {| e_type := event_type; e_details := details |}) in
    let '(r, fs') := _write_log self' fs in
    (r, (self', fs')).

(** [log_event(...)], then an update of [self.logs[0]], then [_write_log()]. *)
Definition and_then (first : method) (update : audit_doc -> audit_doc) : method :=
  fun self fs =>
    match first self fs with
    | (Raised e, st) => (Raised e, st)
    | (Returned _, (self1, fs1)) =>
        let self2 := with_doc self1 (update (logs0 self1)) in
        let '(r, fs2) := _write_log self2 fs1 in
        (r, (self2, fs2))
    end.

Definition log_start (source_url : string) : method :=
  log_event "process_start" (VDict [("source_url", VStr source_url)]).

Definition log_completion (result : value) (now : Z) : method :=
  fun self fs =>
    let duration := now - start_time self in
    and_then
      (log_event "process_complete"
         (VDict [("result", result); ("end_time", VInt now);
                 ("duration_seconds", VInt duration)]))
      (fun d =>
         {| d_process_id := d_process_id d; d_start_time := d_start_time d;
            d_status := "completed"; d_events := d_events d;
            d_error := d_error d; d_end_time := Some now;
            d_duration := Some duration;
            d_has_validation_errors := d_has_validation_errors d |}) self fs.

Definition log_error (error_message : string) : method :=
  and_then
    (log_event "error"
       (VDict [("error", VStr error_message); ("details", VDict [])]))
    (fun d =>
       {| d_process_id := d_process_id d; d_start_time := d_start_time d;
          d_status := "error"; d_events := d_events d;
          d_error := Some error_message; d_end_time := d_end_time d;
          d_duration := d_duration d;
          d_has_validation_errors := d_has_validation_errors d |}).

Definition log_validation (validation_type : string) (is_valid : bool)
    (details : value) : method :=
  and_then
    (log_event "validation"
       (VDict [("type", VStr validation_type); ("is_valid", VBool is_valid);
               ("details", details)]))
    (fun d =>
       {| d_process_id := d_process_id d; d_start_time := d_start_time d;
          d_status := d_status d; d_events := d_events d;
          d_error := d_error d; d_end_time := d_end_time d;
          d_duration := d_duration d;
          d_has_validation_errors :=
            if is_valid then d_has_validation_errors d else true |}).

(** The events of the persisted audit document of a process. *)
Definition persisted_events (pid : string) (fs : files) : list event :=
  match fs !! pid with Some d => d_events d | None => [] end.

End Audit.

(** ** str(), repr() and json.dump(..., indent=2) *)
Module PyText.
Import Py.

Definition code (c : ascii) : Z := Z.of_N (N_of_ascii c).

Fixpoint contains (c : ascii) (s : string) : bool :=
  match s with
  | EmptyString => false
  | String c' s' => Ascii.eqb c c' || contains c s'
  end.

Definition apostrophe : ascii := ascii_of_N 39.
Definition double_quote : ascii := ascii_of_N 34.

(** One character of [repr(s)] between the quotes [q]. *)
Definition repr_char (q c : ascii) : string :=
  let n := code c in
  if n =? 92 then "\\"
  else if Ascii.eqb c q then "\" +:+ String c ""
  else if n =? 9 then "\t"
  else if n =? 10 then "\n"
  else if n =? 13 then "\r"
  else if (n <? 32) || (n =? 127) || ((128 <=? n) && (n <=? 160)) || (n =? 173)
  then "\x" +:+ String (hex_digit (n / 16)) (String (hex_digit (n mod 16)) "")
  else String c "".

Fixpoint repr_chars (q : ascii) (s : string) : string :=
  match s with
  | EmptyString => ""
  | String c s' => repr_char q c +:+ repr_chars q s'
  end.

(** [repr(s)] of a str: double quotes only when the text holds an apostrophe
    and no double quote. *)
Definition repr_str (s : string) : string :=
  let q := if contains apostrophe s && negb (contains double_quote s)
           then double_quote else apostrophe in
  String q "" +:+ repr_chars q s +:+ String q "".

Fixpoint repr (v : value) : string :=
  match v with
  | VNone => "None"
  | VBool true => "True"
  | VBool false => "False"
  | VInt z => json_int z
  | VStr s => repr_str s
  | VList l => "[" +:+ join ", " (map repr l) +:+ "]"
  | VDict d =>
      "{" +:+ join ", " (map (fun kv => repr_str (fst kv) +:+ ": " +:+ repr (snd kv)) d)
          +:+ "}"
  end.

(** [str(v)], as an f-string renders [{v}]. *)
Definition str (v : value) : string :=
  match v with
  | VStr s => s
  | _ => repr v
  end.

Definition newline : string := String (ascii_of_N 10) "".

Fixpoint spaces (n : nat) : string :=
  match n with
  | O => ""
  | S n' => " " +:+ spaces n'
  end.

(** The line break and indentation before an item at nesting [level]. *)
Definition break (level : nat) : string := newline +:+ spaces (2 * level).

(** [json.dumps(v, indent=2)]: keys in insertion order. *)
Fixpoint dumps_indent (level : nat) (v : value) : string :=
  match v with
  | VNone => "null"
  | VBool true => "true"
  | VBool false => "false"
  | VInt z => json_int z
  | VStr s => json_string s
  | VList [] => "[]"
  | VList l =>
      "[" +:+ break (S level)
          +:+ join ("," +:+ break (S level)) (map (dumps_indent (S level)) l)
          +:+ break level +:+ "]"
  | VDict [] => "{}"
  | VDict d =>
      "{" +:+ break (S level)
          +:+ join ("," +:+ break (S level))
                (map (fun kv => json_string (fst kv) +:+ ": "
                                 +:+ dumps_indent (S level) (snd kv)) d)
          +:+ break level +:+ "}"
  end.

End PyText.

(** ** The file system, as [os.path], [open], [Path.mkdir] and [json.load] see it *)
Module Os.
Import Py Runtime.

(** What a path names: a regular file (with whether this process may read
    it), a directory, a regular readable file that holds
    [json.dump(v, f, indent=2)], or a special file (a character device such
    as [/dev/null]): [open] reads [content] from it and what is written to
    it does not stay, and [os.path.isfile] is False for it. *)
Inductive node : Type :=
  | File (readable : bool) (content : list Z)
  | Directory (st_size : Z)
  | Document (v : value)
  | Device (readable : bool) (content : list Z).

(** Paths are compared as they are written: one name per file. *)
Abbreviation filesystem := (gmap string node).

(** [os.path.exists(p)] *)
Definition path_exists (fs : filesystem) (p : string) : bool :=
  bool_decide (is_Some (fs !! p)).

(** [os.path.isfile(p)] *)
Definition isfile (fs : filesystem) (p : string) : bool :=
  match fs !! p with
  | Some (File _ _) | Some (Document _) => true
  | _ => false
  end.

(** [os.path.isdir(p)] *)
Definition isdir (fs : filesystem) (p : string) : bool :=
  match fs !! p with
  | Some (Directory _) => true
  | _ => false
  end.

(** [str(e)] of the OSError [open] raises. *)
Definition os_error (errno : Z) (strerror filename : string) : string :=
  "[Errno " +:+ json_int errno +:+ "] " +:+ strerror +:+ ": " +:+ PyText.repr_str filename.

(** [with open(p, 'rb') as f: f.read()] *)
Definition read_bytes (fs : filesystem) (p : string) : result (list Z) :=
  match fs !! p with
  | Some (File true content) | Some (Device true content) => Returned content
  | Some (File false _) | Some (Device false _) =>
      Raised (os_error 13 "Permission denied" p)
  | Some (Directory _) => Raised (os_error 21 "Is a directory" p)
  | Some (Document v) => Returned (utf8 (PyText.dumps_indent 0 v))
  | None => Raised (os_error 2 "No such file or directory" p)
  end.

(** [os.path.getsize(p)] of an existing path. *)
Definition getsize (fs : filesystem) (p : string) : result Z :=
  match fs !! p with
  | Some (File _ content) => Returned (Z.of_nat (length content))
  | Some (Directory st_size) => Returned st_size
  | Some (Document v) => Returned (Z.of_nat (length (utf8 (PyText.dumps_indent 0 v))))
  | Some (Device _ _) => Returned 0
  | None => Raised (os_error 2 "No such file or directory" p)
  end.

(** [Path(p).mkdir(parents=True, exist_ok=True)]: a FileExistsError when
    [p] names something that is not a directory.  The parents of [p] are not
    looked at. *)
Definition mkdir (p : string) : M filesystem unit :=
  fun fs =>
    match fs !! p with
    | None => (Returned tt, <[p := Directory 4096]> fs)
    | Some (Directory _) => (Returned tt, fs)
    | Some _ => (Raised (os_error 17 "File exists" p), fs)
    end.

(** [os.path.basename(p)]: what follows the last slash. *)
Fixpoint basename (p : string) : string :=
  match p with
  | EmptyString => ""
  | String c p' =>
      if PyText.contains "/" p' then basename p'
      else if Ascii.eqb c "/" then p'
      else p
  end.

End Os.

(** ** src/validation/integrity_validator.py: files and the full report *)
Module FileIntegrity.
Import Py Runtime Os Integrity.

(** [generate_file_hash]; both exits by exception are ValueErrors. *)
Definition generate_file_hash (fs : filesystem) (file_path : string)
    (self : IntegrityValidator) : result string * IntegrityValidator :=
  if negb (path_exists fs file_path) then
    (Raised ("Le fichier n'existe pas: " +:+ file_path), self)
  else
    match read_bytes fs file_path with
    | Raised e => (Raised ("Erreur lors du calcul de l'empreinte: " +:+ e), self)
    | Returned content =>
        let file_hash := hex (Sha256.sha256 content) in
        match getsize fs file_path with
        | Raised e => (Raised ("Erreur lors du calcul de l'empreinte: " +:+ e), self)
        | Returned file_size =>
            (Returned file_hash,
             _record_validation "file_hash"
               (VDict [("file_path", VStr file_path); ("hash", VStr file_hash);
                       ("algorithm", VStr "sha256"); ("file_size", VInt file_size)])
               self)
        end
    end.

(** [validate_file_integrity]; [expected_hash] is whatever the caller
    passes, compared with [==]. *)
Definition validate_file_integrity (fs : filesystem) (file_path : string)
    (expected_hash : value) (self : IntegrityValidator) : bool * IntegrityValidator :=
  match generate_file_hash fs file_path self with
  | (Returned current_hash, self1) =>
      let is_valid := py_eq (VStr current_hash) expected_hash in
      (is_valid,
       _record_validation "file_integrity"
         (VDict [("file_path", VStr file_path); ("expected_hash", expected_hash);
                 ("current_hash", VStr current_hash); ("is_valid", VBool is_valid)])
         self1)
  | (Raised e, self1) =>
      (false,
       _record_validation "file_integrity_error"
         (VDict [("file_path", VStr file_path); ("expected_hash", expected_hash);
                 ("error", VStr e)])
         self1)
  end.

(** [generate_full_report]: the two counts of ["statistics"] (the rate is
    their quotient, 0 for an empty report), and the report written out. *)
Definition generate_full_report (self : IntegrityValidator)
  : (nat * nat) * IntegrityValidator :=
  (statistics self, _save_report self).

End FileIntegrity.

(** ** src/storage/artifact_manager.py *)
Module Artifacts.
Import Py Runtime Os.
#[local] Open Scope py_scope.

(** A dict the code builds and mutates: its items in insertion order. *)
Abbreviation dict := (list (string * value)).

(** [d[k] = v]: an existing key keeps its place. *)
Fixpoint dict_set (k : string) (v : value) (d : dict) : dict :=
  match d with
  | [] => [(k, v)]
  | (k', v') :: d' =>
      if String.eqb k k' then (k, v) :: d' else (k', v') :: dict_set k v d'
  end.

(** [d[k]] of a key the code has set. *)
Definition item (k : string) (d : dict) : value := default VNone (dict_get k d).

(** [time.time()] and [datetime.now().isoformat()] when a method runs. *)
Record reading : Type := mkReading {
  time : Z;
  isoformat : string
}.

(** [self.manifest] *)
Record manifest : Type := mkManifest {
  m_process_id : string;
  creation_time : Z;
  creation_time_human : string;
  artifacts : list value;
  final_report : option value;
  final_report_hash : option string
}.

(** The dict [json.dump] writes for a manifest. *)
Definition manifest_value (m : manifest) : value :=
  VDict ([("process_id", VStr (m_process_id m));
          ("creation_time", VInt (creation_time m));
          ("creation_time_human", VStr (creation_time_human m));
          ("artifacts", VList (artifacts m))]
         ++ match final_report m with Some r => [("final_report", r)] | None => [] end
         ++ match final_report_hash m with
            | Some h => [("final_report_hash", VStr h)]
            | None => []
            end).

Record ArtifactManager : Type := mkManager {
  process_id : string;
  output_dir : string;
  manifest_of : manifest
}.

(** The object and the file system it writes to. *)
Definition state : Type := ArtifactManager * filesystem.

Definition on_files {A} (m : M filesystem A) : M state A :=
  fun s => let '(r, fs) := m (snd s) in (r, (fst s, fs)).

(** [with open(p, 'w') as f: json.dump(v, f, indent=2)] *)
Definition write_document (p : string) (v : value) : M filesystem unit :=
  fun fs =>
    match fs !! p with
    | Some (Directory _) => (Raised (os_error 21 "Is a directory" p), fs)
    | Some (Device _ _) => (Returned tt, fs)
    | _ => (Returned tt, <[p := Document v]> fs)
    end.

(** [file_info] of the loop of [save_file_info], when the value is a str
    that names an existing regular file and hashing it raises nothing. *)
Definition file_info (fs : filesystem) (v : value) : option value :=
  match v with
  | VStr p =>
      if path_exists fs p && isfile fs p then
        match read_bytes fs p, getsize fs p with
        | Returned content, Returned size =>
            Some (VDict [("path", VStr p); ("hash", VStr (hex (Sha256.sha256 content)));
                         ("size", VInt size); ("hash_algorithm", VStr "sha256")])
        | _, _ => None
        end
      else None
  | _ => None
  end.

(** The body of [for key, value in artifact_info.items()]. *)
Definition visit (fs : filesystem) (key : string) (v : value) (d : dict) : dict :=
  match file_info fs v with
  | Some info => dict_set (key +:+ "_info") info d
  | None => d
  end.

(** The loop itself, on the dict it mutates.  Each [next()] of the items
    view first compares the size of the dict with the size it had when the
    loop began ([used]) and raises RuntimeError when they differ; then it
    yields the item at [pos], if there is one. *)
Fixpoint items_loop (fs : filesystem) (pos remaining used : nat) (d : dict)
  : result dict :=
  if negb (length d =? used)%nat then
    Raised "dictionary changed size during iteration"
  else
    match remaining with
    | O => Returned d
    | S remaining' =>
        match d !! pos with
        | Some (key, v) =>
            items_loop fs (S pos) remaining' used (visit fs key v d)
        | None => Returned d
        end
    end.

(** The two stamps [save_file_info] sets first. *)
Definition stamp (now : reading) (artifact_info : dict) : dict :=
  dict_set "datetime" (VStr (isoformat now))
    (dict_set "timestamp" (VInt (time now)) artifact_info).

Definition append_artifact (entry : value) (self : ArtifactManager) : ArtifactManager :=
  let m := manifest_of self in
  {| process_id := process_id self; output_dir := output_dir self;
     manifest_of :=
       {| m_process_id := m_process_id m; creation_time := creation_time m;
          creation_time_human := creation_time_human m;
          artifacts := artifacts m ++ [entry];
          final_report := final_report m;
          final_report_hash := final_report_hash m |} |}.

Definition with_report (report : value) (report_hash : string) (self : ArtifactManager)
  : ArtifactManager :=
  let m := manifest_of self in
  {| process_id := process_id self; output_dir := output_dir self;
     manifest_of :=
       {| m_process_id := m_process_id m; creation_time := creation_time m;
          creation_time_human := creation_time_human m;
          artifacts := artifacts m;
          final_report := Some report;
          final_report_hash := Some report_hash |} |}.

(** The outcome of [boto3.client(...)] followed by [upload_file(...)]. *)
Inductive s3_outcome : Type :=
  | Uploaded
  | ClientError (e : string)
  | OtherError (e : string).

(** [zipfile.ZipFile]: opening an archive for writing, adding a member
    under a name, closing. *)
Record zipfile : Type := mkZipfile {
  zip_open : string -> M filesystem unit;
  zip_write : string -> string -> string -> M filesystem unit;
  zip_close : string -> M filesystem unit
}.

Section Libraries.

(** [str(Path(directory) / name)] *)
Variable path_join : string -> string -> string.
(** [shutil.copy2(source, target)] *)
Variable copy2 : string -> string -> M filesystem unit.
(** The S3 client, called with a file, a bucket and an object key. *)
Variable s3 : string -> string -> string -> s3_outcome.
Variable zip : zipfile.

Definition manifest_file (self : ArtifactManager) : string :=
  path_join (output_dir self) "artifacts_manifest.json".

Definition _save_manifest : M state unit :=
  fun s =>
    on_files (write_document (manifest_file (fst s))
                (manifest_value (manifest_of (fst s)))) s.

(** [ArtifactManager(process_id, output_dir)] *)
Definition new (process_id' output_dir' : string) (now : reading)
  : M filesystem ArtifactManager :=
  fun fs =>
    let self :=
      {| process_id := process_id'; output_dir := output_dir';
         manifest_of :=
           {| m_process_id := process_id'; creation_time := time now;
              creation_time_human := isoformat now; artifacts := [];
              final_report := None; final_report_hash := None |} |} in
    match mkdir output_dir' fs with
    | (Raised e, fs') => (Raised e, fs')
    | (Returned _, fs') =>
        match _save_manifest (self, fs') with
        | (Raised e, s) => (Raised e, snd s)
        | (Returned _, s) => (Returned (fst s), snd s)
        end
    end.

(** [save_file_info]; the dict it returns here is [artifact_info] as the
    call leaves it (the method itself returns None). *)
Definition save_file_info (now : reading) (artifact_info : dict) : M state dict :=
  fun s =>
    let info := stamp now artifact_info in
    let stage := default (VStr "unknown") (dict_get "stage" info) in
    let artifact_id := PyText.str stage +:+ "_" +:+ json_int (time now) in
    match items_loop (snd s) 0 (length info) (length info) info with
    | Raised e => (Raised e, s)
    | Returned info' =>
        let artifact_entry :=
          VDict [("id", VStr artifact_id); ("stage", stage);
                 ("timestamp", item "timestamp" info');
                 ("datetime", item "datetime" info');
                 ("info", VDict info')] in
        match _save_manifest (append_artifact artifact_entry (fst s), snd s) with
        | (Raised e, s') => (Raised e, s')
        | (Returned _, s') => (Returned info', s')
        end
    end.

(** [except Exception as e: raise ValueError(f"{prefix}{str(e)}")] *)
Definition reraise {S A} (prefix : string) (body : M S A) : M S A :=
  try_except body (fun e => raise (prefix +:+ e)).


(** [save_final_report]: the path of the report and the report as saved. *)
Definition save_final_report (now : reading) (report_data : dict)
  : M state (string * dict) :=
  fun s =>
    let report_file := path_join (output_dir (fst s)) "final_report.json" in
    let report_data :=
      dict_set "saved_at_human" (VStr (isoformat now))
        (dict_set "saved_at" (VInt (time now))
           (dict_set "manifest_file" (VStr (manifest_file (fst s))) report_data)) in
    let report_hash := Integrity.data_digest (VDict report_data) in
    let report_data := dict_set "report_hash" (VStr report_hash) report_data in
    (on_files (write_document report_file (VDict report_data)) ;;
     (fun s' => _save_manifest (with_report (VDict report_data) report_hash (fst s'), snd s')) ;;
     ret (report_file, report_data)) s.

(** The files of one manifest entry that go into the archive. *)
Definition archive_member (archive_path : string) (kv : string * value)
  : M filesystem unit :=
  fun fs =>
    match snd kv with
    | VStr p =>
        if path_exists fs p && isfile fs p
        then try_pass (zip_write zip archive_path p (basename p)) fs
        else (Returned tt, fs)
    | _ => (Returned tt, fs)
    end.

Fixpoint archive_members (archive_path : string) (info : dict) : M filesystem unit :=
  match info with
  | [] => ret tt
  | kv :: info' =>
      archive_member archive_path kv ;; archive_members archive_path info'
  end.

(** [info = artifact["info"]] and the loop over its items. *)
Definition archive_artifact (archive_path : string) (artifact : value)
  : M filesystem unit :=
  match artifact with
  | VDict entry =>
      match dict_get "info" entry with
      | Some (VDict info) => archive_members archive_path info
      | Some v =>
          raise ("'" +:+ type_name v +:+ "' object has no attribute 'items'")
      | None => raise "'info'"
      end
  | v => raise ("'" +:+ type_name v +:+ "' object is not subscriptable")
  end.

Fixpoint archive_all (archive_path : string) (artifacts' : list value)
  : M filesystem unit :=
  match artifacts' with
  | [] => ret tt
  | artifact :: rest =>
      archive_artifact archive_path artifact ;; archive_all archive_path rest
  end.

(** [with zipfile.ZipFile(archive_path, 'w', ...) as zipf: ...]: the archive
    is closed however the block ends. *)
Definition write_archive (archive_path : string) (self : ArtifactManager)
  : M filesystem unit :=
  zip_open zip archive_path ;;
  (fun fs =>
     match (zip_write zip archive_path (manifest_file self)
              (basename (manifest_file self)) ;;
            archive_all archive_path (artifacts (manifest_of self))) fs with
     | (Raised e, fs') =>
         (match zip_close zip archive_path fs' with
          | (Raised e', fs'') => (Raised e', fs'')
          | (Returned _, fs'') => (Raised e, fs'')
          end)
     | (Returned _, fs') => zip_close zip archive_path fs'
     end).

(** [archive_artifacts] *)
Definition archive_artifacts (now : reading) (archive_name : option string)
  : M state string :=
  fun s =>
    let archive_name :=
      default ("artifacts_" +:+ process_id (fst s) +:+ "_" +:+ json_int (time now)
               +:+ ".zip") archive_name in
    let archive_path := path_join (output_dir (fst s)) archive_name in
    reraise "Erreur lors de l'archivage des artefacts: "
      (on_files (write_archive archive_path (fst s)) ;;
       content ← on_files (fun fs => (read_bytes fs archive_path, fs)) ;
       size ← on_files (fun fs => (getsize fs archive_path, fs)) ;
       save_file_info now
         [("stage", VStr "artifacts_archive"); ("archive_path", VStr archive_path);
          ("archive_hash", VStr (hex (Sha256.sha256 content)));
          ("archive_size", VInt size);
          ("artifact_count",
           VInt (Z.of_nat (length (artifacts (manifest_of (fst s))))))] ;;
       ret archive_path) s.

(** [upload_to_s3]; the dict returned is [upload_info] as [save_file_info]
    leaves it. *)
Definition upload_to_s3 (now : reading) (file_path bucket_name : string)
    (object_key : option string) : M state dict :=
  fun s =>
    if negb (path_exists (snd s) file_path) then
      (Raised ("Le fichier à télécharger n'existe pas: " +:+ file_path), s)
    else
      let object_key :=
        default (process_id (fst s) +:+ "/" +:+ basename file_path) object_key in
      match s3 file_path bucket_name object_key with
      | ClientError e => (Raised ("Erreur AWS lors du téléchargement: " +:+ e), s)
      | OtherError e => (Raised ("Erreur lors du téléchargement vers S3: " +:+ e), s)
      | Uploaded =>
          reraise "Erreur lors du téléchargement vers S3: "
            (let object_url :=
               "https://" +:+ bucket_name +:+ ".s3.amazonaws.com/" +:+ object_key in
             size ← on_files (fun fs => (getsize fs file_path, fs)) ;
             save_file_info now
               [("stage", VStr "s3_upload"); ("file_path", VStr file_path);
                ("bucket_name", VStr bucket_name); ("object_key", VStr object_key);
                ("object_url", VStr object_url); ("file_size", VInt size)]) s
      end.

End Libraries.

End Artifacts.

(** ** src/logging/audit.py: files, transformations, durations *)
Module AuditFiles.
Import Py Runtime Os Audit.

(** [f"{n:02d}"] *)
Definition format_02d (n : Z) : string :=
  let digits := json_int n in
  if (String.length digits <? 2)%nat then "0" +:+ digits else digits.

(** [_format_duration]; a duration is a whole number of seconds here, so
    [int(seconds)] is the number itself. *)
Definition _format_duration (seconds : Z) : string :=
  let minutes := seconds / 60 in
  let seconds := seconds mod 60 in
  let hours := minutes / 60 in
  let minutes := minutes mod 60 in
  format_02d hours +:+ ":" +:+ format_02d minutes +:+ ":" +:+ format_02d seconds.

(** [_calculate_file_hash]: the hash, or None. *)
Definition _calculate_file_hash (os : filesystem) (file_path : string) : value :=
  if negb (path_exists os file_path) then VNone
  else
    match read_bytes os file_path with
    | Returned content => VStr (hex (Sha256.sha256 content))
    | Raised _ => VNone
    end.

(** [log_file_operation]; [open] is not guarded here, so its OSError leaves
    the method. *)
Definition log_file_operation (os : filesystem) (operation file_path : string)
    (metadata : value) : method :=
  fun self fs =>
    let details file_hash file_size :=
      VDict [("operation", VStr operation); ("path", VStr file_path);
             ("file_hash", file_hash); ("file_size", file_size);
             ("metadata", if truthy metadata then metadata else VDict [])] in
    if negb (path_exists os file_path) then
      log_event ("file_" +:+ operation) (details VNone VNone) self fs
    else
      match read_bytes os file_path with
      | Raised e => (Raised e, (self, fs))
      | Returned content =>
          match getsize os file_path with
          | Raised e => (Raised e, (self, fs))
          | Returned file_size =>
              log_event ("file_" +:+ operation)
                (details (VStr (hex (Sha256.sha256 content))) (VInt file_size)) self fs
          end
      end.

(** [log_transformation] *)
Definition log_transformation (os : filesystem) (transformation_type : string)
    (input_path output_path : string) (parameters : value) : method :=
  log_event "transformation"
    (VDict [("type", VStr transformation_type);
            ("input_path", VStr input_path); ("output_path", VStr output_path);
            ("input_hash", _calculate_file_hash os input_path);
            ("output_hash", _calculate_file_hash os output_path);
            ("parameters", parameters)]).

End AuditFiles.

(** ** What a run of the six-stage pipeline acts on *)
Module Pipeline.
Import Py Runtime Os.
#[local] Open Scope py_scope.

(** The stage collaborators, whose code is not part of what is embedded
    here ([YouTubeDownloader.download], [VideoAnalyzer.analyze],
    [VideoEditor.edit], [FormatAdapter.adapt], [ViralOptimizer.optimize],
    [TikTokPublisher.publish]): each may raise, change the files, and returns
    the paths (str) and data the caller unpacks.  [path_join] is
    [str(Path(directory) / name)].  For the web application, a cancel request
    for the process may be served while a collaborator runs. *)
Record environment : Type := mkEnv {
  path_join : string -> string -> string;
  download : string -> M filesystem (string * string * value);
  analyze : string -> string -> M filesystem (value * value);
  edit : string -> string -> value -> M filesystem string;
  adapt : string -> M filesystem string;
  optimize : string -> value -> M filesystem (string * value);
  publish_on_tiktok : string -> value -> M filesystem value;
  cancel_during : stage -> bool
}.

(** Everything a run leaves behind apart from the status it reports: the
    audit documents on disk (by process id), the other files, the
    collaborators called (in order), the local variables [audit_logger],
    [artifact_manager] and [integrity_validator], and what [time.time()] and
    [datetime.now().isoformat()] give. *)
Record effects : Type := mkEffects {
  audit_files : Audit.files;
  disk : filesystem;
  invoked : list stage;
  audit_logger : option Audit.AuditLogger;
  artifact_manager : option Artifacts.ArtifactManager;
  integrity_validator : option Integrity.IntegrityValidator;
  clock : Z;
  today : string
}.

Definition with_audit (fs : Audit.files) (l : option Audit.AuditLogger)
    (x : effects) : effects :=
  {| audit_files := fs; disk := disk x; invoked := invoked x; audit_logger := l;
     artifact_manager := artifact_manager x;
     integrity_validator := integrity_validator x;
     clock := clock x; today := today x |}.

Definition with_disk (fs : filesystem) (x : effects) : effects :=
  {| audit_files := audit_files x; disk := fs; invoked := invoked x;
     audit_logger := audit_logger x; artifact_manager := artifact_manager x;
     integrity_validator := integrity_validator x;
     clock := clock x; today := today x |}.

Definition with_invoked (l : list stage) (x : effects) : effects :=
  {| audit_files := audit_files x; disk := disk x; invoked := l;
     audit_logger := audit_logger x; artifact_manager := artifact_manager x;
     integrity_validator := integrity_validator x;
     clock := clock x; today := today x |}.

Definition with_manager (a : option Artifacts.ArtifactManager) (x : effects) : effects :=
  {| audit_files := audit_files x; disk := disk x; invoked := invoked x;
     audit_logger := audit_logger x; artifact_manager := a;
     integrity_validator := integrity_validator x;
     clock := clock x; today := today x |}.

Definition with_validator (v : option Integrity.IntegrityValidator) (x : effects)
  : effects :=
  {| audit_files := audit_files x; disk := disk x; invoked := invoked x;
     audit_logger := audit_logger x; artifact_manager := artifact_manager x;
     integrity_validator := v;
     clock := clock x; today := today x |}.

Definition reading_now (x : effects) : Artifacts.reading :=
  {| Artifacts.time := clock x; Artifacts.isoformat := today x |}.

(** [time.time()] *)
Definition time_now : M effects Z := fun x => (Returned (clock x), x).

Definition on_disk {A} (m : M filesystem A) : M effects A :=
  fun x => let '(r, fs) := m (disk x) in (r, with_disk fs x).

(** [audit_logger = AuditLogger(process_id)] *)
Definition new_audit_logger (pid : string) : M effects unit :=
  modify (fun x =>
    let '(l, fs) := Audit.new pid (clock x) (audit_files x) in
    with_audit fs (Some l) x).

(** [audit_logger.<method>(...)]; a NameError when the variable is unbound. *)
Definition on_audit_logger (method : Audit.method) : M effects unit :=
  fun x => match audit_logger x with
           | Some l =>
               let '(r, (l', fs)) := method l (audit_files x) in
               (r, with_audit fs (Some l') x)
           | None => (Raised "name 'audit_logger' is not defined", x)
           end.

Definition log_completion (report : value) : M effects unit :=
  fun x => on_audit_logger (Audit.log_completion report (clock x)) x.

(** [artifact_manager = ArtifactManager(process_id, output_dir)] *)
Definition new_artifact_manager (env : environment) (pid output_dir : string)
  : M effects unit :=
  fun x =>
    match Artifacts.new (path_join env) pid output_dir (reading_now x) (disk x) with
    | (Raised e, fs) => (Raised e, with_disk fs x)
    | (Returned a, fs) => (Returned tt, with_manager (Some a) (with_disk fs x))
    end.

(** [artifact_manager.<method>(...)] *)
Definition on_artifact_manager {A} (method : M Artifacts.state A) : M effects A :=
  fun x => match artifact_manager x with
           | Some a =>
               let '(r, (a', fs)) := method (a, disk x) in
               (r, with_manager (Some a') (with_disk fs x))
           | None => (Raised "name 'artifact_manager' is not defined", x)
           end.

(** [artifact_manager.save_file_info({...})] *)
Definition save_file_info (env : environment) (artifact_info : Artifacts.dict)
  : M effects unit :=
  fun x =>
    (on_artifact_manager
       (Artifacts.save_file_info (path_join env) (reading_now x) artifact_info) ;;
     ret tt) x.

(** [artifact_manager.save_final_report(final_report)]: the dict it is
    given, as the call leaves it. *)
Definition save_final_report (env : environment) (final_report : Artifacts.dict)
  : M effects Artifacts.dict :=
  fun x =>
    (saved ← on_artifact_manager
               (Artifacts.save_final_report (path_join env) (reading_now x)
                  final_report) ;
     ret (snd saved)) x.

(** [integrity_validator = IntegrityValidator(process_id)] *)
Definition new_integrity_validator (pid : string) : M effects unit :=
  modify (with_validator (Some (Integrity.init pid))).

Definition on_integrity_validator {A}
    (method : Integrity.IntegrityValidator -> result A * Integrity.IntegrityValidator)
  : M effects A :=
  fun x => match integrity_validator x with
           | Some v =>
               let '(r, v') := method v in (r, with_validator (Some v') x)
           | None => (Raised "name 'integrity_validator' is not defined", x)
           end.

(** [integrity_validator.generate_file_hash(path)] *)
Definition generate_file_hash (file_path : string) : M effects string :=
  fun x =>
    on_integrity_validator (FileIntegrity.generate_file_hash (disk x) file_path) x.

(** [integrity_validator.generate_data_hash(data)] *)
Definition generate_data_hash (data : value) : M effects string :=
  on_integrity_validator
    (fun v => let '(h, v') := Integrity.generate_data_hash data v in (Returned h, v')).

(** A call of the collaborator of stage [s]. *)
Definition invoke {A} (s : stage) (call : M filesystem A) : M effects A :=
  fun x =>
    let '(r, fs) := call (disk x) in
    (r, with_disk fs (with_invoked (invoked x ++ [s]) x)).

End Pipeline.

(** ** src/worker.py *)
Module Worker.
Import Py Runtime Os Pipeline.
#[local] Open Scope py_scope.

Record parameters : Type := mkParameters {
  url : string;
  audio_quality : string;
  video_quality : string;
  publish : bool;
  hashtags : list string
}.

(** A document of [db.tasks]. *)
Record task : Type := mkTask {
  _id : string;
  process_id : option string;
  status : string;
  progress : Z;
  message : string;
  params : parameters;
  priority : Z;
  created_at : Z;
  updated_at : Z;
  worker_id : option Z
}.

(** [a] comes strictly before [b] under
    [sort=[("priority", DESCENDING), ("created_at", ASCENDING)]]. *)
Definition sorts_before (a b : task) : bool :=
  (priority b <? priority a)
  || ((priority a =? priority b) && (created_at a <? created_at b)).

(** The first document matching [{"status": "pending"}] in sort order, with
    its position in the collection; documents the sort does not separate stay
    in collection order. *)
Fixpoint find_one (i : nat) (store : list task) : option (nat * task) :=
  match store with
  | [] => None
  | t :: rest =>
      let r := find_one (S i) rest in
      if String.eqb (status t) "pending" then
        match r with
        | Some (j, b) => if sorts_before b t then Some (j, b) else Some (i, t)
        | None => Some (i, t)
        end
      else r
  end.

(** [{"$set": {"status": "processing", "updated_at": ..., "worker_id": ...}}] *)
Definition set_processing (now pid : Z) (t : task) : task :=
  {| _id := _id t; process_id := process_id t; status := "processing";
     progress := progress t; message := message t; params := params t;
     priority := priority t; created_at := created_at t;
     updated_at := now; worker_id := Some pid |}.

(** The [tasks_collection.find_one_and_update(...)] call of [Worker.run]: one
    atomic operation of the store, returning the document as it was before the
    update (pymongo's default). *)
Definition find_one_and_update (now pid : Z) (store : list task)
  : option task * list task :=
  match find_one 0 store with
  | Some (i, t) => (Some t, <[i := set_processing now pid t]> store)
  | None => (None, store)
  end.

(** [update_one({"_id": id}, {"$set": ...})]: the first document with that
    [_id], if any. *)
Fixpoint update_one (id : string) (f : task -> task) (store : list task)
  : list task :=
  match store with
  | [] => []
  | t :: rest =>
      if String.eqb (_id t) id then f t :: rest
      else t :: update_one id f rest
  end.

(** [insert_one(task)]: refused (DuplicateKeyError) when the [_id] is taken. *)
Definition insert_one (t : task) (store : list task) : option (list task) :=
  if existsb (fun t' => String.eqb (_id t') (_id t)) store then None
  else Some (store ++ [t]).

Definition set_status (status' : string) (progress' : Z) (message' : string)
    (now : Z) (t : task) : task :=
  {| _id := _id t; process_id := process_id t; status := status';
     progress := progress'; message := message'; params := params t;
     priority := priority t; created_at := created_at t;
     updated_at := now; worker_id := worker_id t |}.

Definition set_interrupted (now : Z) (t : task) : task :=
  {| _id := _id t; process_id := process_id t; status := "interrupted";
     progress := progress t; message := message t; params := params t;
     priority := priority t; created_at := created_at t;
     updated_at := now; worker_id := worker_id t |}.

(** The worker's view: the two collections and what the pipeline leaves. *)
Record world : Type := mkWorld {
  tasks_collection : list task;
  results_collection : list string;
  fx : effects
}.

Definition lift {A} (m : M effects A) : M world A :=
  fun w => let '(r, x) := m (fx w) in
           (r, {| tasks_collection := tasks_collection w;
                  results_collection := results_collection w; fx := x |}).

(** [Worker.update_task_status] *)
Definition update_task_status (task_id status' : string) (progress' : Z)
    (message' : string) : M world unit :=
  modify (fun w =>
    {| tasks_collection :=
         update_one task_id (set_status status' progress' message' (clock (fx w)))
           (tasks_collection w);
       results_collection := results_collection w; fx := fx w |}).

Definition insert_result (task_id : string) : M world unit :=
  modify (fun w =>
    {| tasks_collection := tasks_collection w;
       results_collection := results_collection w ++ [task_id]; fx := fx w |}).

(** [Worker.process_task] *)
Definition process_task (env : environment) (task : task) : M world unit :=
  let task_id := _id task in
  let process_id := default task_id (process_id task) in
  try_except
    (update_task_status task_id "processing" 0 "Initialisation" ;;
     let url := url (params task) in
     let publish := publish (params task) in
     let output_path := "data/output/" +:+ process_id in
     lift (on_disk (Os.mkdir output_path)) ;;
     lift (new_audit_logger process_id) ;;
     lift (on_audit_logger (Audit.log_start url)) ;;
     lift (new_artifact_manager env process_id output_path) ;;
     lift (new_integrity_validator process_id) ;;
     update_task_status task_id "processing" 5 "Téléchargement de la vidéo" ;;
     downloaded ← lift (invoke acquisition (download env url)) ;
     let '(video_path, audio_path, video_info) := downloaded in
     video_hash ← lift (generate_file_hash video_path) ;
     audio_hash ← lift (generate_file_hash audio_path) ;
     lift (save_file_info env
             [("stage", VStr "acquisition");
              ("video_path", VStr video_path); ("video_hash", VStr video_hash);
              ("audio_path", VStr audio_path); ("audio_hash", VStr audio_hash);
              ("video_info", video_info)]) ;;
     update_task_status task_id "processing" 20 "Analyse de la vidéo" ;;
     analysed ← lift (invoke analysis (analyze env video_path audio_path)) ;
     let '(segments, analysis_report) := analysed in
     segments_hash ← lift (generate_data_hash segments) ;
     lift (save_file_info env
             [("stage", VStr "analysis"); ("segments", segments);
              ("segments_hash", VStr segments_hash);
              ("analysis_report", analysis_report)]) ;;
     update_task_status task_id "processing" 40 "Montage de la vidéo" ;;
     edited_video_path ←
       lift (invoke editing (edit env video_path audio_path segments)) ;
     edited_hash ← lift (generate_file_hash edited_video_path) ;
     lift (save_file_info env
             [("stage", VStr "editing");
              ("edited_video_path", VStr edited_video_path);
              ("edited_hash", VStr edited_hash)]) ;;
     update_task_status task_id "processing" 60 "Adaptation au format TikTok" ;;
     tiktok_format_path ← lift (invoke adaptation (adapt env edited_video_path)) ;
     adapted_hash ← lift (generate_file_hash tiktok_format_path) ;
     lift (save_file_info env
             [("stage", VStr "adaptation");
              ("tiktok_format_path", VStr tiktok_format_path);
              ("adapted_hash", VStr adapted_hash)]) ;;
     update_task_status task_id "processing" 75 "Optimisation pour la viralité" ;;
     optimized ←
       lift (invoke optimization (optimize env tiktok_format_path video_info)) ;
     let '(optimized_path, metadata) := optimized in
     optimized_hash ← lift (generate_file_hash optimized_path) ;
     metadata_hash ← lift (generate_data_hash metadata) ;
     lift (save_file_info env
             [("stage", VStr "optimization");
              ("optimized_path", VStr optimized_path);
              ("optimized_hash", VStr optimized_hash);
              ("metadata", metadata); ("metadata_hash", VStr metadata_hash)]) ;;
     result ←
       (if publish then
          update_task_status task_id "processing" 90 "Publication sur TikTok" ;;
          result ←
            lift (invoke publication (publish_on_tiktok env optimized_path metadata)) ;
          lift (save_file_info env
                  [("stage", VStr "publication"); ("result", result)]) ;;
          ret result
        else ret (VDict [])) ;
     end_time ← lift time_now ;
     let start_time := created_at task in
     final_report ←
       lift (save_final_report env
               [("process_id", VStr process_id); ("task_id", VStr task_id);
                ("url", VStr url); ("start_time", VInt start_time);
                ("end_time", VInt end_time);
                ("total_time", VInt (end_time - start_time));
                ("output_path", VStr output_path);
                ("final_video", VStr optimized_path);
                ("final_hash", VStr optimized_hash);
                ("tiktok_published", VBool publish);
                ("tiktok_result", result); ("metadata", metadata);
                ("download_url", VStr ("/api/download/" +:+ process_id))]) ;
     lift (log_completion (VDict final_report)) ;;
     insert_result task_id ;;
     update_task_status task_id "completed" 100 "Conversion terminée")
    (fun e =>
       try_pass (lift (new_audit_logger process_id) ;;
                 lift (on_audit_logger (Audit.log_error e))) ;;
       update_task_status task_id "failed" 100 ("Erreur: " +:+ e)).

(** The [Worker] object. *)
Record Worker : Type := mkWorker {
  running : bool;
  current_task : option task
}.

(** One turn of [while self.running:] in [Worker.run], by the worker of
    process id [pid]; [None] for the task means the worker sleeps. *)
Definition run_iteration (env : environment) (pid : Z) (self : Worker) (w : world)
  : Worker * world :=
  let '(leased, store) :=
    find_one_and_update (clock (fx w)) pid (tasks_collection w) in
  let w1 := {| tasks_collection := store;
               results_collection := results_collection w; fx := fx w |} in
  match leased with
  | Some task =>
      match process_task env task w1 with
      | (Returned _, w2) => ({| running := running self; current_task := None |}, w2)
      | (Raised _, w2) => ({| running := running self; current_task := Some task |}, w2)
      end
  | None => (self, w1)
  end.

Fixpoint run (turns : nat) (env : environment) (pid : Z) (self : Worker) (w : world)
  : Worker * world :=
  match turns with
  | O => (self, w)
  | S n =>
      if running self then
        let '(self', w') := run_iteration env pid self w in run n env pid self' w'
      else (self, w)
  end.

(** [Worker.handle_shutdown] *)
Definition handle_shutdown (self : Worker) (w : world) : Worker * world :=
  ({| running := false; current_task := current_task self |},
   match current_task self with
   | Some t =>
       {| tasks_collection :=
            update_one (_id t) (set_interrupted (clock (fx w))) (tasks_collection w);
          results_collection := results_collection w; fx := fx w |}
   | None => w
   end).

(** [create_task]: the pending document it inserts; [process_id] is the
    identifier it generates from the clock and the url. *)
Definition new_task (process_id' : string) (p : parameters) (priority' now : Z) : task :=
  {| _id := process_id'; process_id := Some process_id'; status := "pending";
     progress := 0; message := "En attente de traitement"; params := p;
     priority := priority'; created_at := now; updated_at := now;
     worker_id := None |}.

Definition create_task (process_id' : string) (p : parameters) (priority' now : Z)
    (store : list task) : option (list task) :=
  insert_one (new_task process_id' p priority' now) store.

End Worker.

(** ** src/web/app.py *)
Module Web.
Import Py Runtime Os Pipeline.
#[local] Open Scope py_scope.

(** An entry of [active_processes] (its copy of the request is not kept). *)
Record process : Type := mkProcess {
  status : string;
  progress : Z;
  current_stage : string;
  started_at : Z;
  output_dir : string;
  error : option string
}.

Inductive response : Type :=
  | HTTPException (status_code : nat) (detail : string)
  | Success (message : string).

(** [status in ["completed", "failed"]] *)
Definition finished (status' : string) : bool :=
  String.eqb status' "completed" || String.eqb status' "failed".

(** [cancel_conversion] ([DELETE /api/cancel/{process_id}]) *)
Definition cancel_conversion (process_id : string)
    (active_processes : gmap string process) : response * gmap string process :=
  match active_processes !! process_id with
  | None => (HTTPException 404 "Processus non trouvé", active_processes)
  | Some p =>
      if finished (status p) then
        (HTTPException 400 "Processus déjà terminé", active_processes)
      else
        (Success "Conversion annulée",
         <[process_id :=
             {| status := "cancelled"; progress := 100;
                current_stage := "annulation"; started_at := started_at p;
                output_dir := output_dir p; error := error p |}]> active_processes)
  end.

Record world : Type := mkWorld {
  active_processes : gmap string process;
  fx : effects
}.

Definition lift {A} (m : M effects A) : M world A :=
  fun w => let '(r, x) := m (fx w) in
           (r, {| active_processes := active_processes w; fx := x |}).

(** [update_process_status] *)
Definition update_process_status (process_id status' : string) (progress' : Z)
    (stage' : string) : M world unit :=
  fun w =>
    match active_processes w !! process_id with
    | Some p =>
        if String.eqb (status p) "cancelled" then
          (Raised "Processus annulé par l'utilisateur", w)
        else
          (Returned tt,
           {| active_processes :=
                <[process_id :=
                    {| status := status'; progress := progress';
                       current_stage := stage'; started_at := started_at p;
                       output_dir := output_dir p; error := error p |}]>
                  (active_processes w);
              fx := fx w |})
    | None => (Returned tt, w)
    end.

(** [active_processes[process_id][...] = ...]: a KeyError on an unknown id. *)
Definition assign (process_id : string) (f : process -> process) : M world unit :=
  fun w =>
    match active_processes w !! process_id with
    | Some p =>
        (Returned tt,
         {| active_processes := <[process_id := f p]> (active_processes w);
            fx := fx w |})
    | None => (Raised ("'" +:+ process_id +:+ "'"), w)
    end.

Definition set_processing (p : process) : process :=
  {| status := "processing"; progress := progress p;
     current_stage := current_stage p; started_at := started_at p;
     output_dir := output_dir p; error := error p |}.

Definition set_failed (e : string) (p : process) : process :=
  {| status := "failed"; progress := 100; current_stage := "erreur";
     started_at := started_at p; output_dir := output_dir p; error := Some e |}.

(** [active_processes[process_id][key]], read: a KeyError on an unknown id. *)
Definition entry {A} (process_id : string) (key : process -> A) : M world A :=
  fun w =>
    match active_processes w !! process_id with
    | Some p => (Returned (key p), w)
    | None => (Raised ("'" +:+ process_id +:+ "'"), w)
    end.

(** A stage collaborator called by [process_conversion]; while it runs the
    application may serve a cancel request for this process. *)
Definition invoke {A} (env : environment) (process_id : string) (s : stage)
    (call : M filesystem A) : M world A :=
  fun w =>
    let '(r, x) := Pipeline.invoke s call (fx w) in
    let procs :=
      if cancel_during env s
      then snd (cancel_conversion process_id (active_processes w))
      else active_processes w in
    (r, {| active_processes := procs; fx := x |}).

(** [process_conversion] *)
Definition process_conversion (env : environment) (process_id url : string)
    (publish : bool) : M world unit :=
  try_except
    (assign process_id set_processing ;;
     output_path ← entry process_id output_dir ;
     lift (on_disk (Os.mkdir output_path)) ;;
     lift (new_audit_logger process_id) ;;
     lift (on_audit_logger (Audit.log_start url)) ;;
     lift (new_artifact_manager env process_id output_path) ;;
     lift (new_integrity_validator process_id) ;;
     update_process_status process_id "downloading" 5 "Téléchargement de la vidéo" ;;
     downloaded ← invoke env process_id acquisition (download env url) ;
     let '(video_path, audio_path, video_info) := downloaded in
     video_hash ← lift (generate_file_hash video_path) ;
     audio_hash ← lift (generate_file_hash audio_path) ;
     lift (save_file_info env
             [("stage", VStr "acquisition");
              ("video_path", VStr video_path); ("video_hash", VStr video_hash);
              ("audio_path", VStr audio_path); ("audio_hash", VStr audio_hash);
              ("video_info", video_info)]) ;;
     update_process_status process_id "analyzing" 20 "Analyse de la vidéo" ;;
     analysed ← invoke env process_id analysis (analyze env video_path audio_path) ;
     let '(segments, analysis_report) := analysed in
     segments_hash ← lift (generate_data_hash segments) ;
     lift (save_file_info env
             [("stage", VStr "analysis"); ("segments", segments);
              ("segments_hash", VStr segments_hash);
              ("analysis_report", analysis_report)]) ;;
     update_process_status process_id "editing" 40 "Montage de la vidéo" ;;
     edited_video_path ←
       invoke env process_id editing (edit env video_path audio_path segments) ;
     edited_hash ← lift (generate_file_hash edited_video_path) ;
     lift (save_file_info env
             [("stage", VStr "editing");
              ("edited_video_path", VStr edited_video_path);
              ("edited_hash", VStr edited_hash)]) ;;
     update_process_status process_id "adapting" 60 "Adaptation au format TikTok" ;;
     tiktok_format_path ←
       invoke env process_id adaptation (adapt env edited_video_path) ;
     adapted_hash ← lift (generate_file_hash tiktok_format_path) ;
     lift (save_file_info env
             [("stage", VStr "adaptation");
              ("tiktok_format_path", VStr tiktok_format_path);
              ("adapted_hash", VStr adapted_hash)]) ;;
     update_process_status process_id "optimizing" 75 "Optimisation pour la viralité" ;;
     optimized ←
       invoke env process_id optimization (optimize env tiktok_format_path video_info) ;
     let '(optimized_path, metadata) := optimized in
     optimized_hash ← lift (generate_file_hash optimized_path) ;
     metadata_hash ← lift (generate_data_hash metadata) ;
     lift (save_file_info env
             [("stage", VStr "optimization");
              ("optimized_path", VStr optimized_path);
              ("optimized_hash", VStr optimized_hash);
              ("metadata", metadata); ("metadata_hash", VStr metadata_hash)]) ;;
     result ←
       (if publish then
          update_process_status process_id "publishing" 90 "Publication sur TikTok" ;;
          result ←
            invoke env process_id publication
              (publish_on_tiktok env optimized_path metadata) ;
          lift (save_file_info env
                  [("stage", VStr "publication"); ("result", result)]) ;;
          ret result
        else ret (VDict [])) ;
     end_time ← lift time_now ;
     start_time ← entry process_id started_at ;
     final_report ←
       lift (save_final_report env
               [("process_id", VStr process_id); ("url", VStr url);
                ("start_time", VInt start_time); ("end_time", VInt end_time);
                ("total_time", VInt (end_time - start_time));
                ("output_path", VStr output_path);
                ("final_video", VStr optimized_path);
                ("final_hash", VStr optimized_hash);
                ("tiktok_published", VBool publish);
                ("tiktok_result", result); ("metadata", metadata);
                ("download_url", VStr ("/api/download/" +:+ process_id))]) ;
     lift (log_completion (VDict final_report)) ;;
     update_process_status process_id "completed" 100 "Conversion terminée")
    (fun e =>
       try_pass (lift (on_audit_logger (Audit.log_error e))) ;;
       assign process_id (set_failed e)).

(** [convert_video] registers the process before the conversion starts. *)
Definition new_process (process_id : string) (now : Z) : process :=
  {| status := "initializing"; progress := 0; current_stage := "initialisation";
     started_at := now; output_dir := "data/output/" +:+ process_id;
     error := None |}.

End Web.

(** ** src/web/app.py: the status and results routes *)
Module Endpoints.
Import Py Runtime Os Web.

(** What a route answers: its return value, or an HTTPException. *)
Inductive answer (A : Type) : Type :=
  | Ok (body : A)
  | HTTPError (status_code : nat) (detail : string).
Arguments Ok {A} body.
Arguments HTTPError {A} status_code detail.

Definition status_code {A} (a : answer A) : nat :=
  match a with
  | Ok _ => 200%nat
  | HTTPError code _ => code
  end.

Record ConversionStatus : Type := mkStatus {
  cs_process_id : string;
  cs_status : string;
  cs_progress : Z;
  cs_current_stage : string;
  cs_started_at : Z;
  cs_elapsed_time : Z;
  cs_estimated_time_remaining : option QArith_base.Q;
  cs_error : option string
}.

(** [get_status] ([GET /api/status/{process_id}]); the estimate is the
    exact quotient. *)
Definition get_status (now : Z) (process_id : string)
    (active_processes : gmap string process) : answer ConversionStatus :=
  match active_processes !! process_id with
  | None => HTTPError 404 "Processus non trouvé"
  | Some process =>
      let elapsed_time := now - started_at process in
      Ok {| cs_process_id := process_id;
            cs_status := status process;
            cs_progress := progress process;
            cs_current_stage := current_stage process;
            cs_started_at := started_at process;
            cs_elapsed_time := elapsed_time;
            cs_estimated_time_remaining :=
              if (0 <? progress process) && (progress process <? 100) then
                Some (QArith_base.Qmult
                        (QArith_base.Qmake elapsed_time (Z.to_pos (progress process)))
                        (QArith_base.inject_Z (100 - progress process)))
              else None;
            cs_error := error process |}
  end.

Section Libraries.

(** [str(Path(directory) / name)] *)
Variable path_join : string -> string -> string.
(** [json.loads] of the text of a file that no [json.dump] of this program
    wrote. *)
Variable json_loads : list Z -> result value.
(** [str(e)] of an HTTPException. *)
Variable str_http : nat -> string -> string.

(** [with open(p, "r") as f: json.load(f)] *)
Definition json_load (fs : filesystem) (p : string) : result value :=
  match fs !! p with
  | Some (Document v) => Returned v
  | _ =>
      match read_bytes fs p with
      | Raised e => Raised e
      | Returned content => json_loads content
      end
  end.

(** [get_results] ([GET /api/results/{process_id}]) *)
Definition get_results (fs : filesystem) (process_id : string)
    (active_processes : gmap string process) : answer value :=
  match active_processes !! process_id with
  | None => HTTPError 404 "Processus non trouvé"
  | Some process =>
      if negb (String.eqb (status process) "completed") then
        HTTPError 400 "Conversion non terminée"
      else
        let report_file := path_join (output_dir process) "final_report.json" in
        match
          (if negb (path_exists fs report_file)
           then Raised (str_http 404 "Rapport non trouvé")
           else json_load fs report_file)
        with
        | Returned report => Ok report
        | Raised e =>
            HTTPError 500 ("Erreur lors de la récupération des résultats: " +:+ e)
        end
  end.

End Libraries.

End Endpoints.

(** ** src/optimization/viral_optimizer.py: the hashtags of the metadata *)
Module Viral.
Import Py Runtime.

(** [_load_trending_hashtags] *)
Definition trending_hashtags : list string :=
  ["fyp"; "foryoupage"; "viral"; "trending"; "tiktok"; "viralvideo";
   "foryou"; "explore"; "trending"; "comedy"; "funny"; "meme"; "challenge";
   "dance"; "music"; "song"; "duet"; "xyzbca"; "tiktokviral"; "trend";
   "trendingnow"; "viraltrend"; "creative"; "transformation"; "satisfying";
   "aesthetic"; "relaxing"; "motivation"; "inspiration"; "lifehack"].

Definition between (lo n hi : Z) : bool := (lo <=? n) && (n <=? hi).

(** [c.isalnum()] of a code point below 256. *)
Definition isalnum (c : ascii) : bool :=
  let n := PyText.code c in
  between 48 n 57 || between 65 n 90 || between 97 n 122
  || (n =? 170) || between 178 n 179 || (n =? 181) || between 185 n 186
  || between 188 n 190 || between 192 n 214 || between 216 n 246
  || between 248 n 255.

(** [c.lower()] of a code point below 256. *)
Definition lower_char (c : ascii) : ascii :=
  let n := PyText.code c in
  if between 65 n 90 || between 192 n 214 || between 216 n 222
  then ascii_of_N (Z.to_N (n + 32)) else c.

Fixpoint alnum_only (s : string) : string :=
  match s with
  | EmptyString => ""
  | String c s' => if isalnum c then String c (alnum_only s') else alnum_only s'
  end.

Fixpoint lower (s : string) : string :=
  match s with
  | EmptyString => ""
  | String c s' => String (lower_char c) (lower s')
  end.

(** [tag in tags] *)
Definition mem (tag : string) (tags : list string) : bool :=
  existsb (String.eqb tag) tags.

(** ["#" + "".join(c for c in keyword if c.isalnum()).lower()] *)
Definition keyword_hashtag (keyword : string) : string :=
  "#" +:+ lower (alnum_only keyword).

(** The loop over [original_keywords], on [relevant_hashtags]. *)
Fixpoint relevant (original_keywords relevant_hashtags : list string) : list string :=
  match original_keywords with
  | [] => relevant_hashtags
  | keyword :: rest =>
      let hashtag := keyword_hashtag keyword in
      relevant rest
        (if (1 <? String.length hashtag)%nat && negb (mem hashtag relevant_hashtags)
         then relevant_hashtags ++ [hashtag] else relevant_hashtags)
  end.

(** ["#" + tag if not tag.startswith("#") else tag] *)
Definition with_hash (tag : string) : string :=
  if String.prefix "#" tag then tag else "#" +:+ tag.

(** The loop over [hashtags], on [unique_hashtags]. *)
Fixpoint unique (hashtags unique_hashtags : list string) : list string :=
  match hashtags with
  | [] => unique_hashtags
  | tag :: rest =>
      unique rest (if mem tag unique_hashtags then unique_hashtags
                   else unique_hashtags ++ [tag])
  end.

(** [min(8, 15 - len(user_hashtags))] *)
Definition num_trending (user_hashtags : list string) : Z :=
  Z.min 8 (15 - Z.of_nat (length user_hashtags)).

(** [random.sample(population, k)]: a ValueError unless
    [0 <= k <= len(population)]; else [picked], the [k] items the generator
    takes from the population. *)
Definition sample (picked population : list string) (k : Z) : result (list string) :=
  if (k <? 0) || (Z.of_nat (length population) <? k)
  then Raised "Sample larger than population or is negative"
  else Returned picked.

(** [unique_hashtags] as [_generate_viral_metadata] computes it, from
    [self.config.hashtags] and [video_info["keywords"]]. *)
Definition viral_hashtags (picked user_hashtags original_keywords : list string)
  : result (list string) :=
  let relevant_hashtags := relevant original_keywords [] in
  match sample picked trending_hashtags (num_trending user_hashtags) with
  | Raised e => Raised e
  | Returned trending_selection =>
      Returned
        (unique (map with_hash user_hashtags
                 ++ take 5 relevant_hashtags
                 ++ map with_hash trending_selection) [])
  end.

End Viral.

(** * Known answers of the library embeddings *)
Module KnownAnswers.

(** Known answers: FIPS 180-4 "abc", the empty message, RFC 4231 case 2, and
    what CPython prints for [json.dumps(..., sort_keys=True)]. *)
Example sha256_abc :
  Py.hex (Sha256.sha256 (Py.utf8 "abc"))
  = "ba7816bf8f01cfea414140de5dae2223b00361a396177a9cb410ff61f20015ad".
Proof. vm_compute. reflexivity. Qed.

Example sha256_empty :
  Py.hex (Sha256.sha256 [])
  = "e3b0c44298fc1c149afbf4c8996fb92427ae41e4649b934ca495991b7852b855".
Proof. vm_compute. reflexivity. Qed.

Example sha256_two_blocks :
  Py.hex (Sha256.sha256
            (Py.utf8 "abcdbcdecdefdefgefghfghighijhijkijkljklmklmnlmnomnopnopq"))
  = "248d6a61d20638b8e5c026930c3e6039a33ce45964ff2167f6ecedd419db06c1".
Proof. vm_compute. reflexivity. Qed.

Example hmac_rfc4231_case2 :
  Py.hex (Hmac.hmac_sha256 (Py.utf8 "Jefe") (Py.utf8 "what do ya want for nothing?"))
  = "5bdcc146bf60754e6a042426089575c75a003f089d2739839dec58b964ec3843".
Proof. vm_compute. reflexivity. Qed.

Example json_dumps_list :
  Py.json_dumps (Py.VList [Py.VInt 1; Py.VBool true; Py.VNone; Py.VInt (-5)])
  = "[1, true, null, -5]".
Proof. vm_compute. reflexivity. Qed.

Example json_dumps_sorts_keys :
  Py.json_dumps (Py.VDict [("b", Py.VInt 2); ("a", Py.VList [])])
  = "{" +:+ Py.quote +:+ "a" +:+ Py.quote +:+ ": [], "
        +:+ Py.quote +:+ "b" +:+ Py.quote +:+ ": 2}".
Proof. vm_compute. reflexivity. Qed.

(** [chr(n)] as a one-character str. *)
Definition chr (n : N) : string := String (ascii_of_N n) "".

(** A dict whose str holds a quote, a backslash, a newline, a control
    character, DEL and e-acute: CPython prints its digest as below. *)
Example sha256_of_json_with_escapes :
  Py.hex (Sha256.sha256 (Py.utf8 (Py.json_dumps
    (Py.VDict
       [("b", Py.VList [Py.VInt 1; Py.VBool true; Py.VNone; Py.VInt (-5)]);
        ("a", Py.VStr ("x" +:+ chr 34 +:+ "y" +:+ chr 92 +:+ "z" +:+ chr 10
                       +:+ chr 1 +:+ chr 127 +:+ chr 233))]))))
  = "ace573e4bcafb5eefb24200a5c15bdf6cba624bbb1eb23dfadbddf55626ef1c6".
Proof. vm_compute. reflexivity. Qed.

(** A key with a character above 127 takes two bytes in UTF-8. *)
Example hmac_with_latin1_key :
  Py.hex (Hmac.hmac_sha256 (Py.utf8 ("cl" +:+ chr 233))
            (Py.utf8 (Py.json_dumps (Py.VStr "v"))))
  = "602a215a69fee29ced12905047c8ac5d9d4a39e814a43799f5bb861377783166".
Proof. vm_compute. reflexivity. Qed.

End KnownAnswers.

(** * Chain validation *)
Module IntegrityProofs.
Import Py Integrity.

(** A record that carries every required field. *)
Definition eligible (data : gmap string value) : Prop :=
  forallb (fun k => has_key k data) required_fields = true.

(** The outcome of the two optional checks on one record, given the
    [previous_hash] the loop holds when it reaches the record. *)
Definition hash_check (data : gmap string value) : value :=
  if has_key "data" data
  then VBool (py_eq (VStr (data_digest (item data "data"))) (item data "data_hash"))
  else VNone.

Definition link_check (previous_hash : value) (data : gmap string value) : value :=
  if negb (is_None previous_hash) && has_key "previous_hash" data
  then VBool (py_eq (item data "previous_hash") previous_hash)
  else VNone.

Definition checked_result (i : nat) (previous_hash : value)
    (data : gmap string value) : value :=
  VDict [("index", VInt (Z.of_nat i));
         ("stage", item data "stage");
         ("timestamp", item data "timestamp");
         ("hash_valid", hash_check data);
         ("prev_hash_valid", link_check previous_hash data);
         ("is_valid",
          VBool (is_not_False (hash_check data)
                 && is_not_False (link_check previous_hash data)))].

Definition incomplete_result (i : nat) : value :=
  VDict [("index", VInt (Z.of_nat i)); ("is_valid", VBool false);
         ("error", VStr "Champs manquants")].

Definition eligibleb (data : gmap string value) : bool :=
  forallb (fun k => has_key k data) required_fields.

Definition record_result (i : nat) (previous_hash : value)
    (data : gmap string value) : value :=
  if eligibleb data then checked_result i previous_hash data else incomplete_result i.

Definition next_hash (previous_hash : value) (data : gmap string value) : value :=
  if eligibleb data then item data "data_hash" else previous_hash.

(** A per-record result that says [is_valid: True]. *)
Definition marked_valid (r : value) : bool :=
  match result_is_valid r with Some (VBool true) => true | _ => false end.

Fixpoint expected_results (i : nat) (previous_hash : value)
    (chain : list (gmap string value)) : list value :=
  match chain with
  | [] => []
  | data :: rest =>
      record_result i previous_hash data
      :: expected_results (S i) (next_hash previous_hash data) rest
  end.

Lemma chain_step_spec i data st :
  cs_results (chain_step i data st)
    = cs_results st ++ [record_result i (cs_previous_hash st) data]
  /\ cs_previous_hash (chain_step i data st) = next_hash (cs_previous_hash st) data
  /\ cs_is_valid (chain_step i data st)
     = cs_is_valid st && marked_valid (record_result i (cs_previous_hash st) data).
Proof.
  unfold chain_step, record_result, next_hash, eligibleb.
  destruct (forallb _ required_fields) eqn:E; cbn [negb].
  - unfold checked_result, hash_check, link_check, generate_data_hash.
    destruct (has_key "data" data) eqn:Hd;
      destruct (negb (is_None (cs_previous_hash st)) && has_key "previous_hash" data) eqn:Hp;
      cbn -[py_eq data_digest item];
      repeat match goal with
             | |- context [py_eq ?a ?b] => destruct (py_eq a b)
             end;
      cbn; destruct (cs_is_valid st); auto.
  - cbn. rewrite andb_false_r. auto.
Qed.

Lemma chain_loop_spec chain : forall i st,
  cs_results (chain_loop i chain st)
    = cs_results st ++ expected_results i (cs_previous_hash st) chain
  /\ cs_is_valid (chain_loop i chain st)
     = cs_is_valid st
       && forallb marked_valid (expected_results i (cs_previous_hash st) chain).
Proof.
  induction chain as [|data rest IH]; intros i st; cbn [chain_loop expected_results forallb].
  - rewrite app_nil_r, andb_true_r. auto.
  - destruct (chain_step_spec i data st) as (Hr & Hp & Hv).
    destruct (IH (S i) (chain_step i data st)) as (IHr & IHv).
    rewrite IHr, IHv, Hr, Hp, Hv, <- app_assoc, andb_assoc. auto.
Qed.

(** The [previous_hash] the loop holds when it reaches record [j]. *)
Fixpoint hash_before (previous_hash : value) (chain : list (gmap string value))
    (j : nat) : value :=
  match chain, j with
  | data :: rest, S j' => hash_before (next_hash previous_hash data) rest j'
  | _, _ => previous_hash
  end.

Lemma expected_results_length chain : forall i p,
  length (expected_results i p chain) = length chain.
Proof. induction chain; intros; cbn; auto. Qed.

Lemma expected_results_lookup chain : forall i p j data,
  chain !! j = Some data ->
  expected_results i p chain !! j
    = Some (record_result (i + j) (hash_before p chain j) data).
Proof.
  induction chain as [|d rest IH]; intros i p j data Hj; [discriminate|].
  destruct j as [|j]; cbn in *.
  - injection Hj as ->. rewrite Nat.add_0_r. reflexivity.
  - rewrite (IH _ _ _ _ Hj). do 2 f_equal. lia.
Qed.

Lemma hash_before_eligible chain : forall p k prev,
  Forall eligible chain -> chain !! k = Some prev ->
  hash_before p chain (S k) = item prev "data_hash".
Proof.
  induction chain as [|d rest IH]; intros p k prev Hall Hk; [discriminate|].
  inversion Hall as [|? ? Hd Hrest]; subst.
  destruct k as [|k]; cbn in *.
  - injection Hk as ->. unfold next_hash, eligibleb. rewrite Hd.
    destruct rest; reflexivity.
  - apply IH; assumption.
Qed.

Lemma chain_results_spec chain self :
  chain_results chain self = expected_results 0 VNone chain.
Proof.
  unfold chain_results, chain_run.
  destruct (chain_loop_spec chain 0
              {| cs_self := self; cs_is_valid := true; cs_previous_hash := VNone;
                 cs_results := [] |}) as (Hr & _).
  exact Hr.
Qed.

Lemma validate_process_chain_spec chain self :
  chain <> [] ->
  fst (validate_process_chain chain self)
    = forallb marked_valid (chain_results chain self).
Proof.
  intros Hne. rewrite chain_results_spec.
  destruct chain as [|d rest]; [congruence|].
  unfold validate_process_chain, chain_run. cbn [fst].
  destruct (chain_loop_spec (d :: rest) 0
              {| cs_self := self; cs_is_valid := true; cs_previous_hash := VNone;
                 cs_results := [] |}) as (_ & Hv).
  exact Hv.
Qed.

(** What "all other fields consistent" asks of a record: an embedded payload
    hashes to the record's [data_hash], and a [previous_hash] that is checked
    equals the prior record's [data_hash]. *)
Definition hash_consistent (data : gmap string value) : Prop :=
  has_key "data" data = true ->
  py_eq (VStr (data_digest (item data "data"))) (item data "data_hash") = true.

Definition link_consistent (prev data : gmap string value) : Prop :=
  has_key "previous_hash" data = true ->
  is_None (item prev "data_hash") = false ->
  py_eq (item data "previous_hash") (item prev "data_hash") = true.

Lemma hash_check_consistent data :
  hash_consistent data -> is_not_False (hash_check data) = true.
Proof.
  unfold hash_consistent, hash_check. intros H.
  destruct (has_key "data" data); [rewrite H|]; reflexivity.
Qed.

Lemma link_check_consistent prev data :
  link_consistent prev data ->
  is_not_False (link_check (item prev "data_hash") data) = true.
Proof.
  unfold link_consistent, link_check. intros H.
  destruct (is_None (item prev "data_hash")); cbn; [reflexivity|].
  destruct (has_key "previous_hash" data); [rewrite H|]; reflexivity.
Qed.

Lemma result_is_valid_checked i p data :
  result_is_valid (checked_result i p data)
    = Some (VBool (is_not_False (hash_check data) && is_not_False (link_check p data))).
Proof. reflexivity. Qed.

(** C1 (amended): in a chain whose records all carry the required fields, if
    record [S k] has a [previous_hash] that differs from the [data_hash] of
    record [k] (itself not None) and every other check is consistent, then
    [validate_process_chain] returns false, one result is recorded per
    record, and exactly record [S k] is marked invalid: every record before
    it and every record after it is marked valid. *)
Theorem broken_link_marks_that_record (self : IntegrityValidator)
    (chain : list (gmap string value)) (k : nat) (prev data : gmap string value) :
  Forall eligible chain ->
  chain !! k = Some prev ->
  chain !! (S k) = Some data ->
  is_None (item prev "data_hash") = false ->
  has_key "previous_hash" data = true ->
  py_eq (item data "previous_hash") (item prev "data_hash") = false ->
  (forall j d, chain !! j = Some d -> hash_consistent d) ->
  (forall j p d, j <> k -> chain !! j = Some p -> chain !! (S j) = Some d ->
                 link_consistent p d) ->
  fst (validate_process_chain chain self) = false
  /\ length (chain_results chain self) = length chain
  /\ forall j r, chain_results chain self !! j = Some r ->
       result_is_valid r = Some (VBool (negb (Nat.eqb j (S k)))).
Proof.
  intros Hall Hprev Hdata Hsome Hkey Hneq Hhash Hlink.
  assert (Hres : forall j r, chain_results chain self !! j = Some r ->
            result_is_valid r = Some (VBool (negb (Nat.eqb j (S k))))).
  { intros j r Hj. rewrite chain_results_spec in Hj.
    assert (Hlt : (j < length chain)%nat).
    { apply lookup_lt_Some in Hj. rewrite expected_results_length in Hj. exact Hj. }
    destruct (lookup_lt_is_Some_2 chain j Hlt) as [d Hd].
    rewrite (expected_results_lookup _ _ _ _ _ Hd) in Hj. injection Hj as <-.
    assert (Hel : eligibleb d = true).
    { rewrite Forall_forall in Hall. apply Hall. eapply list_elem_of_lookup_2; eauto. }
    unfold record_result. rewrite Hel, result_is_valid_checked.
    rewrite (hash_check_consistent d (Hhash j d Hd)). cbn [andb Nat.add].
    destruct j as [|j].
    - destruct chain; reflexivity.
    - assert (Hlt' : (j < length chain)%nat) by lia.
      destruct (lookup_lt_is_Some_2 chain j Hlt') as [p Hp].
      rewrite (hash_before_eligible chain VNone j p Hall Hp).
      destruct (Nat.eqb_spec (S j) (S k)) as [E|E].
      + injection E as ->. rewrite Hprev in Hp; injection Hp as <-.
        rewrite Hdata in Hd; injection Hd as <-.
        unfold link_check. rewrite Hsome, Hkey, Hneq. reflexivity.
      + rewrite (link_check_consistent p d); [reflexivity|].
        apply (Hlink j p d); [congruence | assumption | assumption]. }
  split; [|split].
  - rewrite validate_process_chain_spec by (intros ->; discriminate).
    apply not_true_is_false. intros Hall'.
    rewrite forallb_forall in Hall'.
    assert (Hlt : (S k < length (chain_results chain self))%nat).
    { rewrite chain_results_spec, expected_results_length.
      apply lookup_lt_Some in Hdata. exact Hdata. }
    destruct (lookup_lt_is_Some_2 _ _ Hlt) as [r Hr].
    specialize (Hall' r). specialize (Hres _ _ Hr).
    rewrite Nat.eqb_refl in Hres. unfold marked_valid in Hall'. rewrite Hres in Hall'.
    assert (In r (chain_results chain self)).
    { apply list_elem_of_In. eapply list_elem_of_lookup_2; eauto. }
    specialize (Hall' H). discriminate.
  - rewrite chain_results_spec. apply expected_results_length.
  - exact Hres.
Qed.

(** A chain record with the required fields, a [data_hash], and a
    [previous_hash] when one is given. *)
Definition sample_record (stage : string) (data_hash : value)
    (previous_hash : option value) : gmap string value :=
  let r := <["stage" := VStr stage]>
             (<["timestamp" := VInt 1700000000]> (<["data_hash" := data_hash]> ∅)) in
  match previous_hash with
  | Some h => <["previous_hash" := h]> r
  | None => r
  end.

(** Three linked records; the second one's [previous_hash] is wrong. *)
Definition tampered_chain : list (gmap string value) :=
  [ sample_record "acquisition" (VStr "h0") None;
    sample_record "analysis" (VStr "h1") (Some (VStr "bad"));
    sample_record "editing" (VStr "h2") (Some (VStr "h1")) ].

(** The prior record carries [data_hash: None]. *)
Definition null_hash_chain : list (gmap string value) :=
  [ sample_record "acquisition" VNone None;
    sample_record "analysis" (VStr "h1") (Some (VStr "bad")) ].

(** One record with neither a payload nor a [previous_hash]. *)
Definition unchecked_chain : list (gmap string value) :=
  [ sample_record "acquisition" (VStr "h0") None ].

(** C1, as stated, fails: in a three-record chain whose record 1 carries a
    wrong [previous_hash], the call returns false and record 1 is marked
    invalid, but record 2 (index >= 1) is marked valid; and when the prior
    record's [data_hash] is None the wrong [previous_hash] is not compared at
    all and the chain is reported valid. *)
Lemma later_record_stays_valid :
  Forall eligible tampered_chain
  /\ (tampered_chain !! 1%nat ≫= (fun d => d !! "previous_hash")) = Some (VStr "bad")
  /\ (tampered_chain !! 0%nat ≫= (fun d => d !! "data_hash")) = Some (VStr "h0")
  /\ fst (validate_process_chain tampered_chain (init "p1")) = false
  /\ (chain_results tampered_chain (init "p1") !! 1%nat ≫= result_is_valid)
     = Some (VBool false)
  /\ (chain_results tampered_chain (init "p1") !! 2%nat ≫= result_is_valid)
     = Some (VBool true)
  /\ fst (validate_process_chain null_hash_chain (init "p1")) = true.
Proof.
  split; [repeat constructor|].
  repeat split; vm_compute; reflexivity.
Qed.

(** The theorem at [tampered_chain], whose record 1 is the broken one. *)
Lemma broken_link_marks_that_record_witness :
  fst (validate_process_chain tampered_chain (init "p1")) = false
  /\ length (chain_results tampered_chain (init "p1")) = length tampered_chain
  /\ forall j r, chain_results tampered_chain (init "p1") !! j = Some r ->
       result_is_valid r = Some (VBool (negb (Nat.eqb j 1))).
Proof.
  apply (broken_link_marks_that_record (init "p1") tampered_chain 0
           (sample_record "acquisition" (VStr "h0") None)
           (sample_record "analysis" (VStr "h1") (Some (VStr "bad")))).
  - repeat constructor.
  - reflexivity.
  - reflexivity.
  - reflexivity.
  - vm_compute. reflexivity.
  - vm_compute. reflexivity.
  - intros j d Hj Hdata.
    destruct j as [|[|[|j]]]; cbn in Hj; try discriminate;
      injection Hj as <-; vm_compute in Hdata; discriminate.
  - intros j p d Hne Hp Hd Hkey Hsome.
    destruct j as [|[|[|j]]]; cbn in Hp, Hd; try discriminate; try congruence.
    injection Hp as <-. injection Hd as <-. vm_compute. reflexivity.
Defined.

(** C2 (amended): for an eligible record, an absent payload leaves
    [hash_valid] at None and an absent [previous_hash] leaves
    [prev_hash_valid] at None; the record's [is_valid] is true exactly when
    neither check is False, so a record with both checks absent is recorded
    valid (the first record's [prev_hash_valid] is None as well, there being
    no prior hash); and the returned flag is the conjunction of the per-record
    [is_valid] flags, which an absent check never turns false. *)
Theorem absent_check_is_none_and_does_not_fail (self : IntegrityValidator)
    (chain : list (gmap string value)) (j : nat) (data : gmap string value)
    (r : value) :
  chain !! j = Some data ->
  eligible data ->
  chain_results chain self !! j = Some r ->
  (has_key "data" data = false -> result_field "hash_valid" r = Some VNone)
  /\ (has_key "previous_hash" data = false ->
      result_field "prev_hash_valid" r = Some VNone)
  /\ (j = 0%nat -> result_field "prev_hash_valid" r = Some VNone)
  /\ (exists hv pv,
        result_field "hash_valid" r = Some hv
        /\ result_field "prev_hash_valid" r = Some pv
        /\ result_is_valid r = Some (VBool (is_not_False hv && is_not_False pv)))
  /\ (has_key "data" data = false -> has_key "previous_hash" data = false ->
      result_is_valid r = Some (VBool true))
  /\ fst (validate_process_chain chain self)
     = forallb marked_valid (chain_results chain self).
Proof.
  intros Hd Hel Hr.
  rewrite chain_results_spec, (expected_results_lookup _ _ _ _ _ Hd) in Hr.
  injection Hr as <-.
  unfold record_result, eligibleb. rewrite Hel.
  assert (Hlink : has_key "previous_hash" data = false ->
                  link_check (hash_before VNone chain j) data = VNone).
  { intros H. unfold link_check. rewrite H, andb_false_r. reflexivity. }
  assert (Hhash : has_key "data" data = false -> hash_check data = VNone).
  { intros H. unfold hash_check. rewrite H. reflexivity. }
  repeat split.
  - intros H. cbn. f_equal. auto.
  - intros H. cbn. f_equal. auto.
  - intros ->. destruct chain; reflexivity.
  - eexists _, _. repeat split.
  - intros H1 H2. rewrite result_is_valid_checked, Hhash, Hlink by assumption.
    reflexivity.
  - apply validate_process_chain_spec. intros ->. discriminate.
Qed.

(** The theorem at [unchecked_chain]: its only record has no payload. *)
Lemma absent_check_is_none_and_does_not_fail_witness :
  result_is_valid
    (VDict [("index", VInt 0); ("stage", VStr "acquisition");
            ("timestamp", VInt 1700000000); ("hash_valid", VNone);
            ("prev_hash_valid", VNone); ("is_valid", VBool true)])
  = Some (VBool true).
Proof.
  refine (proj1 (proj2 (proj2 (proj2 (proj2
            (absent_check_is_none_and_does_not_fail (init "p1") unchecked_chain 0
               (sample_record "acquisition" (VStr "h0") None) _ _ _ _))))) _ _);
    vm_compute; reflexivity.
Defined.

(** C2, as stated, fails: a record with neither a payload nor a
    [previous_hash] is recorded with [is_valid: True], the chain is reported
    valid, and the report counts the validation as successful. *)
Lemma unchecked_record_counts_as_valid :
  (unchecked_chain !! 0%nat ≫= (fun d => d !! "data")) = None
  /\ (unchecked_chain !! 0%nat ≫= (fun d => d !! "previous_hash")) = None
  /\ (chain_results unchecked_chain (init "p1") !! 0%nat ≫= result_is_valid)
     = Some (VBool true)
  /\ fst (validate_process_chain unchecked_chain (init "p1")) = true
  /\ statistics (snd (validate_process_chain unchecked_chain (init "p1"))) = (1, 1)%nat.
Proof. repeat split; vm_compute; reflexivity. Qed.

(** C10: [validate_process_chain] on the empty list returns false (and
    records nothing). *)
Theorem empty_chain_is_invalid (self : IntegrityValidator) :
  validate_process_chain [] self = (false, self).
Proof. reflexivity. Qed.

End IntegrityProofs.

(** * Keyed signatures *)
Module SignatureProofs.
Import Py Integrity.

Definition is_byte (b : Z) : Prop := 0 <= b < 256.

Lemma hex_digit_ascii n :
  0 <= n < 16 -> (Z.of_N (N_of_ascii (hex_digit n)) <? 128) = true.
Proof.
  intros Hn. rewrite <- (Z2Nat.id n) by lia.
  assert (Hm : (Z.to_nat n < 16)%nat) by lia.
  revert Hm. generalize (Z.to_nat n) as m. intros m Hm.
  do 16 (destruct m as [|m]; [reflexivity|]). lia.
Qed.

Lemma is_ascii_hex bs : Forall is_byte bs -> is_ascii (hex bs) = true.
Proof.
  induction 1 as [|b bs Hb _ IH]; [reflexivity|].
  unfold is_byte in Hb. cbn [hex is_ascii].
  rewrite !hex_digit_ascii, IH; [reflexivity| |].
  - apply Z.mod_pos_bound. lia.
  - split; [apply Z.div_pos; lia | apply Z.div_lt_upper_bound; lia].
Qed.

Lemma be_bytes_are_bytes n x : Forall is_byte (Sha256.be_bytes n x).
Proof.
  induction n as [|n IH]; cbn [Sha256.be_bytes]; constructor; [|exact IH].
  apply Z.mod_pos_bound. lia.
Qed.

Lemma sha256_bytes msg : Forall is_byte (Sha256.sha256 msg).
Proof.
  unfold Sha256.sha256.
  generalize (Sha256.blocks (length (Sha256.pad msg)) Sha256.H0 (Sha256.pad msg)).
  intros ws. induction ws as [|w ws IH]; cbn [flat_map]; [constructor|].
  apply Forall_app. split; [apply be_bytes_are_bytes | exact IH].
Qed.

Lemma hmac_hex_ascii key json_data : is_ascii (hmac_hex key json_data) = true.
Proof. apply is_ascii_hex. unfold Hmac.hmac_sha256. apply sha256_bytes. Qed.

Lemma signature_value data key self :
  fst (create_integrity_signature data key self) = hmac_hex key (json_dumps data).
Proof. reflexivity. Qed.

Lemma verify_spec data signature key self :
  fst (verify_integrity_signature data signature key self)
  = match compare_digest (hmac_hex key (json_dumps data)) signature with
    | Some b => b
    | None => false
    end.
Proof.
  unfold verify_integrity_signature, create_integrity_signature.
  destruct (compare_digest _ signature); reflexivity.
Qed.

(** C9 (amended): for every value and key, the signature
    [create_integrity_signature] returns verifies under the same value and
    key, and every other signature string is rejected. *)
Theorem own_signature_verifies_and_no_other (self self' : IntegrityValidator)
    (data : value) (secret_key : string) :
  fst (verify_integrity_signature data
         (fst (create_integrity_signature data secret_key self)) secret_key self')
    = true
  /\ forall signature,
       signature <> fst (create_integrity_signature data secret_key self) ->
       fst (verify_integrity_signature data signature secret_key self') = false.
Proof.
  rewrite signature_value. split.
  - rewrite verify_spec. unfold compare_digest.
    rewrite hmac_hex_ascii, String.eqb_refl. reflexivity.
  - intros signature Hne. rewrite verify_spec. unfold compare_digest.
    rewrite hmac_hex_ascii. cbn [andb].
    destruct (is_ascii signature); [|reflexivity].
    apply String.eqb_neq. congruence.
Qed.

Definition nul : string := String (ascii_of_N 0) "".

(** The theorem at the value ["v"], the key ["abc"] and the signature
    ["00"]. *)
Lemma own_signature_verifies_and_no_other_witness :
  fst (verify_integrity_signature (VStr "v") "00" "abc" (init "p1")) = false.
Proof.
  apply (proj2 (own_signature_verifies_and_no_other (init "p1") (init "p1")
                  (VStr "v") "abc") "00").
  vm_compute. discriminate.
Defined.

(** C9, as stated, fails: HMAC pads a short key with zero bytes, so the key
    ["abc"] followed by a NUL character verifies what ["abc"] signed. *)
Lemma zero_padded_key_verifies :
  "abc" <> "abc" +:+ nul
  /\ fst (verify_integrity_signature (VStr "v")
            (fst (create_integrity_signature (VStr "v") "abc" (init "p1")))
            ("abc" +:+ nul) (init "p1")) = true.
Proof. split; [discriminate | vm_compute; reflexivity]. Qed.

Lemma block_key_zero_padded key :
  (length key < Hmac.block_size)%nat ->
  Hmac.block_key (key ++ [0]) = Hmac.block_key key.
Proof.
  unfold Hmac.block_key, Hmac.block_size. intros Hlen. cbv zeta.
  assert (Hl : length (key ++ [0]) = S (length key)).
  { rewrite length_app. cbn. lia. }
  destruct (Nat.ltb_spec 64 (length (key ++ [0]))); [lia|].
  destruct (Nat.ltb_spec 64 (length key)); [lia|].
  rewrite Hl, <- app_assoc. f_equal.
  replace (64 - length key)%nat with (S (64 - S (length key))) by lia.
  reflexivity.
Qed.

Lemma utf8_nul key : utf8 (key +:+ nul) = utf8 key ++ [0].
Proof.
  induction key as [|c key IH]; [reflexivity|].
  simpl. rewrite IH, app_assoc. reflexivity.
Qed.

(** A key shorter than the hash block and the same key followed by NUL
    sign every value alike. *)
Lemma nul_suffix_signs_alike data key self :
  (length (utf8 key) < Hmac.block_size)%nat ->
  fst (create_integrity_signature data (key +:+ nul) self)
  = fst (create_integrity_signature data key self).
Proof.
  intros Hlen. rewrite !signature_value. unfold hmac_hex, Hmac.hmac_sha256.
  rewrite utf8_nul, block_key_zero_padded by exact Hlen. reflexivity.
Qed.

End SignatureProofs.

(** * The queue lease *)
Module LeaseProofs.
Import Worker.

Definition pending (t : task) : Prop := status t = "pending".

(** [t] is first in the lease order among the pending tasks of [store]. *)
Definition first_in_order (t : task) (store : list task) : Prop :=
  forall t', t' ∈ store -> pending t' ->
    priority t' <= priority t
    /\ (priority t' = priority t -> created_at t <= created_at t').

Lemma sorts_before_false a b :
  sorts_before a b = false <->
  priority a <= priority b /\ (priority a = priority b -> created_at b <= created_at a).
Proof.
  unfold sorts_before.
  destruct (Z.ltb_spec (priority b) (priority a));
    destruct (Z.eqb_spec (priority a) (priority b));
    destruct (Z.ltb_spec (created_at a) (created_at b)); cbn; split;
    try discriminate; try lia; auto.
Qed.

Lemma sorts_before_true a b :
  sorts_before a b = true ->
  priority b <= priority a /\ (priority b = priority a -> created_at a <= created_at b).
Proof.
  unfold sorts_before.
  destruct (Z.ltb_spec (priority b) (priority a));
    destruct (Z.eqb_spec (priority a) (priority b));
    destruct (Z.ltb_spec (created_at a) (created_at b)); cbn;
    try discriminate; lia.
Qed.

Lemma status_eqb_pending t : String.eqb (status t) "pending" = true <-> pending t.
Proof. apply String.eqb_eq. Qed.

Lemma find_one_None store : forall i,
  find_one i store = None <-> (forall t, t ∈ store -> ~ pending t).
Proof.
  induction store as [|d rest IH]; intros i; cbn [find_one].
  - split; [|reflexivity]. intros _ t Hin. inversion Hin.
  - destruct (String.eqb (status d) "pending") eqn:Ed.
    + split.
      * destruct (find_one (S i) rest) as [[? ?]|];
          [destruct (sorts_before _ _)|]; discriminate.
      * intros H. exfalso. apply (H d); [left|]. apply status_eqb_pending; exact Ed.
    + rewrite IH. split.
      * intros H t Hin. apply elem_of_cons in Hin as [->|Hin]; [|auto].
        intros Hp. apply status_eqb_pending in Hp. congruence.
      * intros H t Hin. apply H. right. exact Hin.
Qed.

Lemma find_one_Some store : forall i j t,
  find_one i store = Some (j, t) ->
  (i <= j)%nat /\ store !! (j - i)%nat = Some t /\ pending t /\ first_in_order t store.
Proof.
  induction store as [|d rest IH]; intros i j t Hf; [discriminate|].
  cbn [find_one] in Hf.
  destruct (String.eqb (status d) "pending") eqn:Ed.
  - apply status_eqb_pending in Ed.
    destruct (find_one (S i) rest) as [[j' b]|] eqn:Er.
    + destruct (IH _ _ _ Er) as (Hle & Hlk & Hpb & Hfirst).
      destruct (sorts_before b d) eqn:Es; injection Hf as <- <-.
      * split; [lia|]. split.
        { replace (j' - i)%nat with (S (j' - S i)) by lia. exact Hlk. }
        split; [exact Hpb|].
        intros t' Hin Hp. apply elem_of_cons in Hin as [->|Hin].
        -- apply sorts_before_true; exact Es.
        -- apply Hfirst; assumption.
      * split; [lia|]. split; [rewrite Nat.sub_diag; reflexivity|].
        split; [exact Ed|].
        intros t' Hin Hp. apply elem_of_cons in Hin as [->|Hin]; [lia|].
        apply sorts_before_false in Es.
        destruct (Hfirst t' Hin Hp). lia.
    + injection Hf as <- <-. split; [lia|].
      split; [rewrite Nat.sub_diag; reflexivity|]. split; [exact Ed|].
      intros t' Hin Hp. apply elem_of_cons in Hin as [->|Hin]; [lia|].
      exfalso. exact (proj1 (find_one_None rest (S i)) Er t' Hin Hp).
  - destruct (IH _ _ _ Hf) as (Hle & Hlk & Hpb & Hfirst).
    split; [lia|]. split.
    { replace (j - i)%nat with (S (j - S i)) by lia. exact Hlk. }
    split; [exact Hpb|].
    intros t' Hin Hp. apply elem_of_cons in Hin as [->|Hin].
    + apply status_eqb_pending in Hp. congruence.
    + apply Hfirst; assumption.
Qed.

(** C4: the lease returns a pending task of the store that no pending task
    beats on priority, nor, at equal priority, on age; it returns nothing only
    when no task is pending.  In particular, of two pending tasks the one
    with the higher priority is returned first, whichever was created or
    stored first. *)
Theorem lease_takes_highest_priority_then_oldest :
  (forall (now pid : Z) (store : list task),
      match fst (find_one_and_update now pid store) with
      | Some t => t ∈ store /\ pending t /\ first_in_order t store
      | None => forall t, t ∈ store -> ~ pending t
      end)
  /\ (forall (now pid : Z) (a b : task),
        pending a -> pending b -> priority b < priority a ->
        fst (find_one_and_update now pid [b; a]) = Some a
        /\ fst (find_one_and_update now pid [a; b]) = Some a).
Proof.
  assert (Hsel : forall (now pid : Z) (store : list task),
      match fst (find_one_and_update now pid store) with
      | Some t => t ∈ store /\ pending t /\ first_in_order t store
      | None => forall t, t ∈ store -> ~ pending t
      end).
  { intros now pid store. unfold find_one_and_update.
    destruct (find_one 0 store) as [[i t]|] eqn:E; cbn [fst].
    - destruct (find_one_Some _ _ _ _ E) as (_ & Hlk & Hp & Hfirst).
      split; [|split]; [|exact Hp|exact Hfirst].
      eapply list_elem_of_lookup_2. exact Hlk.
    - apply (find_one_None store 0). exact E. }
  split; [exact Hsel|].
  assert (Hpick : forall now pid a b l,
            pending a -> priority b < priority a ->
            a ∈ l -> (forall t, t ∈ l -> t = a \/ t = b) ->
            fst (find_one_and_update now pid l) = Some a).
  { intros now pid a b l Ha Hlt Hin Hl. specialize (Hsel now pid l).
    destruct (fst (find_one_and_update now pid l)) as [t|].
    - destruct Hsel as (Ht & _ & Hfirst).
      destruct (Hl t Ht) as [->| ->]; [reflexivity|].
      destruct (Hfirst a Hin Ha). lia.
    - exfalso. exact (Hsel a Hin Ha). }
  intros now pid a b Ha Hb Hlt. split; apply (Hpick now pid a b); auto.
  - right. left.
  - intros t Ht. apply elem_of_cons in Ht as [->|Ht]; [right; reflexivity|].
    apply list_elem_of_singleton in Ht. left. exact Ht.
  - left.
  - intros t Ht. apply elem_of_cons in Ht as [->|Ht]; [left; reflexivity|].
    apply list_elem_of_singleton in Ht. right. exact Ht.
Qed.

Definition sample_parameters : parameters :=
  {| url := "https://youtu.be/x"; audio_quality := "high"; video_quality := "high";
     publish := false; hashtags := [] |}.

(** Task A: priority 5, created later; task B: priority 1, created earlier. *)
Definition task_A : task := new_task "task_A" sample_parameters 5 200.
Definition task_B : task := new_task "task_B" sample_parameters 1 100.

Example lease_returns_A_first :
  fst (find_one_and_update 300 1 [task_B; task_A]) = Some task_A
  /\ fst (find_one_and_update 300 1 [task_A; task_B]) = Some task_A
  /\ fst (find_one_and_update 301 2 (snd (find_one_and_update 300 1 [task_B; task_A])))
     = Some task_B.
Proof. repeat split. Qed.

(** *** Workers racing on the store *)

(** The store and, for every task handed out so far, the worker that got it. *)
Record system : Type := mkSystem {
  store : list task;
  leases : list (Z * string)
}.

(** The statuses [update_task_status] is called with. *)
Definition reported (status' : string) : Prop :=
  status' = "processing" \/ status' = "completed" \/ status' = "failed".

(** One atomic operation on the store by some process: a worker's lease, a
    status update, a shutdown marking a task interrupted, a submission. *)
Inductive step : system -> system -> Prop :=
  | step_lease now pid s :
      step s
        (match find_one_and_update now pid (store s) with
         | (Some t, store') =>
             {| store := store'; leases := leases s ++ [(pid, _id t)] |}
         | (None, store') => {| store := store'; leases := leases s |}
         end)
  | step_update task_id status' progress' message' now s :
      reported status' ->
      step s {| store := update_one task_id
                           (set_status status' progress' message' now) (store s);
                leases := leases s |}
  | step_interrupt task_id now s :
      step s {| store := update_one task_id (set_interrupted now) (store s);
                leases := leases s |}
  | step_create process_id' p priority' now s :
      step s {| store := default (store s)
                           (create_task process_id' p priority' now (store s));
                leases := leases s |}.

Definition ids (l : list task) : list string := map _id l.

Record invariant (s : system) : Prop := mkInvariant {
  inv_ids : NoDup (ids (store s));
  inv_leases : NoDup (map snd (leases s));
  inv_known : forall id, id ∈ map snd (leases s) -> id ∈ ids (store s);
  inv_taken : forall id t, id ∈ map snd (leases s) -> t ∈ store s ->
                           _id t = id -> ~ pending t
}.

Lemma ids_update_one id f l :
  (forall t, _id (f t) = _id t) -> ids (update_one id f l) = ids l.
Proof.
  intros Hf. unfold ids. induction l as [|t l IH]; [reflexivity|].
  cbn [update_one]. destruct (String.eqb (_id t) id); cbn [map];
    [rewrite Hf|rewrite IH]; reflexivity.
Qed.

Lemma elem_of_update_one id f l t :
  t ∈ update_one id f l -> t ∈ l \/ exists t0, t0 ∈ l /\ t = f t0.
Proof.
  induction l as [|d l IH]; cbn [update_one]; [intros H; inversion H|].
  destruct (String.eqb (_id d) id).
  - intros H. apply elem_of_cons in H as [->|H].
    + right. exists d. split; [left|reflexivity].
    + left. right. exact H.
  - intros H. apply elem_of_cons in H as [->|H]; [left; left|].
    destruct (IH H) as [H'|(t0 & H0 & ->)]; [left; right; exact H'|].
    right. exists t0. split; [right; exact H0|reflexivity].
Qed.

Lemma invariant_update id f s :
  (forall t, _id (f t) = _id t) ->
  (forall t, ~ pending (f t)) ->
  invariant s ->
  invariant {| store := update_one id f (store s); leases := leases s |}.
Proof.
  intros Hid Hnp [H1 H2 H3 H4]. constructor; cbn [store leases].
  - rewrite ids_update_one by exact Hid. exact H1.
  - exact H2.
  - rewrite ids_update_one by exact Hid. exact H3.
  - intros i t Hi Ht Heq.
    destruct (elem_of_update_one _ _ _ _ Ht) as [Ht'|(t0 & _ & ->)].
    + eapply H4; eauto.
    + apply Hnp.
Qed.

Lemma ids_insert i t t' (l : list task) :
  l !! i = Some t -> _id t' = _id t -> ids (<[i := t']> l) = ids l.
Proof.
  intros Hl Hid. unfold ids. rewrite list_fmap_insert.
  apply list_insert_id. rewrite list_lookup_fmap, Hl. cbn. congruence.
Qed.

Lemma invariant_lease now pid s :
  invariant s ->
  invariant (match find_one_and_update now pid (store s) with
             | (Some t, store') =>
                 {| store := store'; leases := leases s ++ [(pid, _id t)] |}
             | (None, store') => {| store := store'; leases := leases s |}
             end).
Proof.
  intros [H1 H2 H3 H4]. unfold find_one_and_update.
  destruct (find_one 0 (store s)) as [[i t]|] eqn:E.
  2:{ destruct s; constructor; assumption. }
  destruct (find_one_Some _ _ _ _ E) as (_ & Hlk & Hp & _).
  rewrite Nat.sub_0_r in Hlk.
  assert (Hin : t ∈ store s) by (eapply list_elem_of_lookup_2; eauto).
  assert (Hfresh : _id t ∉ map snd (leases s)).
  { intros Hl. exact (H4 _ t Hl Hin eq_refl Hp). }
  assert (Hids : ids (<[i := set_processing now pid t]> (store s)) = ids (store s)).
  { apply (ids_insert i t); [exact Hlk|reflexivity]. }
  constructor; cbn [store leases].
  - rewrite Hids. exact H1.
  - rewrite map_app. cbn. apply NoDup_app. split; [exact H2|]. split.
    + intros x Hx Hx'. apply list_elem_of_singleton in Hx'. subst x. auto.
    + apply NoDup_singleton.
  - intros id Hid. rewrite Hids. rewrite map_app in Hid. cbn in Hid.
    apply elem_of_app in Hid as [Hid|Hid]; [auto|].
    apply list_elem_of_singleton in Hid. subst id.
    unfold ids. apply list_elem_of_fmap. exists t. auto.
  - intros id t' Hid Ht' Heq Hp'.
    apply list_elem_of_lookup in Ht' as [j Hj].
    destruct (decide (j = i)) as [->|Hne].
    + rewrite list_lookup_insert_eq in Hj by (eapply lookup_lt_Some; eauto).
      injection Hj as <-. discriminate Hp'.
    + rewrite list_lookup_insert_ne in Hj by congruence.
      rewrite map_app in Hid. cbn in Hid.
      apply elem_of_app in Hid as [Hid|Hid].
      * exact (H4 id t' Hid (list_elem_of_lookup_2 _ _ _ Hj) Heq Hp').
      * apply list_elem_of_singleton in Hid. subst id.
        (* the same [_id] at two positions of a store without duplicates *)
        assert (Hi : ids (store s) !! i = Some (_id t)).
        { unfold ids. rewrite list_lookup_fmap, Hlk. reflexivity. }
        assert (Hj' : ids (store s) !! j = Some (_id t)).
        { unfold ids. rewrite list_lookup_fmap, Hj. cbn. congruence. }
        apply Hne. exact (NoDup_lookup _ _ _ _ H1 Hj' Hi).
Qed.

Lemma invariant_create process_id' p priority' now s :
  invariant s ->
  invariant {| store := default (store s)
                          (create_task process_id' p priority' now (store s));
               leases := leases s |}.
Proof.
  intros Hinv. unfold create_task, insert_one.
  destruct (existsb _ (store s)) eqn:E; unfold default; cbn [from_option id].
  { destruct s, Hinv; constructor; assumption. }
  destruct Hinv as [H1 H2 H3 H4].
  assert (Hfresh : process_id' ∉ ids (store s)).
  { intros Hin. unfold ids in Hin. apply list_elem_of_fmap in Hin as (t & Ht & Hin).
    apply not_true_iff_false in E. apply E. apply existsb_exists.
    exists t. split; [apply list_elem_of_In; exact Hin|].
    cbn. apply String.eqb_eq. congruence. }
  constructor; cbn [store leases].
  - unfold ids. rewrite map_app. cbn. apply NoDup_app. split; [exact H1|]. split.
    + intros x Hx. rewrite list_elem_of_singleton. intros ->. auto.
    + apply NoDup_singleton.
  - exact H2.
  - intros id Hid. unfold ids. rewrite map_app. apply elem_of_app. left. auto.
  - intros id t Hid Ht Heq. apply elem_of_app in Ht as [Ht|Ht].
    + eapply H4; eauto.
    + apply list_elem_of_singleton in Ht. subst t. cbn in Heq. subst id.
      exfalso. apply Hfresh. apply H3. exact Hid.
Qed.

Lemma invariant_step s s' : step s s' -> invariant s -> invariant s'.
Proof.
  intros Hstep Hinv. destruct Hstep.
  - apply invariant_lease. exact Hinv.
  - apply invariant_update; [reflexivity| |exact Hinv].
    intros t Hp. unfold pending in Hp. cbn in Hp.
    destruct H as [->|[->| ->]]; discriminate.
  - apply invariant_update; [reflexivity| |exact Hinv].
    intros t Hp. discriminate Hp.
  - apply invariant_create. exact Hinv.
Qed.

Lemma invariant_reachable s s' : rtc step s s' -> invariant s -> invariant s'.
Proof. induction 1; eauto using invariant_step. Qed.

(** [t] is the one pending task of the store. *)
Definition only_pending (t : task) (l : list task) : Prop :=
  exists i, l !! i = Some t /\ pending t
            /\ forall j t', l !! j = Some t' -> pending t' -> j = i.

Lemma lease_of_only_pending now pid l t :
  only_pending t l ->
  fst (find_one_and_update now pid l) = Some t
  /\ forall t', t' ∈ snd (find_one_and_update now pid l) -> ~ pending t'.
Proof.
  intros (i & Hi & Hp & Honly). unfold find_one_and_update.
  destruct (find_one 0 l) as [[i' t0]|] eqn:E.
  2:{ exfalso. apply (proj1 (find_one_None l 0) E t); [|exact Hp].
      eapply list_elem_of_lookup_2; eauto. }
  destruct (find_one_Some _ _ _ _ E) as (_ & Hlk & Hp0 & _).
  rewrite Nat.sub_0_r in Hlk.
  assert (i' = i) by (eapply Honly; eauto). subst i'.
  assert (t0 = t) by congruence. subst t0.
  cbn [fst snd]. split; [reflexivity|].
  intros t' Hin Hp'. apply list_elem_of_lookup in Hin as [j Hj].
  destruct (decide (j = i)) as [->|Hne].
  - rewrite list_lookup_insert_eq in Hj by (eapply lookup_lt_Some; eauto).
    injection Hj as <-. discriminate Hp'.
  - rewrite list_lookup_insert_ne in Hj by congruence.
    apply Hne. eapply Honly; eauto.
Qed.

(** C3: whatever the workers, status updates, shutdowns and submissions
    do, in whatever order their store operations interleave, no task is ever
    handed out twice; and when two workers race for the one pending task of a
    store, the first lease to reach the store returns that task and the other
    returns nothing. *)
Theorem at_most_one_worker_gets_a_task :
  (forall s0 s,
      NoDup (ids (store s0)) -> leases s0 = [] -> rtc step s0 s ->
      NoDup (map snd (leases s)))
  /\ (forall now1 now2 pid1 pid2 l t,
        only_pending t l ->
        fst (find_one_and_update now1 pid1 l) = Some t
        /\ fst (find_one_and_update now2 pid2
                  (snd (find_one_and_update now1 pid1 l))) = None).
Proof.
  split.
  - intros s0 s Hids Hl Hreach.
    apply (inv_leases s). apply (invariant_reachable s0 s Hreach).
    constructor; rewrite ?Hl; cbn; try exact Hids.
    + apply NoDup_nil_2.
    + intros id Hid. inversion Hid.
    + intros id t Hid. inversion Hid.
  - intros now1 now2 pid1 pid2 l t Honly.
    destruct (lease_of_only_pending now1 pid1 l t Honly) as (H1 & H2).
    split; [exact H1|].
    unfold find_one_and_update at 1.
    destruct (find_one 0 (snd (find_one_and_update now1 pid1 l))) as [[j t']|] eqn:E;
      [|reflexivity].
    exfalso. destruct (find_one_Some _ _ _ _ E) as (_ & Hlk & Hp & _).
    apply (H2 t'); [|exact Hp]. eapply list_elem_of_lookup_2; eauto.
Qed.

(** The theorem at a store holding task A alone, with workers 1 and 2. *)
Lemma at_most_one_worker_gets_a_task_witness :
  fst (find_one_and_update 300 1 [task_A]) = Some task_A
  /\ fst (find_one_and_update 300 2 (snd (find_one_and_update 300 1 [task_A]))) = None.
Proof.
  apply (proj2 at_most_one_worker_gets_a_task 300 300 1 2 [task_A] task_A).
  exists 0%nat. split; [reflexivity|]. split; [reflexivity|].
  intros j t' Hj _. destruct j; [reflexivity|discriminate].
Defined.

(** The theorem at task A (priority 5, created at 200) and task B
    (priority 1, created at 100). *)
Lemma lease_takes_highest_priority_then_oldest_witness :
  fst (find_one_and_update 300 1 [task_B; task_A]) = Some task_A
  /\ fst (find_one_and_update 300 1 [task_A; task_B]) = Some task_A.
Proof.
  apply (proj2 lease_takes_highest_priority_then_oldest 300 1 task_A task_B).
  - reflexivity.
  - reflexivity.
  - cbn. lia.
Defined.

End LeaseProofs.

Module PipelineProofs.
Import Py Runtime Os Pipeline.

(** The place of a stage in the pipeline. *)
Definition position (s : stage) : nat :=
  match s with
  | acquisition => 0 | analysis => 1 | editing => 2
  | adaptation => 3 | optimization => 4 | publication => 5
  end.

Definition before (s : stage) : list stage := take (position s) (pipeline true).


(** A world in which nothing has run yet; it has [/dev/null]. *)
Definition quiet_effects : effects :=
  {| audit_files := ∅; disk := {[ "/dev/null" := Device true [] ]};
     invoked := []; audit_logger := None; artifact_manager := None;
     integrity_validator := None; clock := 1000; today := "2023-11-14T22:13:20" |}.

Definition join (directory name : string) : string := directory +:+ "/" +:+ name.

(** Collaborators that return at once and leave every product on
    [/dev/null]: no path they return names a regular file. *)
Definition null_products : environment :=
  {| path_join := join;
     download := fun _ => ret ("/dev/null", "/dev/null", VDict [("title", VStr "t")]);
     analyze := fun _ _ => ret (VList [VInt 3; VInt 9], VDict []);
     edit := fun _ _ _ => ret "/dev/null";
     adapt := fun _ => ret "/dev/null";
     optimize := fun _ _ => ret ("/dev/null", VDict [("title", VStr "t")]);
     publish_on_tiktok := fun _ _ => ret (VDict []);
     cancel_during := fun _ => false |}.

(** A downloader that writes the video and the audio as regular files;
    the other collaborators are never reached. *)
Definition regular_files : environment :=
  {| path_join := join;
     download := fun _ fs =>
       (Returned ("data/temp/video.mp4", "data/temp/audio.mp3",
                  VDict [("title", VStr "t")]),
        <["data/temp/audio.mp3" := File true [4; 5]]>
          (<["data/temp/video.mp4" := File true [1; 2; 3]]> fs));
     analyze := fun _ _ => ret (VList [VInt 3; VInt 9], VDict []);
     edit := fun _ _ _ => ret "data/temp/edited.mp4";
     adapt := fun _ => ret "data/temp/tiktok.mp4";
     optimize := fun _ _ => ret ("data/temp/final.mp4", VDict []);
     publish_on_tiktok := fun _ _ => ret (VDict []);
     cancel_during := fun _ => false |}.

(** [null_products] with an analyzer that raises. *)
Definition analysis_fails : environment :=
  {| path_join := path_join null_products; download := download null_products;
     analyze := fun _ _ => raise "boom";
     edit := edit null_products; adapt := adapt null_products;
     optimize := optimize null_products;
     publish_on_tiktok := publish_on_tiktok null_products;
     cancel_during := fun _ => false |}.

(** [regular_files] with a downloader that raises. *)
Definition download_fails : environment :=
  {| path_join := path_join regular_files;
     download := fun _ => raise "Video unavailable";
     analyze := analyze regular_files;
     edit := edit regular_files; adapt := adapt regular_files;
     optimize := optimize regular_files;
     publish_on_tiktok := publish_on_tiktok regular_files;
     cancel_during := fun _ => false |}.

Definition failure {A} (r : result A) : option string :=
  match r with
  | Raised e => Some e
  | Returned _ => None
  end.

(** The collaborator of stage [s] raises [msg] whenever it is called. *)
Definition raises_at (env : environment) (s : stage) (msg : string) : Prop :=
  match s with
  | acquisition => forall url fs, failure (fst (download env url fs)) = Some msg
  | analysis =>
      forall video audio fs, failure (fst (analyze env video audio fs)) = Some msg
  | editing =>
      forall video audio segments fs,
        failure (fst (edit env video audio segments fs)) = Some msg
  | adaptation => forall video fs, failure (fst (adapt env video fs)) = Some msg
  | optimization =>
      forall video info fs, failure (fst (optimize env video info fs)) = Some msg
  | publication =>
      forall video metadata fs,
        failure (fst (publish_on_tiktok env video metadata fs)) = Some msg
  end.

(** The collaborator of stage [s] has returned from a call. *)
Definition returned (env : environment) (s : stage) : Prop :=
  forall msg, ~ raises_at env s msg.

(** [call] is a call of the collaborator of stage [s]. *)
Definition call_of {A} (env : environment) (s : stage) (call : M filesystem A) : Prop :=
  forall fs msg, raises_at env s msg -> failure (fst (call fs)) = Some msg.

Lemma call_of_returned {A} env s (call : M filesystem A) fs a fs' :
  call_of env s call -> call fs = (Returned a, fs') -> returned env s.
Proof.
  intros Hcall Heq msg Hr. specialize (Hcall fs msg Hr). rewrite Heq in Hcall.
  discriminate Hcall.
Qed.

Lemma call_of_raised {A} env s (call : M filesystem A) fs e fs' msg :
  call_of env s call -> call fs = (Raised e, fs') -> raises_at env s msg -> e = msg.
Proof.
  intros Hcall Heq Hr. specialize (Hcall fs msg Hr). rewrite Heq in Hcall.
  cbn in Hcall. congruence.
Qed.

(** *** Statements that call no collaborator *)

(** The statement calls no collaborator and leaves the variable
    [artifact_manager] as it is. *)
Definition quiet {A} (m : M effects A) : Prop :=
  forall x, invoked (snd (m x)) = invoked x
            /\ artifact_manager (snd (m x)) = artifact_manager x.

(** The statement calls no collaborator. *)
Definition calls_nothing {A} (m : M effects A) : Prop :=
  forall x, invoked (snd (m x)) = invoked x.

Lemma quiet_calls_nothing {A} (m : M effects A) : quiet m -> calls_nothing m.
Proof. intros H x. exact (proj1 (H x)). Qed.

Lemma quiet_on_disk {A} (m : M filesystem A) : quiet (on_disk m).
Proof. intros x. unfold on_disk. destruct (m (disk x)). split; reflexivity. Qed.

Lemma quiet_time_now : quiet time_now.
Proof. intros x. split; reflexivity. Qed.

Lemma quiet_new_audit_logger pid : quiet (new_audit_logger pid).
Proof.
  intros x. unfold new_audit_logger, modify. cbn [snd].
  destruct (Audit.new pid (clock x) (audit_files x)). split; reflexivity.
Qed.

Lemma quiet_on_audit_logger method : quiet (on_audit_logger method).
Proof.
  intros x. unfold on_audit_logger. destruct (audit_logger x) as [l|]; [|split; reflexivity].
  destruct (method l (audit_files x)) as [r [l' fs]]. split; reflexivity.
Qed.

Lemma quiet_log_completion report : quiet (log_completion report).
Proof. intros x. unfold log_completion. apply quiet_on_audit_logger. Qed.

Lemma quiet_new_integrity_validator pid : quiet (new_integrity_validator pid).
Proof. intros x. split; reflexivity. Qed.

Lemma quiet_on_integrity_validator {A} method :
  quiet (@on_integrity_validator A method).
Proof.
  intros x. unfold on_integrity_validator.
  destruct (integrity_validator x) as [v|]; [|split; reflexivity].
  destruct (method v). split; reflexivity.
Qed.

Lemma quiet_generate_file_hash p : quiet (generate_file_hash p).
Proof. intros x. unfold generate_file_hash. apply quiet_on_integrity_validator. Qed.

Lemma quiet_generate_data_hash v : quiet (generate_data_hash v).
Proof. apply quiet_on_integrity_validator. Qed.

Lemma calls_nothing_new_artifact_manager env pid dir :
  calls_nothing (new_artifact_manager env pid dir).
Proof.
  intros x. unfold new_artifact_manager.
  destruct (Artifacts.new _ _ _ _ _) as [[e|a] fs]; reflexivity.
Qed.

Lemma calls_nothing_on_artifact_manager {A} (method : M Artifacts.state A) :
  calls_nothing (on_artifact_manager method).
Proof.
  intros x. unfold on_artifact_manager. destruct (artifact_manager x) as [a|]; [|reflexivity].
  destruct (method (a, disk x)) as [r [a' fs]]. reflexivity.
Qed.

Lemma calls_nothing_save_file_info env info : calls_nothing (save_file_info env info).
Proof.
  intros x. unfold save_file_info, bind, ret.
  pose proof (calls_nothing_on_artifact_manager
                (Artifacts.save_file_info (path_join env) (reading_now x) info) x) as H.
  destruct (on_artifact_manager _ x) as [[e|a] x']; exact H.
Qed.

Lemma calls_nothing_save_final_report env report :
  calls_nothing (save_final_report env report).
Proof.
  intros x. unfold save_final_report, bind, ret.
  pose proof (calls_nothing_on_artifact_manager
                (Artifacts.save_final_report (path_join env) (reading_now x) report) x)
    as H.
  destruct (on_artifact_manager _ x) as [[e|a] x']; exact H.
Qed.

Create HintDb calls.
#[export] Hint Resolve quiet_calls_nothing quiet_on_disk quiet_time_now
  quiet_new_audit_logger quiet_on_audit_logger quiet_log_completion
  quiet_new_integrity_validator quiet_generate_file_hash quiet_generate_data_hash
  calls_nothing_new_artifact_manager calls_nothing_save_file_info
  calls_nothing_save_final_report : calls.




Lemma lookup_position n s : pipeline true !! n = Some s -> n = position s.
Proof.
  intros H. do 6 (destruct n as [|n]; [injection H as <-; reflexivity|]).
  discriminate H.
Qed.



Lemma Forall_take_le {A} (P : A -> Prop) (l : list A) n m :
  (n <= m)%nat -> Forall P (take m l) -> Forall P (take n l).
Proof.
  intros Hle H. rewrite <- (Nat.min_l n m Hle), <- take_take. apply Forall_take. exact H.
Qed.

End PipelineProofs.

(** * Statements and what they establish *)
Module Triples.
Import Runtime.

Section Triple.
Context {S : Type}.

(** From a state in [P], the statement ends in [Q] when it returns and in
    [E] when it raises. *)
Definition triple {A} (P : S -> Prop) (m : M S A) (Q : A -> S -> Prop)
    (E : string -> S -> Prop) : Prop :=
  forall s, P s ->
    match m s with
    | (Returned a, s') => Q a s'
    | (Raised e, s') => E e s'
    end.

Lemma triple_bind {A B} (P : S -> Prop) (R : A -> S -> Prop) (m : M S A)
    (k : A -> M S B) Q E :
  triple P m R E -> (forall a, triple (R a) (k a) Q E) -> triple P (bind m k) Q E.
Proof.
  intros Hm Hk s Hs. unfold bind. specialize (Hm s Hs).
  destruct (m s) as [[e|a] s']; [exact Hm|]. exact (Hk a s' Hm).
Qed.

Lemma triple_ret {A} (P : S -> Prop) (a : A) E : triple P (ret a) (fun _ => P) E.
Proof. intros s Hs. exact Hs. Qed.

Lemma triple_modify (P Q : S -> Prop) (f : S -> S) E :
  (forall s, P s -> Q (f s)) -> triple P (modify f) (fun _ => Q) E.
Proof. intros H s Hs. exact (H s Hs). Qed.

Lemma triple_try_except {A} (P : S -> Prop) (R : string -> S -> Prop)
    (body : M S A) (handler : string -> M S A) Q E :
  triple P body Q R -> (forall e, triple (R e) (handler e) Q E) ->
  triple P (try_except body handler) Q E.
Proof.
  intros Hb Hh s Hs. unfold try_except. specialize (Hb s Hs).
  destruct (body s) as [[e|a] s']; [exact (Hh e s' Hb) | exact Hb].
Qed.

Lemma triple_weaken {A} (P : S -> Prop) (m : M S A) (Q Q' : A -> S -> Prop)
    (E E' : string -> S -> Prop) :
  triple P m Q E -> (forall a s, Q a s -> Q' a s) -> (forall e s, E e s -> E' e s) ->
  triple P m Q' E'.
Proof.
  intros H HQ HE s Hs. specialize (H s Hs).
  destruct (m s) as [[e|a] s']; [apply HE | apply HQ]; exact H.
Qed.

End Triple.

End Triples.

Module WorkerProofs.
Import Py Runtime Os Pipeline Worker PipelineProofs Triples.
#[local] Open Scope py_scope.

(** [tasks_collection.find_one({"_id": id})] *)
Fixpoint find_task (id : string) (store : list task) : option task :=
  match store with
  | [] => None
  | t :: rest => if String.eqb (_id t) id then Some t else find_task id rest
  end.

Lemma find_task_update_one id f store :
  (forall t, _id (f t) = _id t) ->
  find_task id (update_one id f store) = f <$> find_task id store.
Proof.
  intros Hf. induction store as [|t rest IH]; [reflexivity|].
  cbn [update_one find_task].
  destruct (String.eqb (_id t) id) eqn:E; cbn [find_task].
  - rewrite Hf, E. reflexivity.
  - rewrite E. exact IH.
Qed.

Lemma find_task_elem_of t store :
  t ∈ store -> exists t', find_task (_id t) store = Some t'.
Proof.
  induction store as [|d rest IH]; intros Hin; [inversion Hin|].
  cbn [find_task]. destruct (String.eqb (_id d) (_id t)) eqn:E; [eauto|].
  apply elem_of_cons in Hin as [->|Hin]; [|auto].
  rewrite String.eqb_refl in E. discriminate.
Qed.

Lemma find_task_present id store :
  id ∈ map _id store -> is_Some (find_task id store).
Proof.
  induction store as [|t rest IH]; cbn [map find_task].
  - intros H. inversion H.
  - destruct (String.eqb_spec (_id t) id) as [E|E]; [eexists; reflexivity|].
    rewrite elem_of_cons. intros [H|H]; [congruence | exact (IH H)].
Qed.

(** Against [store], the queue holds the same documents in the same places,
    and only the data of the documents with identifier [id] may differ. *)
Definition kept (store : list task) (id : string) (w : world) : Prop :=
  map _id (tasks_collection w) = map _id store
  /\ forall j d, store !! j = Some d -> _id d <> id -> tasks_collection w !! j = Some d.

Lemma ids_update id f store :
  (forall t, _id (f t) = _id t) -> map _id (update_one id f store) = map _id store.
Proof.
  intros Hf. induction store as [|t rest IH]; [reflexivity|].
  cbn [update_one]. destruct (String.eqb (_id t) id); cbn [map].
  - rewrite Hf. reflexivity.
  - rewrite IH. reflexivity.
Qed.

Lemma update_one_other id f store : forall j d,
  store !! j = Some d -> _id d <> id -> update_one id f store !! j = Some d.
Proof.
  induction store as [|t rest IH]; intros j d Hj Hne; [discriminate Hj|].
  cbn [update_one]. destruct (String.eqb_spec (_id t) id) as [E|E].
  - destruct j as [|j]; cbn in *; [|exact Hj]. injection Hj as ->. contradiction.
  - destruct j as [|j]; cbn in *; [exact Hj | apply IH; assumption].
Qed.

Lemma kept_update store id w status' progress' message' now :
  kept store id w ->
  kept store id
    {| tasks_collection :=
         update_one id (set_status status' progress' message' now) (tasks_collection w);
       results_collection := results_collection w; fx := fx w |}.
Proof.
  intros [Hids Hothers]. split; cbn [tasks_collection].
  - rewrite ids_update by reflexivity. exact Hids.
  - intros j d Hj Hne. apply update_one_other; [|exact Hne]. exact (Hothers j d Hj Hne).
Qed.

Lemma kept_refl store id results x :
  kept store id {| tasks_collection := store; results_collection := results; fx := x |}.
Proof. split; [reflexivity|]. intros j d Hj _. exact Hj. Qed.

(** The task [task_id], if the queue holds it, has ended with [status'] and
    [message'], at progress 100. *)
Definition ended (task_id status' message' : string) (w : world) : Prop :=
  forall t, find_task task_id (tasks_collection w) = Some t ->
            status t = status' /\ progress t = 100 /\ message t = message'.

Lemma ended_update id status' message' now w :
  ended id status' message'
    {| tasks_collection :=
         update_one id (set_status status' 100 message' now) (tasks_collection w);
       results_collection := results_collection w; fx := fx w |}.
Proof.
  intros t. cbn [tasks_collection].
  rewrite find_task_update_one by reflexivity.
  destruct (find_task id (tasks_collection w)); [|discriminate].
  intros [= <-]. repeat split.
Qed.

(** The event [log_error] appends. *)
Definition error_event (e : string) : Audit.event :=
  {| Audit.e_type := "error";
     Audit.e_details := VDict [("error", VStr e); ("details", VDict [])] |}.

(** *** One run of [process_task] *)
Section Task.
Variable env : environment.
Variable leased : task.
Variable store : list task.
Variable inv0 : list stage.

(** [n] collaborators have been called, and each has returned. *)
Definition tracked (n : nat) (w : world) : Prop :=
  kept store (_id leased) w
  /\ invoked (fx w) = inv0 ++ take n (pipeline true)
  /\ Forall (returned env) (take n (pipeline true)).

(** An exception [e] is on its way to the handler: either no collaborator
    was called, or the last one called is the only one that may have
    raised, and then [e] is what it raised. *)
Definition failing (e : string) (w : world) : Prop :=
  kept store (_id leased) w
  /\ (invoked (fx w) = inv0
      \/ exists n s,
           pipeline true !! n = Some s
           /\ invoked (fx w) = inv0 ++ take (S n) (pipeline true)
           /\ Forall (returned env) (take n (pipeline true))
           /\ forall msg, raises_at env s msg -> e = msg).

Lemma tracked_failing n e w : (n <= 6)%nat -> tracked n w -> failing e w.
Proof.
  intros Hn (Hk & Hinv & Hret). split; [exact Hk|].
  destruct n as [|n].
  - left. rewrite Hinv. cbn. apply app_nil_r.
  - right. destruct (lookup_lt_is_Some_2 (pipeline true) n) as [s Hs]; [cbn; lia|].
    exists n, s. split; [exact Hs|]. split; [exact Hinv|].
    rewrite (take_S_r _ _ _ Hs), Forall_app, Forall_singleton in Hret.
    destruct Hret as [Hret Hlast].
    split; [exact Hret|]. intros msg Hr. destruct (Hlast msg Hr).
Qed.

Lemma steady_update n status' progress' message' :
  triple (tracked n)
    (update_task_status (_id leased) status' progress' message')
    (fun _ => tracked n) failing.
Proof.
  apply triple_modify. intros w (Hk & Hinv & Hret).
  split; [apply kept_update; exact Hk|]. split; assumption.
Qed.

Lemma steady_lift {A} n (m : M effects A) :
  (n <= 6)%nat -> calls_nothing m ->
  triple (tracked n) (lift m) (fun _ => tracked n) failing.
Proof.
  intros Hn Hm w Hw. unfold lift. pose proof (Hm (fx w)) as Hq.
  destruct Hw as (Hk & Hinv & Hret).
  assert (tracked n {| tasks_collection := tasks_collection w;
                       results_collection := results_collection w;
                       fx := snd (m (fx w)) |}) as Ht.
  { split; [exact Hk|]. cbn [fx]. rewrite Hq. split; assumption. }
  destruct (m (fx w)) as [[e|a] x]; cbn [snd] in Ht;
    [exact (tracked_failing n e _ Hn Ht) | exact Ht].
Qed.

Lemma invoke_tracked {A} n s (call : M filesystem A) :
  pipeline true !! n = Some s -> call_of env s call ->
  triple (tracked n) (lift (invoke s call)) (fun _ => tracked (S n)) failing.
Proof.
  intros Hs Hcall w (Hk & Hinv & Hret). unfold lift, invoke.
  destruct (call (disk (fx w))) as [[e|a] fs] eqn:Heq.
  - split; [exact Hk|]. right. exists n, s. split; [exact Hs|].
    cbn [fx invoked with_disk with_invoked].
    rewrite Hinv, (take_S_r _ _ _ Hs), app_assoc. split; [reflexivity|].
    split; [exact Hret|]. intros msg Hr. exact (call_of_raised _ _ _ _ _ _ _ Hcall Heq Hr).
  - split; [exact Hk|]. cbn [fx invoked with_disk with_invoked].
    rewrite Hinv, (take_S_r _ _ _ Hs), app_assoc. split; [reflexivity|].
    rewrite Forall_app, Forall_singleton. split; [exact Hret|].
    exact (call_of_returned _ _ _ _ _ _ Hcall Heq).
Qed.

Ltac intro_value :=
  let x := fresh "x" in
  intros x;
  repeat match goal with
         | y : (_ * _)%type |- _ => destruct y
         end;
  cbv beta iota.

Ltac call_proof := intros ? ? H; apply H.

Ltac advance :=
  lazymatch goal with
  | |- triple (tracked ?n) (bind (update_task_status _ _ _ _) _) _ _ =>
      eapply triple_bind; [apply (steady_update n) | intro_value]
  | |- triple (tracked ?n) (bind (lift (invoke ?s ?call)) _) _ _ =>
      eapply triple_bind;
        [apply (invoke_tracked n s call); [reflexivity | call_proof] | intro_value]
  | |- triple (tracked ?n) (bind (lift _) _) _ _ =>
      eapply triple_bind;
        [apply (steady_lift n); [lia | auto with calls] | intro_value]
  end.

(** The run has gone through every stage. *)
Definition completed_run (w : world) : Prop :=
  kept store (_id leased) w
  /\ ended (_id leased) "completed" "Conversion terminée" w
  /\ _id leased ∈ results_collection w
  /\ invoked (fx w) = inv0 ++ pipeline (publish (params leased))
  /\ Forall (returned env) (pipeline (publish (params leased))).

(** The run has failed with [e], and the handler has run. *)
Definition failed_run (e : string) (w : world) : Prop :=
  failing e w
  /\ ended (_id leased) "failed" ("Erreur: " +:+ e) w
  /\ exists d,
       audit_files (fx w) !! default (_id leased) (process_id leased) = Some d
       /\ Audit.d_status d = "error" /\ Audit.d_error d = Some e
       /\ Audit.d_events d = [error_event e].

Lemma tail_of_run n published result optimized_path optimized_hash metadata :
  (n <= 6)%nat -> take n (pipeline true) = pipeline (publish (params leased)) ->
  triple (tracked n)
    (end_time ← lift time_now ;
     let start_time := created_at leased in
     final_report ←
       lift (save_final_report env
               [("process_id", VStr (default (_id leased) (process_id leased)));
                ("task_id", VStr (_id leased));
                ("url", VStr (url (params leased))); ("start_time", VInt start_time);
                ("end_time", VInt end_time);
                ("total_time", VInt (end_time - start_time));
                ("output_path",
                 VStr ("data/output/" +:+ default (_id leased) (process_id leased)));
                ("final_video", VStr optimized_path);
                ("final_hash", VStr optimized_hash);
                ("tiktok_published", VBool published);
                ("tiktok_result", result); ("metadata", metadata);
                ("download_url",
                 VStr ("/api/download/" +:+ default (_id leased) (process_id leased)))]) ;
     lift (log_completion (VDict final_report)) ;;
     insert_result (_id leased) ;;
     update_task_status (_id leased) "completed" 100 "Conversion terminée")%py
    (fun _ => completed_run) failing.
Proof.
  intros Hn Hall. cbv zeta. do 3 advance.
  eapply triple_bind
    with (R := fun _ w => tracked n w /\ _id leased ∈ results_collection w).
  - apply triple_modify. intros w Hw. split; [exact Hw|].
    cbn [results_collection]. apply elem_of_app. right. left.
  - intros _. apply triple_modify. intros w [(Hk & Hinv & Hret) Hres].
    split; [apply kept_update; exact Hk|]. split; [apply ended_update|].
    split; [exact Hres|]. cbn [fx]. rewrite <- Hall. split; assumption.
Qed.

Lemma handler_fails e :
  triple (failing e)
    (try_pass (lift (new_audit_logger (default (_id leased) (process_id leased))) ;;
               lift (on_audit_logger (Audit.log_error e))) ;;
     update_task_status (_id leased) "failed" 100 ("Erreur: " +:+ e))%py
    (fun _ => failed_run e) (fun _ _ => False).
Proof.
  intros w (Hk & Hinv).
  unfold try_pass, try_except, bind, lift, new_audit_logger, modify, on_audit_logger,
    update_task_status, ret, Audit.new, Audit.log_error, Audit.and_then,
    Audit.log_event, Audit._write_log.
  cbn.
  split; [split; [apply kept_update; exact Hk | exact Hinv]|].
  split; [apply ended_update|].
  eexists. split; [apply lookup_insert_eq|]. repeat split.
Qed.

(** What a run of [process_task] comes to, from a world in which the queue
    is [store] (the leased task apart) and the collaborators [inv0] have
    been called. *)
Lemma process_task_outcome :
  triple (tracked 0) (process_task env leased)
    (fun _ w => completed_run w \/ exists e, failed_run e w)
    (fun _ _ => False).
Proof.
  unfold process_task. cbv zeta.
  apply triple_try_except with (R := failing).
  - eapply triple_weaken with (Q := fun _ => completed_run) (E := failing);
      [| intros; left; assumption | intros; assumption].
    repeat advance.
    destruct (publish (params leased)) eqn:Hpub.
    + eapply triple_bind with (R := fun _ => tracked 6).
      * repeat advance. apply triple_ret.
      * intro_value. apply tail_of_run; [lia | rewrite Hpub; reflexivity].
    + eapply triple_bind with (R := fun _ => tracked 5).
      * apply triple_ret.
      * intro_value. apply tail_of_run; [lia | rewrite Hpub; reflexivity].
  - intros e.
    eapply triple_weaken with (Q := fun _ => failed_run e) (E := fun _ _ => False);
      [apply handler_fails | intros; right; eexists; eassumption | intros; assumption].
Qed.

End Task.


Lemma tracked_start env leased store results x :
  tracked env leased store (invoked x) 0
    {| tasks_collection := store; results_collection := results; fx := x |}.
Proof.
  split; [apply kept_refl|]. cbn. split; [symmetry; apply app_nil_r | constructor].
Qed.


(** A turn of the loop that leases a task ends with no task in hand. *)
Lemma run_iteration_outcome env wpid self w leased store' :
  find_one_and_update (clock (fx w)) wpid (tasks_collection w) = (Some leased, store') ->
  let w' := snd (run_iteration env wpid self w) in
  fst (run_iteration env wpid self w)
    = {| running := running self; current_task := None |}
  /\ (completed_run env leased store' (invoked (fx w)) w'
      \/ exists e, failed_run env leased store' (invoked (fx w)) e w').
Proof.
  intros Hlease. unfold run_iteration. rewrite Hlease.
  pose proof (process_task_outcome env leased store' (invoked (fx w)) _
                (tracked_start env leased store' (results_collection w) (fx w))) as H.
  destruct (process_task env leased _) as [[e|[]] w2]; [destruct H|].
  split; [reflexivity | exact H].
Qed.


(** A store with tasks B and A pending, and an idle worker. *)
Definition two_pending : world :=
  {| tasks_collection := [LeaseProofs.task_B; LeaseProofs.task_A];
     results_collection := []; fx := quiet_effects |}.

Definition idle : Worker := {| running := true; current_task := None |}.


(** With a downloader that leaves regular files, the run never gets past
    the acquisition record: [save_file_info] raises on it, the analyzer is
    not called, and the task fails with that error. *)
Lemma regular_files_fail_at_the_acquisition_record :
  let w' := snd (run_iteration regular_files 7 idle two_pending) in
  invoked (fx w') = [acquisition]
  /\ (message <$> find_task "task_A" (tasks_collection w'))
     = Some "Erreur: dictionary changed size during iteration"
  /\ (Artifacts.artifacts ∘ Artifacts.manifest_of <$> artifact_manager (fx w'))
     = Some [].
Proof. repeat split; vm_compute; reflexivity. Qed.

(** A downloader that raises fails the task at the first stage, whatever
    is on disk: no other collaborator is called, the audit document has
    status error and the task carries the message. *)
Lemma download_failure_fails_the_task :
  let w' := snd (run_iteration download_fails 7 idle two_pending) in
  invoked (fx w') = [acquisition]
  /\ (message <$> find_task "task_A" (tasks_collection w'))
     = Some "Erreur: Video unavailable"
  /\ (status <$> find_task "task_A" (tasks_collection w')) = Some "failed"
  /\ (Audit.d_status <$> audit_files (fx w') !! "task_A") = Some "error"
  /\ (Audit.d_error <$> audit_files (fx w') !! "task_A")
     = Some (Some "Video unavailable").
Proof. repeat split; vm_compute; reflexivity. Qed.

End WorkerProofs.

Module AuditProofs.
Import Py Runtime Os Pipeline Worker PipelineProofs WorkerProofs.

(** Through one logger, an event is added after those the logger holds,
    whether the rendering of [audit.log] then raises or not. *)
Lemma log_event_appends event_type details self fs :
  Audit.persisted_events (Audit.process_id self)
    (snd (snd (Audit.log_event event_type details self fs)))
  = Audit.d_events (Audit.logs0 self)
    ++ [{| Audit.e_type := event_type; Audit.e_details := details |}].
Proof.
  unfold Audit.persisted_events, Audit.log_event, Audit._write_log. cbn.
  rewrite lookup_insert_eq. reflexivity.
Qed.

Lemma and_then_appends event_type details update self fs :
  (forall d, Audit.d_events (update d) = Audit.d_events d) ->
  Audit.d_events (Audit.logs0 self) `prefix_of`
    Audit.persisted_events (Audit.process_id self)
      (snd (snd (Audit.and_then (Audit.log_event event_type details) update self fs))).
Proof.
  intros Hupdate.
  unfold Audit.persisted_events, Audit.and_then, Audit.log_event, Audit._write_log. cbn.
  destruct (Audit.render_events _); cbn; rewrite lookup_insert_eq; cbn;
    rewrite ?Hupdate; cbn; apply prefix_app_r; reflexivity.
Qed.

(** Every method of one logger keeps the events the logger holds, in order,
    at the head of the persisted document. *)
Lemma one_logger_only_appends self fs :
  let held := Audit.d_events (Audit.logs0 self) in
  let pid := Audit.process_id self in
  (forall url, held `prefix_of`
     Audit.persisted_events pid (snd (snd (Audit.log_start url self fs))))
  /\ (forall e, held `prefix_of`
        Audit.persisted_events pid (snd (snd (Audit.log_error e self fs))))
  /\ (forall report now, held `prefix_of`
        Audit.persisted_events pid (snd (snd (Audit.log_completion report now self fs))))
  /\ (forall kind ok details, held `prefix_of`
        Audit.persisted_events pid
          (snd (snd (Audit.log_validation kind ok details self fs)))).
Proof.
  cbv zeta. split; [|split; [|split]]; intros.
  - unfold Audit.log_start. rewrite log_event_appends. apply prefix_app_r. reflexivity.
  - apply and_then_appends. reflexivity.
  - apply and_then_appends. reflexivity.
  - apply and_then_appends. reflexivity.
Qed.

(** The event [log_start] appends. *)
Definition process_start (url : string) : Audit.event :=
  {| Audit.e_type := "process_start";
     Audit.e_details := VDict [("source_url", VStr url)] |}.

(** A logger made for task A and its trail after [log_start]. *)
Definition started_trail : Audit.AuditLogger * Audit.files :=
  let '(l, fs) := Audit.new "task_A" 1000 ∅ in
  snd (Audit.log_start "https://youtu.be/x" l fs).

(** C8 fails on the code: [AuditLogger(process_id)] rewrites the audit
    document of the process with no events, whatever it held.  A trail
    holding [process_start] is empty after a second logger is made for the
    same process, and after the worker's exception handler has run the
    document holds the error event alone. *)
Theorem new_logger_erases_persisted_events :
  (forall pid now fs, Audit.persisted_events pid (snd (Audit.new pid now fs)) = [])
  /\ Audit.persisted_events "task_A" (snd started_trail)
     = [process_start "https://youtu.be/x"]
  /\ Audit.persisted_events "task_A"
       (snd (Audit.new "task_A" 1001 (snd started_trail))) = []
  /\ Audit.persisted_events "task_A"
       (audit_files (fx (snd (run_iteration analysis_fails 7 idle two_pending))))
     = [{| Audit.e_type := "error";
           Audit.e_details := VDict [("error", VStr "boom"); ("details", VDict [])] |}].
Proof.
  split.
  - intros pid now fs. unfold Audit.persisted_events, Audit.new, Audit._write_log.
    cbn. rewrite lookup_insert_eq. reflexivity.
  - repeat split; vm_compute; reflexivity.
Qed.

End AuditProofs.

Module SettlingProofs.
Import Py Runtime Os Pipeline Worker PipelineProofs WorkerProofs Triples.
#[local] Open Scope py_scope.

(** X11: with the MongoDB calls taken as succeeding, process_task lets no
    exception out and never leaves its task in processing.  Whatever the
    collaborators do and whatever is on disk (an exception of a
    collaborator, of the hashing, of save_file_info or of a write is caught
    by the handler), it returns; no document is added to the queue or
    removed from it, and the documents of the other tasks are as they were;
    the task itself (when the queue holds it) is then completed or failed,
    at progress 100; if completed, a result was inserted for it. *)
Theorem process_task_always_settles (env : environment) (leased : task) (w : world) :
  _id leased ∈ map _id (tasks_collection w) ->
  exists w' t',
    process_task env leased w = (Returned tt, w')
    /\ map _id (tasks_collection w') = map _id (tasks_collection w)
    /\ (forall j d, tasks_collection w !! j = Some d -> _id d <> _id leased ->
          tasks_collection w' !! j = Some d)
    /\ find_task (_id leased) (tasks_collection w') = Some t'
    /\ progress t' = 100
    /\ (status t' = "completed" /\ _id leased ∈ results_collection w'
        \/ status t' = "failed").
Proof.
  intros Hin.
  assert (tracked env leased (tasks_collection w) (invoked (fx w)) 0 w) as Hstart.
  { destruct w as [store results x]. apply tracked_start. }
  pose proof (process_task_outcome env leased _ _ w Hstart) as H.
  destruct (process_task env leased w) as [[e|[]] w']; [destruct H|].
  assert (kept (tasks_collection w) (_id leased) w') as [Hids Hothers].
  { destruct H as [(Hk & _)|(e & (Hk & _) & _)]; exact Hk. }
  destruct (find_task_present (_id leased) (tasks_collection w')) as [t' Ht'].
  { rewrite Hids. exact Hin. }
  exists w', t'. split; [reflexivity|]. split; [exact Hids|]. split; [exact Hothers|].
  split; [exact Ht'|].
  destruct H as [(_ & Hended & Hres & _)|(e & _ & Hended & _)];
    destruct (Hended t' Ht') as (Hst & Hpr & _);
    (split; [exact Hpr|]); [left; split; assumption | right; assumption].
Qed.

(** The theorem at a task whose downloader leaves regular files: the task
    ends failed. *)
Lemma process_task_always_settles_witness :
  exists w' t',
    process_task regular_files LeaseProofs.task_A two_pending = (Returned tt, w')
    /\ map _id (tasks_collection w') = map _id (tasks_collection two_pending)
    /\ (forall j d, tasks_collection two_pending !! j = Some d ->
          _id d <> _id LeaseProofs.task_A -> tasks_collection w' !! j = Some d)
    /\ find_task (_id LeaseProofs.task_A) (tasks_collection w') = Some t'
    /\ progress t' = 100
    /\ (status t' = "completed" /\ _id LeaseProofs.task_A ∈ results_collection w'
        \/ status t' = "failed").
Proof.
  apply (process_task_always_settles regular_files LeaseProofs.task_A two_pending).
  cbn. apply elem_of_cons. right. apply elem_of_cons. left. reflexivity.
Defined.

(** *** The loop of the worker *)

(** A task the worker is done with. *)
Definition done (d : task) : Prop :=
  (status d = "completed" \/ status d = "failed") /\ progress d = 100.

#[local] Instance pending_decision t : Decision (LeaseProofs.pending t).
Proof. unfold LeaseProofs.pending. apply _. Defined.

Lemma find_task_lookup store : forall j d,
  NoDup (map _id store) -> store !! j = Some d ->
  find_task (_id d) store = Some d.
Proof.
  induction store as [|t rest IH]; intros j d Hnd Hj; [discriminate Hj|].
  cbn [map] in Hnd. apply NoDup_cons in Hnd as [Hout Hnd].
  cbn [find_task]. destruct j as [|j]; cbn in Hj.
  - injection Hj as ->. rewrite String.eqb_refl. reflexivity.
  - destruct (String.eqb_spec (_id t) (_id d)) as [E|E]; [|exact (IH j d Hnd Hj)].
    exfalso. apply Hout. rewrite E. apply list_elem_of_fmap. exists d.
    split; [reflexivity|]. eapply list_elem_of_lookup_2. exact Hj.
Qed.

(** One turn of the loop that leases the task at place [i]. *)
Lemma run_iteration_leased env pid self w i t :
  NoDup (map _id (tasks_collection w)) ->
  find_one 0 (tasks_collection w) = Some (i, t) ->
  exists d',
    tasks_collection (snd (run_iteration env pid self w))
    = <[i := d']> (tasks_collection w)
    /\ _id d' = _id t /\ done d'
    /\ running (fst (run_iteration env pid self w)) = running self.
Proof.
  intros Hnd Hf.
  destruct (LeaseProofs.find_one_Some _ _ _ _ Hf) as (_ & Hlk & Hp & _).
  rewrite Nat.sub_0_r in Hlk.
  assert (i < length (tasks_collection w))%nat as Hi by (eapply lookup_lt_Some; exact Hlk).
  set (store1 := <[i := set_processing (clock (fx w)) pid t]> (tasks_collection w)).
  assert (find_one_and_update (clock (fx w)) pid (tasks_collection w) = (Some t, store1))
    as Hlease by (unfold find_one_and_update; rewrite Hf; reflexivity).
  assert (map _id store1 = map _id (tasks_collection w)) as Hids1.
  { unfold store1. rewrite list_fmap_insert. cbn [set_processing _id].
    apply list_insert_id. rewrite list_lookup_fmap, Hlk. reflexivity. }
  destruct (run_iteration_outcome env pid self w t store1 Hlease) as [Hself Hout].
  destruct (run_iteration env pid self w) as [self2 w2]. cbn [fst snd] in *.
  assert (kept store1 (_id t) w2) as [Hids Hothers].
  { destruct Hout as [(Hk & _)|(e & (Hk & _) & _)]; exact Hk. }
  assert (NoDup (map _id (tasks_collection w2))) as Hnd2 by (rewrite Hids, Hids1; exact Hnd).
  assert (i < length (tasks_collection w2))%nat as Hi2.
  { rewrite <- (length_map _id), Hids, Hids1, length_map. exact Hi. }
  destruct (lookup_lt_is_Some_2 _ _ Hi2) as [d' Hd'].
  assert (_id d' = _id t) as Hid'.
  { assert (map _id (tasks_collection w2) !! i = Some (_id d')) as E1
      by (rewrite list_lookup_fmap, Hd'; reflexivity).
    rewrite Hids, Hids1, list_lookup_fmap, Hlk in E1. cbn in E1. congruence. }
  exists d'. split; [|split; [exact Hid'|split; [|subst self2; reflexivity]]].
  - apply list_eq. intros j. destruct (decide (j = i)) as [->|Hne].
    + rewrite Hd', list_lookup_insert_eq by exact Hi. reflexivity.
    + rewrite list_lookup_insert_ne by congruence.
      destruct (tasks_collection w !! j) as [d|] eqn:Hj.
      * apply Hothers.
        -- unfold store1. rewrite list_lookup_insert_ne by congruence. exact Hj.
        -- intros E. apply Hne.
           apply (NoDup_lookup (map _id (tasks_collection w)) j i (_id t)); [exact Hnd| |].
           ++ rewrite list_lookup_fmap, Hj. cbn. congruence.
           ++ rewrite list_lookup_fmap, Hlk. reflexivity.
      * apply lookup_ge_None. apply lookup_ge_None in Hj.
        rewrite <- (length_map _id), Hids, Hids1, length_map. exact Hj.
  - pose proof (find_task_lookup _ i d' Hnd2 Hd') as Hfind. rewrite Hid' in Hfind.
    destruct Hout as [(_ & Hended & _)|(e & _ & Hended & _)];
      destruct (Hended d' Hfind) as (Hst & Hpr & _);
      (split; [|exact Hpr]); [left | right]; exact Hst.
Qed.

Lemma run_iteration_idle env pid self w :
  find_one 0 (tasks_collection w) = None ->
  tasks_collection (snd (run_iteration env pid self w)) = tasks_collection w
  /\ fst (run_iteration env pid self w) = self.
Proof.
  intros Hf. unfold run_iteration, find_one_and_update. rewrite Hf. split; reflexivity.
Qed.

Definition still_pending (store : list task) : list task :=
  filter LeaseProofs.pending store.

Lemma pending_count_insert store i t d' :
  store !! i = Some t -> LeaseProofs.pending t -> ~ LeaseProofs.pending d' ->
  length (still_pending store) = S (length (still_pending (<[i := d']> store))).
Proof.
  intros Hlk Hp Hn. unfold still_pending.
  rewrite <- (take_drop_middle store i t Hlk) at 1.
  rewrite insert_take_drop by (eapply lookup_lt_Some; exact Hlk).
  rewrite !filter_app, !filter_cons.
  destruct (decide (LeaseProofs.pending t)); [|contradiction].
  destruct (decide (LeaseProofs.pending d')); [contradiction|].
  rewrite !length_app. cbn [length]. lia.
Qed.

Lemma done_not_pending d : done d -> ~ LeaseProofs.pending d.
Proof. intros [[H|H] _] Hp; unfold LeaseProofs.pending in Hp; congruence. Qed.

Lemma run_spec env pid turns : forall self w,
  running self = true ->
  NoDup (map _id (tasks_collection w)) ->
  (length (still_pending (tasks_collection w)) <= turns)%nat ->
  let store' := tasks_collection (snd (run turns env pid self w)) in
  map _id store' = map _id (tasks_collection w)
  /\ forall j d, tasks_collection w !! j = Some d ->
       (LeaseProofs.pending d -> exists d', store' !! j = Some d' /\ done d')
       /\ (~ LeaseProofs.pending d -> store' !! j = Some d).
Proof.
  induction turns as [|n IH]; intros self w Hrun Hnd Hlen store'.
  - subst store'. cbn [run snd]. split; [reflexivity|]. intros j d Hj. split.
    + intros Hp. exfalso.
      assert (d ∈ still_pending (tasks_collection w)) as Hin.
      { apply list_elem_of_filter. split; [exact Hp|].
        eapply list_elem_of_lookup_2. exact Hj. }
      destruct (still_pending (tasks_collection w)); [inversion Hin | cbn in Hlen; lia].
    + intros _. exact Hj.
  - subst store'. cbn [run]. rewrite Hrun.
    destruct (find_one 0 (tasks_collection w)) as [[i t]|] eqn:Hf.
    + destruct (run_iteration_leased env pid self w i t Hnd Hf)
        as (d' & Hstore & Hid & Hdone & Hrun').
      destruct (LeaseProofs.find_one_Some _ _ _ _ Hf) as (_ & Hlk & Hp & _).
      rewrite Nat.sub_0_r in Hlk.
      assert (i < length (tasks_collection w))%nat as Hi
        by (eapply lookup_lt_Some; exact Hlk).
      destruct (run_iteration env pid self w) as [self1 w1]. cbn [fst snd] in *.
      assert (map _id (tasks_collection w1) = map _id (tasks_collection w)) as Hids.
      { rewrite Hstore, list_fmap_insert. apply list_insert_id.
        rewrite list_lookup_fmap, Hlk. cbn. congruence. }
      destruct (IH self1 w1) as [Hids' Hall].
      * rewrite Hrun'. exact Hrun.
      * rewrite Hids. exact Hnd.
      * pose proof (pending_count_insert _ i t d' Hlk Hp (done_not_pending _ Hdone)) as E.
        rewrite Hstore. lia.
      * split; [rewrite Hids', Hids; reflexivity|].
        intros j d Hj. destruct (decide (j = i)) as [->|Hne].
        -- assert (d = t) as -> by congruence.
           split; [|intros Hn; contradiction].
           intros _. exists d'. split; [|exact Hdone].
           apply (Hall i d'); [|exact (done_not_pending _ Hdone)].
           rewrite Hstore. apply list_lookup_insert_eq. exact Hi.
        -- apply Hall. rewrite Hstore, list_lookup_insert_ne by congruence. exact Hj.
    + destruct (run_iteration_idle env pid self w Hf) as [Hstore Hself].
      destruct (run_iteration env pid self w) as [self1 w1]. cbn [fst snd] in *.
      subst self1.
      destruct (IH self w1) as [Hids' Hall].
      * exact Hrun.
      * rewrite Hstore. exact Hnd.
      * rewrite Hstore.
        destruct (still_pending (tasks_collection w)) as [|t l] eqn:E; [cbn; lia|]. exfalso.
        assert (t ∈ still_pending (tasks_collection w)) as Hin by (rewrite E; left).
        apply list_elem_of_filter in Hin as [Hp Hin].
        exact (proj1 (LeaseProofs.find_one_None (tasks_collection w) 0) Hf t Hin Hp).
      * rewrite Hstore in Hids', Hall. split; [exact Hids' | exact Hall].
Qed.

(** X23: a worker that is left running settles the whole queue.  With the
    MongoDB calls taken as succeeding: from a queue with distinct
    identifiers, after as many turns of the loop of Worker.run as there are
    pending tasks (or more), with no other writer, every task that was
    pending is completed or failed at progress 100, every other task is as it
    was, and no document was added or removed, whatever the collaborators
    did and whatever is on disk. *)
Theorem run_settles_every_pending_task (env : environment) (pid : Z) (turns : nat)
    (self : Worker) (w : world) :
  running self = true ->
  NoDup (map _id (tasks_collection w)) ->
  (length (filter LeaseProofs.pending (tasks_collection w)) <= turns)%nat ->
  let store' := tasks_collection (snd (run turns env pid self w)) in
  map _id store' = map _id (tasks_collection w)
  /\ forall j d, tasks_collection w !! j = Some d ->
       (LeaseProofs.pending d -> exists d', store' !! j = Some d' /\ done d')
       /\ (~ LeaseProofs.pending d -> store' !! j = Some d).
Proof. intros Hrun Hnd Hlen. exact (run_spec env pid turns self w Hrun Hnd Hlen). Qed.

(** The theorem at two pending tasks whose downloader leaves regular
    files: both end failed. *)
Lemma run_settles_every_pending_task_witness :
  let store' :=
    tasks_collection (snd (run 2 regular_files 7 idle two_pending)) in
  map _id store' = map _id (tasks_collection two_pending)
  /\ forall j d, tasks_collection two_pending !! j = Some d ->
       (LeaseProofs.pending d -> exists d', store' !! j = Some d' /\ done d')
       /\ (~ LeaseProofs.pending d -> store' !! j = Some d).
Proof.
  apply (run_settles_every_pending_task regular_files 7 2 idle two_pending).
  - reflexivity.
  - apply (bool_decide_unpack _). vm_compute. exact I.
  - vm_compute. lia.
Defined.

End SettlingProofs.

Module WebProofs.
Import Py Runtime Os Pipeline Web PipelineProofs Triples.
#[local] Open Scope py_scope.

Definition updated (status' : string) (progress' : Z) (stage' : string)
    (p : process) : process :=
  {| status := status'; progress := progress'; current_stage := stage';
     started_at := started_at p; output_dir := output_dir p; error := error p |}.

Lemma update_process_status_live pid status' progress' stage' w p :
  active_processes w !! pid = Some p ->
  String.eqb (status p) "cancelled" = false ->
  update_process_status pid status' progress' stage' w
  = (Returned tt,
     {| active_processes :=
          <[pid := updated status' progress' stage' p]> (active_processes w);
        fx := fx w |}).
Proof. unfold update_process_status. intros -> ->. reflexivity. Qed.

Lemma update_process_status_cancelled pid status' progress' stage' w p :
  active_processes w !! pid = Some p ->
  status p = "cancelled" ->
  update_process_status pid status' progress' stage' w
  = (Raised "Processus annulé par l'utilisateur", w).
Proof. unfold update_process_status. intros -> ->. reflexivity. Qed.

(** The entry a served cancel request leaves. *)
Definition cancelled (p : process) : process :=
  updated "cancelled" 100 "annulation" p.

Lemma cancel_conversion_spec pid procs p :
  procs !! pid = Some p ->
  cancel_conversion pid procs
  = if finished (status p)
    then (HTTPException 400 "Processus déjà terminé", procs)
    else (Success "Conversion annulée", <[pid := cancelled p]> procs).
Proof. unfold cancel_conversion. intros ->. reflexivity. Qed.

(** *** The manifest of a run *)

(** [entry["stage"]] of a manifest entry. *)
Definition entry_stage (entry : value) : option value :=
  match entry with
  | VDict d => dict_get "stage" d
  | _ => None
  end.

(** Every entry of the manifest the artifact manager holds was recorded for
    one of [stages]. *)
Definition recorded_within (stages : list stage) (x : effects) : Prop :=
  forall a, artifact_manager x = Some a ->
    Forall (fun entry => exists s, s ∈ stages
                                   /\ entry_stage entry = Some (VStr (stage_name s)))
      (Artifacts.artifacts (Artifacts.manifest_of a)).

Lemma recorded_within_mono stages stages' x :
  stages ⊆ stages' -> recorded_within stages x -> recorded_within stages' x.
Proof.
  intros Hsub H a Ha. eapply Forall_impl; [exact (H a Ha)|].
  intros entry (s & Hs & He). exists s. split; [apply Hsub; exact Hs | exact He].
Qed.

Lemma recorded_within_quiet {A} (m : M effects A) stages x :
  quiet m -> recorded_within stages x -> recorded_within stages (snd (m x)).
Proof. intros Hq H a Ha. rewrite (proj2 (Hq x)) in Ha. exact (H a Ha). Qed.

Lemma save_manifest_manager join s :
  fst (snd (Artifacts._save_manifest join s)) = fst s.
Proof.
  unfold Artifacts._save_manifest, Artifacts.on_files.
  destruct (Artifacts.write_document _ _ (snd s)). reflexivity.
Qed.

Lemma save_file_info_recorded env info s stages x :
  dict_get "stage" (Artifacts.stamp (reading_now x) info) = Some (VStr (stage_name s)) ->
  s ∈ stages ->
  recorded_within stages x -> recorded_within stages (snd (save_file_info env info x)).
Proof.
  intros Hstage Hs H. unfold save_file_info, bind, ret, on_artifact_manager.
  destruct (artifact_manager x) as [a|] eqn:Ha; [|exact H].
  unfold Artifacts.save_file_info. cbn [fst snd].
  destruct (Artifacts.items_loop _ _ _ _ _) as [e|info'].
  - cbn. intros a' [= <-]. exact (H a Ha).
  - match goal with
    | |- context [Artifacts._save_manifest ?j ?st] =>
        pose proof (save_manifest_manager j st) as Hm;
        destruct (Artifacts._save_manifest j st) as [[e|[]] [a' fs]]
    end; cbn in Hm; subst a'; cbn; intros a' [= <-];
      cbn [Artifacts.append_artifact Artifacts.manifest_of Artifacts.artifacts];
      (apply Forall_app; split; [exact (H a Ha)|]);
      apply Forall_singleton; exists s; (split; [exact Hs|]);
      cbn [entry_stage dict_get String.eqb Ascii.eqb Bool.eqb];
      rewrite Hstage; reflexivity.
Qed.

Lemma save_final_report_recorded env report stages x :
  recorded_within stages x ->
  recorded_within stages (snd (save_final_report env report x)).
Proof.
  intros H. unfold save_final_report, bind, ret, on_artifact_manager.
  destruct (artifact_manager x) as [a|] eqn:Ha; [|exact H].
  unfold Artifacts.save_final_report, bind, ret, Artifacts.on_files. cbn [fst snd].
  destruct (Artifacts.write_document _ _ (disk x)) as [[e|[]] fs1].
  - cbn. intros a' [= <-]. exact (H a Ha).
  - cbn [fst snd].
    match goal with
    | |- context [Artifacts._save_manifest ?j ?st] =>
        pose proof (save_manifest_manager j st) as Hm;
        destruct (Artifacts._save_manifest j st) as [[e|[]] [a' fs]]
    end; cbn in Hm; subst a'; cbn; intros a' [= <-]; exact (H a Ha).
Qed.

Lemma new_artifact_manager_recorded env pid dir x :
  fst (new_artifact_manager env pid dir x) = Returned tt ->
  recorded_within [] (snd (new_artifact_manager env pid dir x)).
Proof.
  unfold new_artifact_manager, Artifacts.new.
  destruct (mkdir dir (disk x)) as [[e|[]] fs1]; [discriminate|].
  match goal with
  | |- context [Artifacts._save_manifest ?j ?st] =>
      pose proof (save_manifest_manager j st) as Hm;
      destruct (Artifacts._save_manifest j st) as [[e|[]] [a' fs]]
  end; [discriminate|].
  cbn in Hm. subst a'. intros _ a [= <-]. constructor.
Qed.

(** *** One run of [process_conversion] *)
Section Conversion.
Variable env : environment.
Variable pid : string.
Variable procs0 : gmap string process.
Variable inv0 : list stage.

(** A predicate on the entries and one on what the run leaves. *)
Definition both (F : gmap string process -> Prop) (G : effects -> Prop) (w : world)
  : Prop :=
  F (active_processes w) /\ G (fx w).

(** The entries of the other processes are as they were. *)
Definition others (procs : gmap string process) : Prop :=
  forall pid', pid' <> pid -> procs !! pid' = procs0 !! pid'.

Definition nocancel (s : stage) : Prop := cancel_during env s = false.

Definition registered_entry (procs : gmap string process) : Prop :=
  others procs /\ is_Some (procs !! pid).

(** Between two stages: a cancel request served during one of the [n]
    stages called so far has left the status cancelled. *)
Definition entry_between (n : nat) (procs : gmap string process) : Prop :=
  others procs
  /\ exists p, procs !! pid = Some p
               /\ (status p = "cancelled" \/ Forall nocancel (take n (pipeline true))).

(** While a collaborator runs: the status is one a cancel request accepts. *)
Definition entry_live (procs : gmap string process) : Prop :=
  others procs /\ exists p, procs !! pid = Some p /\ finished (status p) = false.

Definition calls_between (n : nat) (x : effects) : Prop :=
  invoked x = inv0 ++ take n (pipeline true)
  /\ Forall nocancel (take (pred n) (pipeline true))
  /\ recorded_within (take n (pipeline true)) x.

Definition calls_live (n : nat) (x : effects) : Prop :=
  invoked x = inv0 ++ take n (pipeline true)
  /\ Forall nocancel (take n (pipeline true))
  /\ recorded_within (take n (pipeline true)) x.

(** Where a run can stop: before any collaborator was called, or after
    the call of a stage before which no cancel request was served; the
    manifest has entries of the stages called and no other. *)
Definition calls_halted (x : effects) : Prop :=
  invoked x = inv0
  \/ exists n s,
       pipeline true !! n = Some s
       /\ invoked x = inv0 ++ take (S n) (pipeline true)
       /\ Forall nocancel (take n (pipeline true))
       /\ recorded_within (take (S n) (pipeline true)) x.

Definition ready : world -> Prop := both registered_entry (fun x => invoked x = inv0).
Definition at_boundary (n : nat) : world -> Prop := both (entry_between n) (calls_between n).
Definition in_stage (n : nat) : world -> Prop := both entry_live (calls_live n).
Definition halted (e : string) : world -> Prop := both registered_entry calls_halted.

Lemma entry_between_registered n procs : entry_between n procs -> registered_entry procs.
Proof. intros (Ho & p & Hp & _). split; [exact Ho | eexists; exact Hp]. Qed.

Lemma entry_live_registered procs : entry_live procs -> registered_entry procs.
Proof. intros (Ho & p & Hp & _). split; [exact Ho | eexists; exact Hp]. Qed.

Lemma calls_between_halted n x : (n <= 6)%nat -> calls_between n x -> calls_halted x.
Proof.
  intros Hn (Hinv & Hnc & Hrec). destruct n as [|n].
  - left. rewrite Hinv. apply app_nil_r.
  - right. destruct (lookup_lt_is_Some_2 (pipeline true) n) as [s Hs]; [cbn; lia|].
    exists n, s. repeat split; assumption.
Qed.

Lemma calls_live_between n x : calls_live n x -> calls_between n x.
Proof.
  intros (Hinv & Hnc & Hrec). split; [exact Hinv|]. split; [|exact Hrec].
  apply (Forall_take_le _ _ _ n); [lia | exact Hnc].
Qed.

Lemma ready_halted e w : ready w -> halted e w.
Proof. intros [HF HG]. split; [exact HF | left; exact HG]. Qed.

Lemma at_boundary_halted n e w : (n <= 6)%nat -> at_boundary n w -> halted e w.
Proof.
  intros Hn [HF HG]. split; [exact (entry_between_registered n _ HF)|].
  exact (calls_between_halted n _ Hn HG).
Qed.

Lemma in_stage_halted n e w : (n <= 6)%nat -> in_stage n w -> halted e w.
Proof.
  intros Hn [HF HG]. split; [exact (entry_live_registered _ HF)|].
  exact (calls_between_halted n _ Hn (calls_live_between n _ HG)).
Qed.

(** A statement on what the run leaves keeps the entries. *)
Lemma lift_both {A} F (G G' : effects -> Prop) (m : M effects A) :
  (forall x, G x -> G' (snd (m x))) ->
  triple (both F G) (lift m) (fun _ => both F G') (fun _ => both F G').
Proof.
  intros Hm w [HF HG]. unfold lift. specialize (Hm (fx w) HG).
  destruct (m (fx w)) as [[e|a] x]; split; assumption.
Qed.

(** Reading an entry changes nothing. *)
Lemma entry_steady {A} (P : world -> Prop) (key : process -> A) E :
  (forall e w, P w -> E e w) -> triple P (entry pid key) (fun _ => P) E.
Proof.
  intros HE w Hw. unfold entry.
  destruct (active_processes w !! pid); [exact Hw | exact (HE _ w Hw)].
Qed.

Lemma others_insert procs p : others procs -> others (<[pid := p]> procs).
Proof. intros H pid' Hne. rewrite lookup_insert_ne by congruence. exact (H pid' Hne). Qed.

Lemma step_assign f :
  triple ready (assign pid f) (fun _ => ready) halted.
Proof.
  intros w [[Ho [p Hp]] HG]. unfold assign. rewrite Hp.
  split; [|exact HG]. split; [apply others_insert; exact Ho|].
  cbn. rewrite lookup_insert_eq. eexists; reflexivity.
Qed.

Lemma step_ready {A} (m : M effects A) :
  calls_nothing m -> triple ready (lift m) (fun _ => ready) halted.
Proof.
  intros Hm.
  eapply triple_weaken;
    [apply (lift_both registered_entry (fun x => invoked x = inv0)
              (fun x => invoked x = inv0) m)
    | intros ? w H; exact H | intros e w H; exact (ready_halted e w H)].
  intros x Hx. rewrite (Hm x). exact Hx.
Qed.

Lemma step_new_artifact_manager process_id' dir :
  triple ready (lift (new_artifact_manager env process_id' dir))
    (fun _ => at_boundary 0) halted.
Proof.
  intros w [HF HG]. unfold lift.
  pose proof (calls_nothing_new_artifact_manager env process_id' dir (fx w)) as Hc.
  pose proof (new_artifact_manager_recorded env process_id' dir (fx w)) as Hr.
  destruct (new_artifact_manager env process_id' dir (fx w)) as [[e|[]] x];
    cbn [fst snd] in *; unfold at_boundary, halted, both; cbn [fx active_processes].
  - split; [exact HF|]. left. rewrite Hc. exact HG.
  - destruct HF as [Ho [p Hp]]. split.
    + split; [exact Ho|]. exists p. split; [exact Hp|]. right. constructor.
    + split; [rewrite Hc, HG; symmetry; apply app_nil_r|].
      split; [constructor | exact (Hr eq_refl)].
Qed.

Lemma step_quiet {A} n (m : M effects A) :
  (n <= 6)%nat -> quiet m ->
  triple (at_boundary n) (lift m) (fun _ => at_boundary n) halted.
Proof.
  intros Hn Hm.
  eapply triple_weaken;
    [apply (lift_both (entry_between n) (calls_between n) (calls_between n) m)
    | intros ? w H; exact H | intros e w H; exact (at_boundary_halted n e w Hn H)].
  intros x (Hinv & Hnc & Hrec). split; [rewrite (proj1 (Hm x)); exact Hinv|].
  split; [exact Hnc|]. apply recorded_within_quiet; assumption.
Qed.

Lemma step_save n s info :
  pipeline true !! n = Some s ->
  (forall now, dict_get "stage" (Artifacts.stamp now info) = Some (VStr (stage_name s))) ->
  triple (at_boundary (S n)) (lift (save_file_info env info))
    (fun _ => at_boundary (S n)) halted.
Proof.
  intros Hs Hstage.
  assert (S n <= 6)%nat as Hn.
  { apply lookup_lt_Some in Hs. change (length (pipeline true)) with 6%nat in Hs. lia. }
  eapply triple_weaken;
    [apply (lift_both (entry_between (S n)) (calls_between (S n)) (calls_between (S n))
              (save_file_info env info))
    | intros ? w H; exact H | intros e w H; exact (at_boundary_halted (S n) e w Hn H)].
  intros x (Hinv & Hnc & Hrec).
  split; [rewrite (calls_nothing_save_file_info env info x); exact Hinv|].
  split; [exact Hnc|].
  apply (save_file_info_recorded env info s); [apply Hstage | | exact Hrec].
  rewrite (take_S_r _ _ _ Hs). apply elem_of_app. right. left.
Qed.

Lemma step_save_final_report n report :
  (n <= 6)%nat ->
  triple (at_boundary n) (lift (save_final_report env report))
    (fun _ => at_boundary n) halted.
Proof.
  intros Hn.
  eapply triple_weaken;
    [apply (lift_both (entry_between n) (calls_between n) (calls_between n)
              (save_final_report env report))
    | intros ? w H; exact H | intros e w H; exact (at_boundary_halted n e w Hn H)].
  intros x (Hinv & Hnc & Hrec).
  split; [rewrite (calls_nothing_save_final_report env report x); exact Hinv|].
  split; [exact Hnc|]. apply save_final_report_recorded. exact Hrec.
Qed.

Lemma step_update n status' progress' stage' :
  (n <= 6)%nat -> finished status' = false ->
  triple (at_boundary n) (update_process_status pid status' progress' stage')
    (fun _ => in_stage n) halted.
Proof.
  intros Hn Hlive w Hw. pose proof Hw as [(Ho & p & Hp & Hc) (Hinv & Hnc & Hrec)].
  unfold update_process_status. rewrite Hp.
  destruct (String.eqb_spec (status p) "cancelled") as [E|E].
  - exact (at_boundary_halted n _ w Hn Hw).
  - destruct Hc as [Hc|Hc]; [contradiction|]. split.
    + split; [apply others_insert; exact Ho|]. cbn. rewrite lookup_insert_eq.
      eexists. split; [reflexivity | exact Hlive].
    + cbn. repeat split; assumption.
Qed.

Lemma step_invoke {A} n s (call : M filesystem A) :
  pipeline true !! n = Some s ->
  triple (in_stage n) (invoke env pid s call) (fun _ => at_boundary (S n)) halted.
Proof.
  intros Hs w [(Ho & p & Hp & Hlive) (Hinv & Hnc & Hrec)].
  assert (registered_entry
            (if cancel_during env s
             then snd (cancel_conversion pid (active_processes w))
             else active_processes w)) as Hreg.
  { destruct (cancel_during env s); [|split; [exact Ho | eexists; exact Hp]].
    rewrite (cancel_conversion_spec pid _ p Hp), Hlive. cbn [snd].
    split; [apply others_insert; exact Ho|]. rewrite lookup_insert_eq. eexists; reflexivity. }
  assert (recorded_within (take (S n) (pipeline true))
            (with_disk (snd (call (disk (fx w))))
               (with_invoked (invoked (fx w) ++ [s]) (fx w)))) as Hrec'.
  { apply (recorded_within_mono (take n (pipeline true))).
    - rewrite (take_S_r _ _ _ Hs). intros s' Hs'. apply elem_of_app. left. exact Hs'.
    - intros a Ha. exact (Hrec a Ha). }
  assert (invoked (fx w) ++ [s] = inv0 ++ take (S n) (pipeline true)) as Hinv'.
  { rewrite Hinv, (take_S_r _ _ _ Hs), app_assoc. reflexivity. }
  unfold invoke, Pipeline.invoke.
  destruct (call (disk (fx w))) as [[e|a] fs]; cbn [snd] in Hrec'.
  - split; [exact Hreg|]. right. exists n, s. split; [exact Hs|].
    split; [exact Hinv'|]. split; [exact Hnc | exact Hrec'].
  - split.
    + split; [exact (proj1 Hreg)|]. cbn [active_processes].
      destruct (cancel_during env s) eqn:Hc.
      * rewrite (cancel_conversion_spec pid _ p Hp), Hlive. cbn [snd].
        rewrite lookup_insert_eq. eexists. split; [reflexivity | left; reflexivity].
      * exists p. split; [exact Hp|]. right.
        rewrite (take_S_r _ _ _ Hs), Forall_app, Forall_singleton. split; assumption.
    + split; [exact Hinv'|]. split; [exact Hnc | exact Hrec'].
Qed.

(** What a run comes to. *)
Definition outcome (w : world) : Prop :=
  others (active_processes w)
  /\ (exists p, active_processes w !! pid = Some p
                /\ progress p = 100
                /\ (status p = "completed"
                    \/ status p = "failed" /\ is_Some (error p)))
  /\ calls_halted (fx w).

Lemma step_completed n :
  (n <= 6)%nat ->
  triple (at_boundary n)
    (update_process_status pid "completed" 100 "Conversion terminée")
    (fun _ => outcome) halted.
Proof.
  intros Hn w Hw. pose proof Hw as [(Ho & p & Hp & Hc) HG].
  unfold update_process_status. rewrite Hp.
  destruct (String.eqb_spec (status p) "cancelled") as [E|E].
  - exact (at_boundary_halted n _ w Hn Hw).
  - split; [apply others_insert; exact Ho|]. split.
    + cbn. rewrite lookup_insert_eq. eexists. split; [reflexivity|].
      split; [reflexivity | left; reflexivity].
    + exact (calls_between_halted n _ Hn HG).
Qed.

Lemma conversion_handler_fails e :
  triple (halted e)
    (try_pass (lift (on_audit_logger (Audit.log_error e))) ;;
     assign pid (set_failed e))%py
    (fun _ => outcome) (fun _ _ => False).
Proof.
  eapply triple_bind with (R := fun _ => halted e).
  - unfold try_pass. apply triple_try_except with (R := fun _ => halted e).
    + apply (lift_both registered_entry calls_halted calls_halted).
      intros x [Hinv|(n & s & Hs & Hinv & Hnc & Hrec)];
        pose proof (quiet_on_audit_logger (Audit.log_error e) x) as [Hq1 Hq2].
      * left. rewrite Hq1. exact Hinv.
      * right. exists n, s. split; [exact Hs|]. split; [rewrite Hq1; exact Hinv|].
        split; [exact Hnc|]. apply recorded_within_quiet; [|exact Hrec].
        apply quiet_on_audit_logger.
    + intros e'. apply triple_ret.
  - intros _ w [[Ho [p Hp]] HG]. unfold assign. rewrite Hp.
    split; [apply others_insert; exact Ho|]. split; [|exact HG].
    cbn. rewrite lookup_insert_eq. eexists. split; [reflexivity|].
    split; [reflexivity | right; split; [reflexivity | eexists; reflexivity]].
Qed.

Ltac intro_value :=
  let x := fresh "x" in
  intros x;
  repeat match goal with
         | y : (_ * _)%type |- _ => destruct y
         end;
  cbv beta iota.

Ltac advance :=
  lazymatch goal with
  | |- triple ready (bind (assign _ _) _) _ _ =>
      eapply triple_bind; [apply step_assign | intro_value]
  | |- triple ready (bind (entry _ _) _) _ _ =>
      eapply triple_bind; [apply entry_steady; exact ready_halted | intro_value]
  | |- triple ready (bind (lift (new_artifact_manager _ _ _)) _) _ _ =>
      eapply triple_bind; [apply step_new_artifact_manager | intro_value]
  | |- triple ready (bind (lift _) _) _ _ =>
      eapply triple_bind; [apply step_ready; auto with calls | intro_value]
  | |- triple (at_boundary ?n) (bind (update_process_status _ _ _ _) _) _ _ =>
      eapply triple_bind; [apply (step_update n); [lia | reflexivity] | intro_value]
  | |- triple (in_stage ?n) (bind (invoke _ _ ?s ?call) _) _ _ =>
      eapply triple_bind; [apply (step_invoke n s call); reflexivity | intro_value]
  | |- triple (at_boundary _) (bind (lift (save_file_info _ _)) _) _ _ =>
      eapply triple_bind;
        [eapply step_save; [reflexivity | intros; reflexivity] | intro_value]
  | |- triple (at_boundary ?n) (bind (lift (save_final_report _ _)) _) _ _ =>
      eapply triple_bind; [apply (step_save_final_report n); lia | intro_value]
  | |- triple (at_boundary ?n) (bind (entry _ _) _) _ _ =>
      eapply triple_bind;
        [apply entry_steady; intros ? ?; apply (at_boundary_halted n); lia
        | intro_value]
  | |- triple (at_boundary ?n) (bind (lift _) _) _ _ =>
      eapply triple_bind; [apply (step_quiet n); [lia | auto with calls] | intro_value]
  end.

Lemma tail_of_conversion n url published output_path result optimized_path
    optimized_hash metadata :
  (n <= 6)%nat ->
  triple (at_boundary n)
    (end_time ← lift time_now ;
     start_time ← entry pid started_at ;
     final_report ←
       lift (save_final_report env
               [("process_id", VStr pid); ("url", VStr url);
                ("start_time", VInt start_time); ("end_time", VInt end_time);
                ("total_time", VInt (end_time - start_time));
                ("output_path", VStr output_path);
                ("final_video", VStr optimized_path);
                ("final_hash", VStr optimized_hash);
                ("tiktok_published", VBool published);
                ("tiktok_result", result); ("metadata", metadata);
                ("download_url", VStr ("/api/download/" +:+ pid))]) ;
     lift (log_completion (VDict final_report)) ;;
     update_process_status pid "completed" 100 "Conversion terminée")%py
    (fun _ => outcome) halted.
Proof. intros Hn. do 4 advance. apply step_completed. exact Hn. Qed.

(** What a run of [process_conversion] comes to, for a registered
    process. *)
Lemma process_conversion_outcome url publish :
  triple ready (process_conversion env pid url publish)
    (fun _ => outcome) (fun _ _ => False).
Proof.
  unfold process_conversion.
  apply triple_try_except with (R := halted); [|exact conversion_handler_fails].
  repeat advance.
  destruct publish.
  - eapply triple_bind with (R := fun _ => at_boundary 6).
    + repeat advance. apply triple_ret.
    + intro_value. apply tail_of_conversion. lia.
  - eapply triple_bind with (R := fun _ => at_boundary 5).
    + apply triple_ret.
    + intro_value. apply tail_of_conversion. lia.
Qed.

End Conversion.


(** *** A cancel request accepted before the run begins *)








(** A freshly registered process. *)
Definition registered : world :=
  {| active_processes := {[ "p1" := new_process "p1" 1000 ]}; fx := quiet_effects |}.

Lemma ready_start pid w :
  is_Some (active_processes w !! pid) ->
  ready pid (active_processes w) (invoked (fx w)) w.
Proof. intros Hp. split; [split; [intros pid' _; reflexivity | exact Hp] | reflexivity]. Qed.



(** The entry of a process whose editing stage is running. *)
Definition in_editing : process :=
  {| status := "editing"; progress := 40; current_stage := "Montage de la vidéo";
     started_at := 1000; output_dir := "data/output/p1"; error := None |}.


(** C6 (amended): [update_process_status] on a cancelled process raises and
    leaves the state unchanged, and a cancel request on a completed or failed
    process is refused and leaves the state unchanged. *)
Theorem cancelled_process_refuses_updates :
  (forall pid status' progress' stage' w p,
      active_processes w !! pid = Some p ->
      status p = "cancelled" ->
      update_process_status pid status' progress' stage' w
      = (Raised "Processus annulé par l'utilisateur", w))
  /\ (forall pid procs p,
        procs !! pid = Some p ->
        finished (status p) = true ->
        cancel_conversion pid procs
        = (HTTPException 400 "Processus déjà terminé", procs)).
Proof.
  split; [exact update_process_status_cancelled|].
  intros pid procs p Hp Hf. rewrite (cancel_conversion_spec pid procs p Hp), Hf.
  reflexivity.
Qed.

Definition cancelled_world : world :=
  {| active_processes := {[ "p1" := cancelled in_editing ]}; fx := quiet_effects |}.

(** The theorem at a process cancelled mid-editing. *)
Lemma cancelled_process_refuses_updates_witness :
  update_process_status "p1" "adapting" 60 "Adaptation au format TikTok" cancelled_world
  = (Raised "Processus annulé par l'utilisateur", cancelled_world).
Proof.
  apply (proj1 cancelled_process_refuses_updates "p1" "adapting" 60
           "Adaptation au format TikTok" cancelled_world (cancelled in_editing)).
  - reflexivity.
  - reflexivity.
Defined.

Definition completed : process :=
  {| status := "completed"; progress := 100; current_stage := "Conversion terminée";
     started_at := 1000; output_dir := "data/output/p1"; error := None |}.

Definition failed_task : Worker.task :=
  Worker.set_status "failed" 100 "Erreur: boom" 1000 LeaseProofs.task_A.

(** C6, as stated, fails: [update_process_status] on a completed process
    and [Worker.update_task_status] on a failed task both go through and
    change the state. *)
Lemma finished_process_accepts_updates :
  (active_processes
     (snd (update_process_status "p1" "downloading" 5 "Téléchargement de la vidéo"
             {| active_processes := {[ "p1" := completed ]}; fx := quiet_effects |}))
     !! "p1")
  = Some {| status := "downloading"; progress := 5;
            current_stage := "Téléchargement de la vidéo";
            started_at := 1000; output_dir := "data/output/p1"; error := None |}
  /\ Worker.tasks_collection
       (snd (Worker.update_task_status "task_A" "processing" 0 "Initialisation"
               {| Worker.tasks_collection := [failed_task];
                  Worker.results_collection := []; Worker.fx := quiet_effects |}))
     = [Worker.set_status "processing" 0 "Initialisation" 1000 LeaseProofs.task_A].
Proof. split; vm_compute; reflexivity. Qed.


End WebProofs.

Module ConversionProofs.
Import Py Runtime Os Pipeline Web Endpoints PipelineProofs Triples WebProofs.
#[local] Open Scope py_scope.

(** X12: with the entry of the process registered, a conversion always
    comes to an end and touches no other entry.  Whatever the collaborators
    do and whatever is on disk (an exception of a collaborator, of the
    hashing, of save_file_info or of a write, a cancel request served
    meanwhile), process_conversion returns; the entry is then completed or
    failed (with its error set), at progress 100, so the status route
    reports no time estimate for it; and the entries of the other processes
    are as they were. *)
Theorem process_conversion_always_finishes (env : environment) (pid url : string)
    (publish : bool) (w : world) (now : Z) :
  is_Some (active_processes w !! pid) ->
  exists w' st,
    process_conversion env pid url publish w = (Returned tt, w')
    /\ get_status now pid (active_processes w') = Ok st
    /\ cs_progress st = 100
    /\ cs_estimated_time_remaining st = None
    /\ (cs_status st = "completed"
        \/ cs_status st = "failed" /\ is_Some (cs_error st))
    /\ forall pid', pid' <> pid ->
         active_processes w' !! pid' = active_processes w !! pid'.
Proof.
  intros Hp.
  pose proof (process_conversion_outcome env pid (active_processes w) (invoked (fx w))
                url publish w (ready_start pid w Hp)) as H.
  destruct (process_conversion env pid url publish w) as [[e|[]] w']; [destruct H|].
  destruct H as (Hothers & (p & Hlk & Hpr & Hst) & _).
  exists w'. eexists. split; [reflexivity|].
  unfold get_status. rewrite Hlk. split; [reflexivity|].
  cbn [cs_progress cs_estimated_time_remaining cs_status cs_error].
  split; [exact Hpr|]. split; [rewrite Hpr; reflexivity|].
  split; [exact Hst | exact Hothers].
Qed.

(** The theorem at a process whose downloader leaves regular files: the
    conversion ends failed. *)
Lemma process_conversion_always_finishes_witness :
  exists w' st,
    process_conversion regular_files "p1" "https://youtu.be/x" false registered
    = (Returned tt, w')
    /\ get_status 2000 "p1" (active_processes w') = Ok st
    /\ cs_progress st = 100
    /\ cs_estimated_time_remaining st = None
    /\ (cs_status st = "completed"
        \/ cs_status st = "failed" /\ is_Some (cs_error st))
    /\ forall pid', pid' <> "p1" ->
         active_processes w' !! pid' = active_processes registered !! pid'.
Proof.
  apply (process_conversion_always_finishes regular_files "p1" "https://youtu.be/x"
           false registered 2000).
  eexists. reflexivity.
Defined.

(** *** A cancel request served before the conversion starts *)

(** The output directory can be made and the manifest written in it: the
    set-up of the run raises nothing. *)
Definition set_up_succeeds (env : environment) (dir : string) (fs : filesystem) : bool :=
  match mkdir dir fs with
  | (Returned _, fs') => negb (isdir fs' (path_join env dir "artifacts_manifest.json"))
  | (Raised _, _) => false
  end.




Section Start.
Variable env : environment.
Variable pid : string.
Variable dir : string.
Variable inv0 : list stage.










Ltac intro_value :=
  let x := fresh "x" in
  intros x;
  repeat match goal with
         | y : (_ * _)%type |- _ => destruct y
         end;
  cbv beta iota.




End Start.



(** The set-up of the run of a newly registered process succeeds. *)
Lemma set_up_of_a_registered_process :
  set_up_succeeds regular_files (output_dir (new_process "p1" 1000))
    (disk (fx registered)) = true.
Proof. reflexivity. Qed.

End ConversionProofs.

Module ArtifactProofs.
Import Py Runtime Os Artifacts.

(** [s.endswith(suffix)] *)
Fixpoint ends_with (suffix s : string) : bool :=
  String.eqb suffix s ||
  match s with
  | EmptyString => false
  | String _ s' => ends_with suffix s'
  end.

Lemma ends_with_app suffix k : ends_with suffix (k +:+ suffix) = true.
Proof.
  induction k as [|c k IH]; simpl.
  - destruct suffix; simpl; [reflexivity|].
    rewrite Ascii.eqb_refl, String.eqb_refl. reflexivity.
  - rewrite IH. apply orb_true_r.
Qed.

Lemma not_suffixed k k' : ends_with "_info" k = false -> k <> k' +:+ "_info".
Proof. intros H ->. rewrite ends_with_app in H. discriminate. Qed.

Definition changed_size : string := "dictionary changed size during iteration".

(** The path names a special file. *)
Definition special (fs : filesystem) (p : string) : bool :=
  match fs !! p with
  | Some (Device _ _) => true
  | _ => false
  end.

(** The files after [json.dump(v, f, indent=2)] into [p], which is no
    directory: what is written to a special file does not stay. *)
Definition write_to (p : string) (v : value) (fs : filesystem) : filesystem :=
  if special fs p then fs else <[p := Document v]> fs.

(** No value of the dict is the path of a file the loop would hash. *)
Definition names_no_file (fs : filesystem) (d : dict) : bool :=
  forallb (fun kv => match file_info fs (snd kv) with None => true | Some _ => false end) d.

Lemma dict_get_None k d : dict_get k d = None <-> k ∉ map fst d.
Proof.
  induction d as [|[k' v] d IH]; simpl.
  - split; [intros _; apply not_elem_of_nil | reflexivity].
  - destruct (String.eqb_spec k k') as [->|Hne].
    + split; [discriminate|]. intros H. exfalso. apply H. left.
    + rewrite IH, not_elem_of_cons. tauto.
Qed.

Lemma dict_get_lookup k d v : dict_get k d = Some v -> exists i, d !! i = Some (k, v).
Proof.
  induction d as [|[k' v'] d IH]; simpl; [discriminate|].
  destruct (String.eqb_spec k k') as [->|Hne].
  - intros [= ->]. exists 0%nat. reflexivity.
  - intros H. destruct (IH H) as [i Hi]. exists (S i). exact Hi.
Qed.

Lemma dict_set_absent k v d : k ∉ map fst d -> dict_set k v d = d ++ [(k, v)].
Proof.
  induction d as [|[k' v'] d IH]; simpl; [reflexivity|].
  rewrite not_elem_of_cons. intros [Hne H].
  destruct (String.eqb_spec k k') as [->|_]; [contradiction|].
  rewrite (IH H). reflexivity.
Qed.

Lemma dict_set_keys k v d : k ∈ map fst d -> map fst (dict_set k v d) = map fst d.
Proof.
  induction d as [|[k' v'] d IH]; simpl.
  - intros H. inversion H.
  - destruct (String.eqb_spec k k') as [->|Hne]; [reflexivity|].
    rewrite elem_of_cons. intros [?|H]; [contradiction|].
    simpl. rewrite (IH H). reflexivity.
Qed.

Lemma dict_set_other k v d : forall i k' v',
  k' <> k -> d !! i = Some (k', v') -> dict_set k v d !! i = Some (k', v').
Proof.
  induction d as [|[k0 v0] d IH]; intros i k' v' Hne; simpl; [discriminate|].
  destruct (String.eqb_spec k k0) as [->|Hne0].
  - destruct i; simpl; [intros [= -> ->]; contradiction | trivial].
  - destruct i; simpl; [trivial | apply IH; exact Hne].
Qed.

Lemma dict_get_set_other k k' v d : k' <> k -> dict_get k' (dict_set k v d) = dict_get k' d.
Proof.
  intros Hne. induction d as [|[k0 v0] d IH]; simpl.
  - destruct (String.eqb_spec k' k); [contradiction | reflexivity].
  - destruct (String.eqb_spec k k0) as [->|Hne0]; simpl.
    + destruct (String.eqb_spec k' k0); [contradiction | reflexivity].
    + rewrite IH. reflexivity.
Qed.

Lemma dict_get_set_same k v d : dict_get k (dict_set k v d) = Some v.
Proof.
  induction d as [|[k0 v0] d IH]; simpl.
  - rewrite String.eqb_refl. reflexivity.
  - destruct (String.eqb_spec k k0) as [->|Hne]; simpl.
    + rewrite String.eqb_refl. reflexivity.
    + destruct (String.eqb_spec k k0); [contradiction | exact IH].
Qed.

Lemma dict_set_length k v d :
  length (dict_set k v d) = length d \/ k ∉ map fst d.
Proof.
  destruct (decide (k ∈ map fst d)) as [Hin|Hout]; [left | right; exact Hout].
  rewrite <- (length_map fst (dict_set k v d)), (dict_set_keys _ _ _ Hin).
  apply length_map.
Qed.

Lemma items_loop_grown fs pos remaining used d :
  length d <> used -> items_loop fs pos remaining used d = Raised changed_size.
Proof.
  intros H. destruct remaining; simpl;
    destruct (Nat.eqb_spec (length d) used); try contradiction; reflexivity.
Qed.

Lemma items_loop_next fs pos remaining used d :
  length d = used ->
  items_loop fs pos (S remaining) used d =
  match d !! pos with
  | Some (key, v) => items_loop fs (S pos) remaining used (visit fs key v d)
  | None => Returned d
  end.
Proof. intros <-. simpl. rewrite Nat.eqb_refl. reflexivity. Qed.

Lemma items_loop_end fs pos used d :
  length d = used -> items_loop fs pos 0 used d = Returned d.
Proof. intros <-. simpl. rewrite Nat.eqb_refl. reflexivity. Qed.

(** Once the loop is to reach an item whose value is a file path and whose
    companion key is missing, it raises. *)
Lemma items_loop_raises fs used i k p info :
  (forall k', k <> k' +:+ "_info") ->
  file_info fs (VStr p) = Some info ->
  forall remaining pos d,
    (pos + remaining)%nat = used -> (pos <= i)%nat -> length d = used ->
    d !! i = Some (k, VStr p) -> (k +:+ "_info") ∉ map fst d ->
    items_loop fs pos remaining used d = Raised changed_size.
Proof.
  intros Hk Hfile. induction remaining as [|r IH]; intros pos d Hsum Hle Hlen Hi Hout.
  - apply lookup_lt_Some in Hi. lia.
  - rewrite (items_loop_next _ _ _ _ _ Hlen).
    destruct (decide (pos = i)) as [->|Hne].
    + rewrite Hi. apply items_loop_grown.
      unfold visit. rewrite Hfile, (dict_set_absent _ _ _ Hout), length_app. simpl. lia.
    + assert (Hpos : (pos < length d)%nat) by (apply lookup_lt_Some in Hi; lia).
      destruct (lookup_lt_is_Some_2 d pos Hpos) as [[key v] Hkv]. rewrite Hkv.
      unfold visit. destruct (file_info fs v) as [info'|].
      * destruct (decide ((key +:+ "_info") ∈ map fst d)) as [Hin|Hnew].
        -- apply IH; [lia | lia | | |].
           ++ rewrite <- (length_map fst), (dict_set_keys _ _ _ Hin), length_map. exact Hlen.
           ++ apply dict_set_other; [apply Hk | exact Hi].
           ++ rewrite (dict_set_keys _ _ _ Hin). exact Hout.
        -- apply items_loop_grown.
           rewrite (dict_set_absent _ _ _ Hnew), length_app. simpl. lia.
      * apply IH; [lia | lia | exact Hlen | exact Hi | exact Hout].
Qed.

(** A loop that meets no file path leaves the dict as it is. *)
Lemma items_loop_quiet fs used d :
  names_no_file fs d = true -> length d = used ->
  forall remaining pos, items_loop fs pos remaining used d = Returned d.
Proof.
  intros Hquiet Hlen. induction remaining as [|r IH]; intros pos;
    [apply items_loop_end; exact Hlen | rewrite (items_loop_next _ _ _ _ _ Hlen)].
  destruct (d !! pos) as [[key v]|] eqn:Hkv; [|reflexivity].
  unfold names_no_file in Hquiet. rewrite forallb_forall in Hquiet.
  apply list_elem_of_lookup_2, list_elem_of_In, Hquiet in Hkv. simpl in Hkv.
  unfold visit. destruct (file_info fs v); [discriminate | apply IH].
Qed.

Lemma read_bytes_file_info fs p content :
  isfile fs p = true -> read_bytes fs p = Returned content ->
  exists info, file_info fs (VStr p) = Some info.
Proof.
  unfold file_info, read_bytes, path_exists, isfile, getsize.
  destruct (fs !! p) as [[[] c| |v|[] c]|] eqn:Hp; try discriminate; intros _ _;
    (rewrite bool_decide_eq_true_2 by (eexists; reflexivity)); simpl; eexists; reflexivity.
Qed.

Lemma stamp_keeps now d k v :
  k <> "timestamp" -> k <> "datetime" -> dict_get k d = v -> dict_get k (stamp now d) = v.
Proof.
  intros H1 H2 <-. unfold stamp.
  rewrite !dict_get_set_other by assumption. reflexivity.
Qed.

Section Manager.
Variable path_join : string -> string -> string.

(** The general form of the failure of [save_file_info]. *)
Lemma save_file_info_changed_size now artifact_info s k p content :
  dict_get k artifact_info = Some (VStr p) ->
  k <> "timestamp" -> k <> "datetime" ->
  ends_with "_info" k = false ->
  dict_get (k +:+ "_info") artifact_info = None ->
  isfile (snd s) p = true ->
  read_bytes (snd s) p = Returned content ->
  save_file_info path_join now artifact_info s = (Raised changed_size, s).
Proof.
  intros Hk Ht Hd Hsuffix Hcompanion Hfile Hread.
  destruct (read_bytes_file_info _ _ _ Hfile Hread) as [info Hinfo].
  pose proof (stamp_keeps now _ _ _ Ht Hd Hk) as Hk'.
  destruct (dict_get_lookup _ _ _ Hk') as [i Hi].
  assert (Hout : (k +:+ "_info") ∉ map fst (stamp now artifact_info)).
  { apply dict_get_None. apply stamp_keeps; [| | exact Hcompanion];
      intros E; pose proof (ends_with_app "_info" k) as Hs; rewrite E in Hs;
      vm_compute in Hs; discriminate. }
  unfold save_file_info.
  rewrite (items_loop_raises (snd s) (length (stamp now artifact_info)) i k p info
             (fun k' => not_suffixed k k' Hsuffix)
             Hinfo _ 0%nat _ eq_refl (Nat.le_0_l _) eq_refl Hi Hout).
  reflexivity.
Qed.

(** X1: when a value of artifact_info is the path of a regular file that can
    be read, under a key that does not end in _info and has no <key>_info
    companion yet, save_file_info raises RuntimeError (the dict grows while
    its items are iterated); the manifest is neither extended nor written. *)
Theorem save_file_info_raises_on_a_file_path (now : reading)
    (artifact_info : dict) (self : ArtifactManager) (fs : filesystem)
    (key path : string) (content : list Z) :
  dict_get key artifact_info = Some (VStr path) ->
  isfile fs path = true ->
  read_bytes fs path = Returned content ->
  key <> "timestamp" -> key <> "datetime" ->
  ends_with "_info" key = false ->
  dict_get (key +:+ "_info") artifact_info = None ->
  save_file_info path_join now artifact_info (self, fs)
  = (Raised "dictionary changed size during iteration", (self, fs)).
Proof.
  intros Hkey Hfile Hread Ht Hd Hsuffix Hcompanion.
  exact (save_file_info_changed_size now artifact_info (self, fs) key path content
           Hkey Ht Hd Hsuffix Hcompanion Hfile Hread).
Qed.

(** The manifest entry of an artifact_info that names no file. *)
Definition artifact_entry (now : reading) (artifact_info : dict) : value :=
  let stage := default (VStr "unknown") (dict_get "stage" artifact_info) in
  VDict [("id", VStr (PyText.str stage +:+ "_" +:+ json_int (time now)));
         ("stage", stage);
         ("timestamp", VInt (time now));
         ("datetime", VStr (isoformat now));
         ("info", VDict (stamp now artifact_info))].

Lemma write_document_file p v fs :
  isdir fs p = false -> write_document p v fs = (Returned tt, write_to p v fs).
Proof.
  unfold isdir, write_document, write_to, special.
  destruct (fs !! p) as [[]|]; try discriminate; reflexivity.
Qed.

(** X2: when no value of artifact_info (the two stamps included) is the path
    of a readable regular file, save_file_info returns; the manifest gets
    exactly one more entry, at its end, with the stamped artifact_info under
    info, and the manifest file holds the manifest as it then is (unless the
    manifest path names a special file, which keeps nothing). *)
Theorem save_file_info_appends_one_entry (now : reading) (artifact_info : dict)
    (self : ArtifactManager) (fs : filesystem) :
  names_no_file fs (stamp now artifact_info) = true ->
  isdir fs (manifest_file path_join self) = false ->
  let self' := append_artifact (artifact_entry now artifact_info) self in
  save_file_info path_join now artifact_info (self, fs)
  = (Returned (stamp now artifact_info),
     (self',
      write_to (manifest_file path_join self) (manifest_value (manifest_of self')) fs))
  /\ artifacts (manifest_of self')
     = artifacts (manifest_of self) ++ [artifact_entry now artifact_info].
Proof.
  intros Hquiet Hdir self'. split; [|reflexivity].
  unfold save_file_info. cbn [fst snd].
  rewrite (items_loop_quiet fs _ _ Hquiet eq_refl).
  unfold _save_manifest, on_files. cbn [fst snd].
  change (manifest_file path_join (append_artifact _ self))
    with (manifest_file path_join self).
  rewrite (write_document_file _ _ _ Hdir).
  unfold self', artifact_entry, item, stamp.
  rewrite !dict_get_set_other by discriminate.
  rewrite !dict_get_set_same. reflexivity.
Qed.

(** X3: the acquisition record as worker.py and web/app.py build it is never
    saved when the video is a regular file: once generate_file_hash has
    returned a hash for a video_path that os.path.isfile accepts,
    save_file_info of that record raises RuntimeError and leaves the
    manifest as it was, whatever the other values are.  (A special file such
    as /dev/null is hashed too, but is no regular file: its record is
    saved.) *)
Theorem acquisition_record_is_never_saved (now : reading) (fs : filesystem)
    (validator validator' : Integrity.IntegrityValidator) (manager : ArtifactManager)
    (video_path video_hash audio_path audio_hash : string) (video_info : value) :
  FileIntegrity.generate_file_hash fs video_path validator
  = (Returned video_hash, validator') ->
  isfile fs video_path = true ->
  save_file_info path_join now
    [("stage", VStr "acquisition");
     ("video_path", VStr video_path); ("video_hash", VStr video_hash);
     ("audio_path", VStr audio_path); ("audio_hash", VStr audio_hash);
     ("video_info", video_info)] (manager, fs)
  = (Raised "dictionary changed size during iteration", (manager, fs)).
Proof.
  intros Hhash Hfile.
  assert (exists content, read_bytes fs video_path = Returned content) as [content Hread].
  { unfold FileIntegrity.generate_file_hash in Hhash.
    destruct (path_exists fs video_path); [|discriminate]. simpl in Hhash.
    destruct (read_bytes fs video_path) as [e|content]; [discriminate|].
    exists content. reflexivity. }
  apply (save_file_info_changed_size now _ (manager, fs) "video_path" video_path content);
    [reflexivity | discriminate | discriminate | reflexivity | reflexivity
    | exact Hfile | exact Hread].
Qed.

Lemma read_bytes_exists fs p content :
  read_bytes fs p = Returned content -> path_exists fs p = true.
Proof.
  unfold read_bytes, path_exists. destruct (fs !! p); [|discriminate].
  intros _. apply bool_decide_eq_true_2. eexists; reflexivity.
Qed.


(** X5: upload_to_s3 never returns the upload information of a readable
    regular file: when the S3 client fails the error is wrapped, and when the
    upload succeeds save_file_info raises on the record that names the file;
    either way a ValueError leaves, with the manifest and the files as they
    were. *)
Theorem upload_to_s3_never_returns_for_a_file
    (s3 : string -> string -> string -> s3_outcome) (now : reading)
    (file_path bucket_name : string) (object_key : option string) (s : state)
    (content : list Z) :
  isfile (snd s) file_path = true ->
  read_bytes (snd s) file_path = Returned content ->
  exists e,
    upload_to_s3 path_join s3 now file_path bucket_name object_key s = (Raised e, s)
    /\ (s3 file_path bucket_name
          (default (process_id (fst s) +:+ "/" +:+ basename file_path) object_key)
        = Uploaded ->
        e = "Erreur lors du téléchargement vers S3: dictionary changed size during iteration").
Proof.
  intros Hfile Hread. unfold upload_to_s3.
  rewrite (read_bytes_exists _ _ _ Hread). cbn [negb].
  destruct (s3 file_path bucket_name _) as [|e|e].
  - unfold reraise, try_except, bind, on_files, raise. cbn [fst snd].
    assert (exists size, getsize (snd s) file_path = Returned size) as [size ->].
    { unfold read_bytes in Hread. unfold getsize.
      destruct (snd s !! file_path) as [[]|]; try discriminate; eexists; reflexivity. }
    cbn [fst snd]. destruct s as [self fs]. cbn [fst snd] in *.
    match goal with
    | |- context [save_file_info path_join now ?info ?st] =>
        rewrite (save_file_info_changed_size now info st "file_path" file_path content
                   eq_refl ltac:(discriminate) ltac:(discriminate) eq_refl eq_refl
                   Hfile Hread)
    end.
    eexists. split; [reflexivity|]. intros _. reflexivity.
  - eexists. split; [reflexivity | discriminate].
  - eexists. split; [reflexivity | discriminate].
Qed.

(** The path of the archive [archive_artifacts] writes. *)
Definition archive_path_of (now : reading) (archive_name : option string)
    (self : ArtifactManager) : string :=
  path_join (output_dir self)
    (default ("artifacts_" +:+ process_id self +:+ "_" +:+ json_int (time now) +:+ ".zip")
       archive_name).

(** X6: archive_artifacts never returns the path of an archive that is a
    regular file: when the zipfile library has left a regular file at the
    archive path, either building or reading the archive raises, or
    save_file_info raises on the record that names the archive just
    written; a ValueError leaves and the manifest in memory stays as it
    was. *)
Theorem archive_artifacts_never_returns (zip : zipfile) (now : reading)
    (archive_name : option string) (s : state) :
  isfile
    (snd (write_archive path_join zip (archive_path_of now archive_name (fst s))
            (fst s) (snd s)))
    (archive_path_of now archive_name (fst s)) = true ->
  exists e s',
    archive_artifacts path_join zip now archive_name s = (Raised e, s')
    /\ fst s' = fst s.
Proof.
  unfold archive_path_of. intros Hfile.
  unfold archive_artifacts, reraise, try_except, bind, on_files, raise, ret.
  cbn [fst snd].
  destruct (write_archive path_join zip _ (fst s) (snd s)) as [[e|[]] fs1];
    cbn [fst snd] in *.
  { eexists _, _. split; reflexivity. }
  destruct (read_bytes fs1 _) as [e|content] eqn:Hread; cbn [fst snd].
  { eexists _, _. split; reflexivity. }
  destruct (getsize fs1 _) as [e|size]; cbn [fst snd].
  { eexists _, _. split; reflexivity. }
  match goal with
    | |- context [save_file_info path_join now ?info ?st] =>
        rewrite (save_file_info_changed_size now info st "archive_path" _ content
                   eq_refl ltac:(discriminate) ltac:(discriminate) eq_refl eq_refl
                   Hfile Hread)
    end.
  eexists _, _. split; reflexivity.
Qed.

(** [del d[k]], for checking a saved report. *)
Definition dict_remove (k : string) (d : dict) : dict :=
  List.filter (fun kv => negb (String.eqb (fst kv) k)) d.

Lemma dict_remove_absent k d : dict_get k d = None -> dict_remove k d = d.
Proof.
  induction d as [|[k' v] d IH]; simpl; [reflexivity|].
  rewrite (String.eqb_sym k' k).
  destruct (String.eqb k k'); [discriminate|]. simpl. intros H. rewrite (IH H). reflexivity.
Qed.

Lemma dict_remove_set k v d : dict_get k d = None -> dict_remove k (dict_set k v d) = d.
Proof.
  intros H. rewrite dict_set_absent by (apply dict_get_None; exact H).
  unfold dict_remove. rewrite List.filter_app. simpl. rewrite String.eqb_refl. simpl.
  rewrite app_nil_r. apply dict_remove_absent. exact H.
Qed.

Lemma write_document_Returned p v fs fs' :
  write_document p v fs = (Returned tt, fs') -> fs' = write_to p v fs.
Proof.
  unfold write_document, write_to, special.
  destruct (fs !! p) as [[]|]; intros [= <-]; reflexivity.
Qed.

Lemma write_to_other p v fs q : q <> p -> write_to p v fs !! q = fs !! q.
Proof.
  intros Hne. unfold write_to. destruct (special fs p); [reflexivity|].
  apply lookup_insert_ne. congruence.
Qed.

Lemma write_to_same p v fs :
  write_to p v fs !! p = (if special fs p then fs !! p else Some (Document v)).
Proof. unfold write_to. destruct (special fs p); [reflexivity | apply lookup_insert_eq]. Qed.

(** X7: a report saved by save_final_report, from report data without a
    report_hash key, carries under report_hash the digest of the report
    without that key: deleting the key and hashing what is left (JSON with
    sorted keys, SHA-256) gives the stored value back.  The same value is
    the final_report_hash of the manifest, whose final_report is the saved
    report, and final_report.json holds the saved report (a special file at
    its path keeps nothing and stays as it was). *)
Theorem saved_report_verifies_without_its_hash (now : reading) (report_data : dict)
    (s s' : state) (report_file : string) (report : dict) :
  dict_get "report_hash" report_data = None ->
  path_join (output_dir (fst s)) "final_report.json" <> manifest_file path_join (fst s) ->
  save_final_report path_join now report_data s = (Returned (report_file, report), s') ->
  exists report_hash,
    dict_get "report_hash" report = Some (VStr report_hash)
    /\ Integrity.data_digest (VDict (dict_remove "report_hash" report)) = report_hash
    /\ final_report_hash (manifest_of (fst s')) = Some report_hash
    /\ final_report (manifest_of (fst s')) = Some (VDict report)
    /\ report_file = path_join (output_dir (fst s)) "final_report.json"
    /\ snd s' !! report_file
       = (if special (snd s) report_file then snd s !! report_file
          else Some (Document (VDict report))).
Proof.
  intros Hnokey Hpaths Hsave.
  unfold save_final_report, bind, on_files, ret, _save_manifest in Hsave.
  cbn [fst snd] in Hsave.
  match type of Hsave with
  | context [dict_set "report_hash" (VStr ?h) ?d] =>
      set (report_hash := h) in *; set (d1 := d) in *
  end.
  destruct (write_document _ _ (snd s)) as [[e|[]] fs1] eqn:Hw1; [discriminate|].
  unfold on_files in Hsave. cbn [fst snd] in Hsave.
  match type of Hsave with
  | context [write_document ?p ?v fs1] =>
      destruct (write_document p v fs1) as [[e|[]] fs2] eqn:Hw2; [discriminate|]
  end.
  cbn [fst snd] in Hsave. injection Hsave as <- <- <-.
  apply write_document_Returned in Hw1, Hw2. subst fs1 fs2.
  assert (Hd1 : dict_get "report_hash" d1 = None).
  { unfold d1. rewrite !dict_get_set_other by discriminate. exact Hnokey. }
  exists report_hash. cbn [fst snd].
  split; [apply dict_get_set_same|].
  split; [rewrite (dict_remove_set _ _ _ Hd1); reflexivity|].
  split; [reflexivity|]. split; [reflexivity|]. split; [reflexivity|].
  rewrite write_to_other by exact Hpaths. apply write_to_same.
Qed.

End Manager.

(** A manager, a clock reading and a file to try the statements on. *)
Definition join (directory name : string) : string := directory +:+ "/" +:+ name.

Definition noon : reading :=
  {| time := 1700000000; isoformat := "2023-11-14T22:13:20.000001" |}.

Definition video : string := "data/temp/video.mp4".

Definition disk : filesystem := {[ video := File true [1; 2; 3] ]}.

Definition manager : ArtifactManager :=
  {| process_id := "p1"; output_dir := "data/output/p1";
     manifest_of :=
       {| m_process_id := "p1"; creation_time := 1699999999;
          creation_time_human := "2023-11-14T22:13:19.000001"; artifacts := [];
          final_report := None; final_report_hash := None |} |}.

Lemma save_file_info_raises_on_a_file_path_witness :
  save_file_info join noon
    [("stage", VStr "editing"); ("edited_video_path", VStr video);
     ("edited_hash", VStr "5d")] (manager, disk)
  = (Raised "dictionary changed size during iteration", (manager, disk)).
Proof.
  apply (save_file_info_raises_on_a_file_path join noon _ manager disk
           "edited_video_path" video [1; 2; 3]);
    [reflexivity | reflexivity | vm_compute; reflexivity | discriminate | discriminate
    | reflexivity | reflexivity].
Defined.

Lemma save_file_info_appends_one_entry_witness :
  let info := [("stage", VStr "analysis"); ("segments", VList [VInt 3; VInt 9])] in
  let self' := append_artifact (artifact_entry noon info) manager in
  save_file_info join noon info (manager, disk)
  = (Returned (stamp noon info),
     (self',
      write_to (manifest_file join manager) (manifest_value (manifest_of self')) disk))
  /\ artifacts (manifest_of self')
     = artifacts (manifest_of manager) ++ [artifact_entry noon info].
Proof.
  apply (save_file_info_appends_one_entry join noon
           [("stage", VStr "analysis"); ("segments", VList [VInt 3; VInt 9])]
           manager disk);
    vm_compute; reflexivity.
Defined.

Lemma acquisition_record_is_never_saved_witness :
  save_file_info join noon
    [("stage", VStr "acquisition");
     ("video_path", VStr video);
     ("video_hash", VStr (hex (Sha256.sha256 [1; 2; 3])));
     ("audio_path", VStr "data/temp/audio.mp3"); ("audio_hash", VStr "00");
     ("video_info", VDict [("title", VStr "t")])] (manager, disk)
  = (Raised "dictionary changed size during iteration", (manager, disk)).
Proof.
  apply (acquisition_record_is_never_saved join noon disk (Integrity.init "p1")
           (snd (FileIntegrity.generate_file_hash disk video (Integrity.init "p1")))).
  - vm_compute. reflexivity.
  - reflexivity.
Defined.



(** A zipfile library that makes the archive a regular file and appends
    the bytes of each member. *)
Definition plain_zip : zipfile :=
  {| zip_open := fun archive fs => (Returned tt, <[archive := File true []]> fs);
     zip_write := fun archive member _ fs =>
       match fs !! archive, read_bytes fs member with
       | Some (File readable content), Returned bytes =>
           (Returned tt, <[archive := File readable (content ++ bytes)]> fs)
       | _, Raised e => (Raised e, fs)
       | _, _ => (Raised "Attempt to write to ZIP archive that was already closed", fs)
       end;
     zip_close := fun _ => ret tt |}.

Lemma archive_artifacts_never_returns_witness :
  exists e s',
    archive_artifacts join plain_zip noon (Some "all.zip") (manager, disk) = (Raised e, s')
    /\ fst s' = fst (manager, disk).
Proof.
  apply (archive_artifacts_never_returns join plain_zip noon (Some "all.zip")
           (manager, disk)).
  vm_compute. reflexivity.
Defined.

Lemma upload_to_s3_never_returns_for_a_file_witness :
  exists e,
    upload_to_s3 join (fun _ _ _ => Uploaded) noon video "bucket" None (manager, disk)
    = (Raised e, (manager, disk))
    /\ ((fun _ _ _ => Uploaded) video "bucket"
          (default (process_id manager +:+ "/" +:+ basename video) None) = Uploaded ->
        e = "Erreur lors du téléchargement vers S3: dictionary changed size during iteration").
Proof.
  apply (upload_to_s3_never_returns_for_a_file join (fun _ _ _ => Uploaded) noon video
           "bucket" None (manager, disk) [1; 2; 3]).
  - reflexivity.
  - vm_compute. reflexivity.
Defined.

Definition sample_report : dict :=
  [("process_id", VStr "p1"); ("url", VStr "https://youtu.be/x");
   ("tiktok_published", VBool false)].

(** What save_final_report gives on that manager, and the report it saved. *)
Definition saved : result (string * dict) * state :=
  save_final_report join noon sample_report (manager, disk).

Definition saved_report : dict :=
  match fst saved with
  | Returned (_, report) => report
  | Raised _ => []
  end.

Lemma saved_report_verifies_without_its_hash_witness :
  exists report_hash,
    dict_get "report_hash" saved_report = Some (VStr report_hash)
    /\ Integrity.data_digest (VDict (dict_remove "report_hash" saved_report)) = report_hash
    /\ final_report_hash (manifest_of (fst (snd saved))) = Some report_hash
    /\ final_report (manifest_of (fst (snd saved))) = Some (VDict saved_report)
    /\ join "data/output/p1" "final_report.json"
       = join (output_dir (fst (manager, disk))) "final_report.json"
    /\ snd (snd saved) !! join "data/output/p1" "final_report.json"
       = (if special (snd (manager, disk)) (join "data/output/p1" "final_report.json")
          then snd (manager, disk) !! join "data/output/p1" "final_report.json"
          else Some (Document (VDict saved_report))).
Proof.
  apply (saved_report_verifies_without_its_hash join noon sample_report (manager, disk)
           (snd saved) (join "data/output/p1" "final_report.json") saved_report).
  - reflexivity.
  - discriminate.
  - vm_compute. reflexivity.
Defined.

End ArtifactProofs.

Module FileIntegrityProofs.
Import Py Runtime Os Integrity FileIntegrity.

Lemma validations_record validation_type details self :
  validations (_record_validation validation_type details self)
  = validations self ++ [(validation_type, details)].
Proof.
  unfold _record_validation. cbn [validations].
  destruct (_ =? _)%nat; reflexivity.
Qed.

Lemma generate_file_hash_Returned fs file_path self h self' :
  generate_file_hash fs file_path self = (Returned h, self') ->
  exists content,
    read_bytes fs file_path = Returned content /\ h = hex (Sha256.sha256 content).
Proof.
  unfold generate_file_hash.
  destruct (path_exists fs file_path); cbn [negb]; [|discriminate].
  destruct (read_bytes fs file_path) as [e|content]; [discriminate|].
  destruct (getsize fs file_path); [discriminate|].
  intros [= <- _]. exists content. split; reflexivity.
Qed.

Lemma getsize_of_read fs file_path content :
  read_bytes fs file_path = Returned content ->
  exists size, getsize fs file_path = Returned size.
Proof.
  unfold read_bytes, getsize.
  destruct (fs !! file_path) as [[]|]; try discriminate; intros _; eexists; reflexivity.
Qed.

Lemma path_exists_of_read fs file_path content :
  read_bytes fs file_path = Returned content -> path_exists fs file_path = true.
Proof.
  unfold read_bytes, path_exists. destruct (fs !! file_path); [|discriminate].
  intros _. apply bool_decide_eq_true_2. eexists; reflexivity.
Qed.

Lemma generate_file_hash_of_read fs file_path self content :
  read_bytes fs file_path = Returned content ->
  exists self',
    generate_file_hash fs file_path self = (Returned (hex (Sha256.sha256 content)), self').
Proof.
  intros Hread. unfold generate_file_hash.
  rewrite (path_exists_of_read _ _ _ Hread), Hread. cbn [negb].
  destruct (getsize_of_read _ _ _ Hread) as [size ->]. eexists. reflexivity.
Qed.

Lemma generate_file_hash_Raised fs file_path self :
  (forall content, read_bytes fs file_path <> Returned content) ->
  exists e, generate_file_hash fs file_path self = (Raised e, self).
Proof.
  intros Hread. unfold generate_file_hash.
  destruct (path_exists fs file_path); cbn [negb]; [|eexists; reflexivity].
  destruct (read_bytes fs file_path) as [e|content]; [eexists; reflexivity|].
  destruct (Hread content eq_refl).
Qed.

(** X8: a hash that generate_file_hash returned for a file validates that
    file, as long as the file is as it was, and no other str does:
    validate_file_integrity returns True exactly for the expected hash that
    equals the generated one. *)
Theorem generated_hash_validates_the_file (fs : filesystem) (file_path : string)
    (self self1 self2 : IntegrityValidator) (file_hash expected_hash : string) :
  generate_file_hash fs file_path self = (Returned file_hash, self1) ->
  fst (validate_file_integrity fs file_path (VStr expected_hash) self2) = true
  <-> expected_hash = file_hash.
Proof.
  intros Hhash.
  destruct (generate_file_hash_Returned _ _ _ _ _ Hhash) as [content [Hread ->]].
  unfold validate_file_integrity.
  destruct (generate_file_hash_of_read fs file_path self2 content Hread) as [self3 ->].
  cbn [fst py_eq]. rewrite String.eqb_eq. split; intros H; symmetry; exact H.
Qed.

(** X9: what one validate_file_integrity adds to the statistics of
    generate_full_report.  A file that can be read adds two validations (its
    hash, then the comparison), any other path one (the error); the count of
    successful validations grows by one exactly when the call returns True.
    A report of passing file checks only has a success rate of one half. *)
Theorem file_check_counts_twice_and_succeeds_once (fs : filesystem)
    (file_path : string) (expected_hash : value) (self : IntegrityValidator) :
  let outcome := validate_file_integrity fs file_path expected_hash self in
  let readable :=
    match read_bytes fs file_path with Returned _ => true | Raised _ => false end in
  fst (generate_full_report (snd outcome))
  = ((fst (statistics self) + (if readable then 2 else 1))%nat,
     (snd (statistics self) + (if fst outcome then 1 else 0))%nat)
  /\ (fst outcome = true -> readable = true).
Proof.
  intros outcome readable. unfold generate_full_report, statistics. cbn [fst snd].
  unfold outcome, readable, validate_file_integrity.
  destruct (read_bytes fs file_path) as [e|content] eqn:Hread.
  - destruct (generate_file_hash_Raised fs file_path self) as [e' ->].
    { intros content. rewrite Hread. discriminate. }
    cbn [fst snd]. rewrite validations_record, filter_app, !length_app.
    cbn. repeat case_decide; try congruence. cbn. split; [f_equal; lia | discriminate].
  - destruct (generate_file_hash_of_read fs file_path self content Hread) as [self' H'].
    rewrite H'. cbn [fst snd].
    assert (validations self'
            = validations self
              ++ [("file_hash",
                   VDict [("file_path", VStr file_path);
                          ("hash", VStr (hex (Sha256.sha256 content)));
                          ("algorithm", VStr "sha256");
                          ("file_size",
                           VInt match getsize fs file_path with
                                | Returned n => n
                                | Raised _ => 0
                                end)])]) as Hself'.
    { unfold generate_file_hash in H'.
      rewrite (path_exists_of_read _ _ _ Hread), Hread in H'. cbn [negb] in H'.
      destruct (getsize fs file_path); [discriminate|].
      injection H' as <-. apply validations_record. }
    rewrite validations_record, Hself', !filter_app, !length_app.
    split; [|reflexivity].
    destruct (py_eq _ expected_hash); cbn; repeat case_decide; try congruence;
      cbn; f_equal; lia.
Qed.

(** The validators a run can hold: a new one, then any public method. *)
Inductive reachable (pid : string) : IntegrityValidator -> Prop :=
  | reach_init : reachable pid (init pid)
  | reach_file_hash fs file_path self :
      reachable pid self ->
      reachable pid (snd (generate_file_hash fs file_path self))
  | reach_data_hash data self :
      reachable pid self -> reachable pid (snd (generate_data_hash data self))
  | reach_file_integrity fs file_path expected_hash self :
      reachable pid self ->
      reachable pid (snd (validate_file_integrity fs file_path expected_hash self))
  | reach_process_chain chain_data self :
      reachable pid self ->
      reachable pid (snd (validate_process_chain chain_data self))
  | reach_signature data secret_key self :
      reachable pid self ->
      reachable pid (snd (create_integrity_signature data secret_key self))
  | reach_verification data signature secret_key self :
      reachable pid self ->
      reachable pid (snd (verify_integrity_signature data signature secret_key self))
  | reach_full_report self :
      reachable pid self -> reachable pid (snd (generate_full_report self)).

(** What the report file holds, against the report in memory. *)
Definition lagging (self : IntegrityValidator) : Prop :=
  let n := length (validations self) in
  match report_file self with
  | None => (n < 10)%nat
  | Some saved =>
      exists m, saved = take m (validations self) /\ (n - n mod 10 <= m <= n)%nat
  end.

Lemma lagging_record validation_type details self :
  lagging self -> lagging (_record_validation validation_type details self).
Proof.
  unfold lagging. intros H.
  rewrite validations_record, length_app. cbn [length].
  set (vs := validations self) in *. set (n := length vs) in *.
  unfold _record_validation, _save_report. cbn [validations report_file].
  fold vs. rewrite length_app. cbn [length]. fold n.
  pose proof (Nat.div_mod_eq (n + 1) 10) as E1.
  pose proof (Nat.div_mod_eq n 10) as E2.
  pose proof (Nat.mod_upper_bound (n + 1) 10) as B1.
  pose proof (Nat.mod_upper_bound n 10) as B2.
  destruct (Nat.eqb_spec ((n + 1) mod 10) 0) as [Hten|Hten]; cbn [report_file].
  - exists (n + 1)%nat. split; [|lia].
    rewrite take_ge; [reflexivity|]. rewrite length_app. cbn. fold n. lia.
  - destruct (report_file self) as [saved|].
    + destruct H as [m [-> Hm]]. exists m. split.
      * rewrite take_app_le by (fold n; lia). reflexivity.
      * lia.
    + lia.
Qed.

Lemma lagging_chain_loop chain_data : forall i st,
  lagging (cs_self st) -> lagging (cs_self (chain_loop i chain_data st)).
Proof.
  induction chain_data as [|data rest IH]; intros i st H; [exact H|].
  cbn [chain_loop]. apply IH. unfold chain_step.
  destruct (negb (forallb _ _)); [exact H|].
  destruct (has_key "data" data).
  - cbn [generate_data_hash].
    destruct (negb _ && _); cbn [cs_self]; apply lagging_record; exact H.
  - destruct (negb _ && _); cbn [cs_self]; exact H.
Qed.

Lemma lagging_reachable pid self : reachable pid self -> lagging self.
Proof.
  induction 1 as [|fs file_path self _ IH|data self _ IH
                  |fs file_path expected_hash self _ IH|chain_data self _ IH
                  |data secret_key self _ IH|data signature secret_key self _ IH
                  |self _ IH].
  - cbn. lia.
  - unfold generate_file_hash.
    destruct (negb _); [exact IH|].
    destruct (read_bytes _ _); [exact IH|].
    destruct (getsize _ _); [exact IH|]. apply lagging_record. exact IH.
  - apply lagging_record. exact IH.
  - unfold validate_file_integrity.
    assert (lagging (snd (generate_file_hash fs file_path self))) as H1.
    { unfold generate_file_hash.
      destruct (negb _); [exact IH|].
      destruct (read_bytes _ _); [exact IH|].
      destruct (getsize _ _); [exact IH|]. apply lagging_record. exact IH. }
    destruct (generate_file_hash fs file_path self) as [[e|h] self1];
      cbn [snd] in *; apply lagging_record; exact H1.
  - unfold validate_process_chain. destruct chain_data as [|data rest]; [exact IH|].
    cbn [snd]. apply lagging_record. unfold chain_run.
    apply lagging_chain_loop. exact IH.
  - apply lagging_record. exact IH.
  - unfold verify_integrity_signature.
    cbn [create_integrity_signature].
    destruct (compare_digest _ _); cbn [snd]; do 2 apply lagging_record; exact IH.
  - unfold generate_full_report, _save_report, lagging. cbn [snd report_file validations].
    exists (length (validations self)). split; [|lia].
    rewrite take_ge by lia. reflexivity.
Qed.

(** X10: the integrity report on disk lags behind the one in memory.  After
    any sequence of calls of the public methods on a new validator, the
    report file holds a prefix of the validations recorded so far and misses
    fewer than ten of them, the latest ones; and as long as no report file
    has been written, fewer than ten validations have been recorded. *)
Theorem report_file_misses_fewer_than_ten (pid : string) (self : IntegrityValidator) :
  reachable pid self ->
  match report_file self with
  | None => (length (validations self) < 10)%nat
  | Some saved =>
      saved `prefix_of` validations self
      /\ (length (validations self) - length saved < 10)%nat
  end.
Proof.
  intros H. apply lagging_reachable in H. unfold lagging in H.
  destruct (report_file self) as [saved|]; [|exact H].
  destruct H as [m [-> Hm]].
  pose proof (Nat.mod_upper_bound (length (validations self)) 10) as B.
  split; [apply prefix_take|]. rewrite length_take. lia.
Qed.

Lemma generated_hash_validates_the_file_witness :
  fst (validate_file_integrity {[ "clip.mp4" := File true [7; 7] ]} "clip.mp4"
         (VStr (hex (Sha256.sha256 [7; 7]))) (init "p1")) = true
  <-> hex (Sha256.sha256 [7; 7]) = hex (Sha256.sha256 [7; 7]).
Proof.
  apply (generated_hash_validates_the_file {[ "clip.mp4" := File true [7; 7] ]}
           "clip.mp4" (init "p1")
           (snd (generate_file_hash {[ "clip.mp4" := File true [7; 7] ]} "clip.mp4"
                   (init "p1")))
           (init "p1")).
  vm_compute. reflexivity.
Defined.

Lemma report_file_misses_fewer_than_ten_witness :
  match report_file (snd (generate_data_hash (VInt 1) (init "p1"))) with
  | None => (length (validations (snd (generate_data_hash (VInt 1) (init "p1")))) < 10)%nat
  | Some saved =>
      saved `prefix_of` validations (snd (generate_data_hash (VInt 1) (init "p1")))
      /\ (length (validations (snd (generate_data_hash (VInt 1) (init "p1"))))
          - length saved < 10)%nat
  end.
Proof.
  apply (report_file_misses_fewer_than_ten "p1").
  apply reach_data_hash. apply reach_init.
Defined.

End FileIntegrityProofs.

Module AuditTrailProofs.
Import Py Runtime Os Audit AuditFiles.

(** A call of a method of one logger. *)
Inductive call : Type :=
  | Log_event (event_type : string) (details : value)
  | Log_start (source_url : string)
  | Log_completion (result : value) (now : Z)
  | Log_error (error_message : string)
  | Log_validation (validation_type : string) (is_valid : bool) (details : value)
  | Log_file_operation (os : filesystem) (operation file_path : string) (metadata : value)
  | Log_transformation (os : filesystem) (transformation_type input_path output_path : string)
      (parameters : value).

(** The method the call names. *)
Definition method_of (c : call) : method :=
  match c with
  | Log_event event_type details => log_event event_type details
  | Log_start source_url => log_start source_url
  | Log_completion result now => Audit.log_completion result now
  | Log_error error_message => log_error error_message
  | Log_validation validation_type is_valid details =>
      log_validation validation_type is_valid details
  | Log_file_operation os operation file_path metadata =>
      log_file_operation os operation file_path metadata
  | Log_transformation os transformation_type input_path output_path parameters =>
      log_transformation os transformation_type input_path output_path parameters
  end.

(** The logger and the audit documents after the call, whether it returned
    or raised. *)
Definition perform (c : call) (st : AuditLogger * files) : AuditLogger * files :=
  snd (method_of c (fst st) (snd st)).

Definition perform_all (calls : list call) (st : AuditLogger * files)
  : AuditLogger * files :=
  fold_left (fun st c => perform c st) calls st.

(** The audit document on disk is the one the logger holds, and the
    documents of the other processes are those of [others]. *)
Definition in_step (others : files) (st : AuditLogger * files) : Prop :=
  snd st !! process_id (fst st) = Some (logs0 (fst st))
  /\ forall pid, pid <> process_id (fst st) -> snd st !! pid = others !! pid.

(** What one call may change of the document the logger holds. *)
Record grows (before after : AuditLogger) : Prop := mkGrows {
  g_process : process_id after = process_id before;
  g_events : d_events (logs0 before) `prefix_of` d_events (logs0 after);
  g_errors : d_has_validation_errors (logs0 before) = true ->
             d_has_validation_errors (logs0 after) = true
}.

(** A failed validation. *)
Definition fails (c : call) : bool :=
  match c with
  | Log_validation _ false _ => true
  | _ => false
  end.

(** The details of the event are a dict, as [_write_log] needs them. *)
Definition dict_details (e : event) : bool :=
  match e_details e with
  | VDict _ => true
  | _ => false
  end.

(** [audit.log] can be rendered from the events the logger holds. *)
Definition renders (self : AuditLogger) : bool :=
  forallb dict_details (d_events (logs0 self)).

(** A call of [log_event] whose details are not a dict. *)
Definition ill_formed (c : call) : bool :=
  match c with
  | Log_event _ (VDict _) => false
  | Log_event _ _ => true
  | _ => false
  end.

(** The calls before the first ill-formed one. *)
Fixpoint heard (calls : list call) : list call :=
  match calls with
  | [] => []
  | c :: rest => if ill_formed c then [] else c :: heard rest
  end.

Lemma grows_refl self : grows self self.
Proof. constructor; [reflexivity | reflexivity | trivial]. Qed.

Lemma grows_trans a b c : grows a b -> grows b c -> grows a c.
Proof.
  intros [H1 H2 H3] [H4 H5 H6]. constructor.
  - congruence.
  - etransitivity; eassumption.
  - auto.
Qed.

Lemma render_events_cases events :
  if forallb dict_details events then render_events events = Returned tt
  else exists e, render_events events = Raised e.
Proof.
  induction events as [|e events IH]; [reflexivity|].
  cbn [forallb render_events]. unfold dict_details at 1.
  destruct (e_details e); cbn [andb]; try (eexists; reflexivity). exact IH.
Qed.

(** A method keeps the document on disk in step and only adds to it. *)
Definition steady (m : method) : Prop :=
  forall others self fs,
    in_step others (self, fs) ->
    in_step others (snd (m self fs)) /\ grows self (fst (snd (m self fs))).

Lemma written others self fs :
  (forall pid, pid <> process_id self -> fs !! pid = others !! pid) ->
  in_step others (self, snd (_write_log self fs)).
Proof.
  intros Hothers. split; cbn [fst snd]; unfold _write_log; cbn [fst snd].
  - apply lookup_insert_eq.
  - intros pid Hne. rewrite lookup_insert_ne by congruence. exact (Hothers pid Hne).
Qed.

Lemma log_event_state event_type details self fs :
  snd (log_event event_type details self fs)
  = (with_doc self (append_event (logs0 self)
                      {| e_type := event_type; e_details := details |}),
     snd (_write_log
            (with_doc self (append_event (logs0 self)
                              {| e_type := event_type; e_details := details |})) fs)).
Proof. reflexivity. Qed.

Lemma log_event_steady event_type details : steady (log_event event_type details).
Proof.
  intros others self fs [_ Hothers]. cbn [fst snd] in Hothers.
  rewrite log_event_state. split.
  - apply written. exact Hothers.
  - constructor; cbn; [reflexivity | apply prefix_app_r; reflexivity | trivial].
Qed.

Lemma and_then_steady first update :
  steady first ->
  (forall d, d_events (update d) = d_events d) ->
  (forall d, d_has_validation_errors d = true ->
             d_has_validation_errors (update d) = true) ->
  steady (and_then first update).
Proof.
  intros Hfirst Hevents Hflag others self fs Hstep.
  specialize (Hfirst others self fs Hstep). unfold and_then.
  destruct (first self fs) as [[e|[]] [self1 fs1]]; cbn [fst snd] in *; [exact Hfirst|].
  destruct Hfirst as [[_ Hothers1] Hgrows]. cbn [fst snd] in Hothers1. split.
  - apply (written others (with_doc self1 (update (logs0 self1)))). exact Hothers1.
  - eapply grows_trans; [exact Hgrows|].
    constructor; cbn; [reflexivity | rewrite Hevents; reflexivity | apply Hflag].
Qed.

Lemma method_of_steady c : steady (method_of c).
Proof.
  destruct c; cbn [method_of].
  - apply log_event_steady.
  - apply log_event_steady.
  - intros others self fs. unfold Audit.log_completion.
    apply and_then_steady; [apply log_event_steady | reflexivity | trivial].
  - apply and_then_steady; [apply log_event_steady | reflexivity | trivial].
  - apply and_then_steady; [apply log_event_steady | reflexivity |].
    intros d Hd. cbn. destruct is_valid; [exact Hd | reflexivity].
  - intros others self fs Hstep. unfold log_file_operation.
    destruct (negb (path_exists os file_path)); [apply log_event_steady; exact Hstep|].
    destruct (read_bytes os file_path); cbn [fst snd].
    { split; [exact Hstep | apply grows_refl]. }
    destruct (getsize os file_path); cbn [fst snd].
    { split; [exact Hstep | apply grows_refl]. }
    apply log_event_steady. exact Hstep.
  - apply log_event_steady.
Qed.

Lemma perform_in_step others c st :
  in_step others st ->
  in_step others (perform c st) /\ grows (fst st) (fst (perform c st)).
Proof. destruct st as [self fs]. apply method_of_steady. Qed.

Lemma perform_all_in_step others calls : forall st,
  in_step others st ->
  in_step others (perform_all calls st) /\ grows (fst st) (fst (perform_all calls st)).
Proof.
  induction calls as [|c calls IH]; intros st Hst; cbn [perform_all fold_left].
  - split; [exact Hst | apply grows_refl].
  - destruct (perform_in_step others c st Hst) as (H1 & H2).
    destruct (IH _ H1) as (H4 & H5).
    split; [exact H4 | eapply grows_trans; eassumption].
Qed.

Lemma new_in_step pid now fs : in_step fs (new pid now fs).
Proof.
  unfold new, _write_log, in_step. cbn [fst snd process_id logs0]. split.
  - apply lookup_insert_eq.
  - intros pid' Hne. apply lookup_insert_ne. congruence.
Qed.

(** The flag of the document the logger holds. *)
Definition flag (st : AuditLogger * files) : bool :=
  d_has_validation_errors (logs0 (fst st)).

Lemma renders_append self e :
  renders (with_doc self (append_event (logs0 self) e)) = renders self && dict_details e.
Proof.
  unfold renders. cbn [logs0 with_doc append_event d_events].
  rewrite forallb_app. cbn [forallb]. rewrite andb_true_r. reflexivity.
Qed.

Lemma log_event_flag event_type details self fs :
  flag (snd (log_event event_type details self fs)) = flag (self, fs)
  /\ renders (fst (snd (log_event event_type details self fs)))
     = renders self && dict_details {| e_type := event_type; e_details := details |}.
Proof. rewrite log_event_state. cbn [fst]. split; [reflexivity | apply renders_append]. Qed.

Lemma and_then_flag event_type details update self fs :
  (forall d, d_events (update d) = d_events d) ->
  let st := snd (and_then (log_event event_type (VDict details)) update self fs) in
  flag st
  = (if renders self then d_has_validation_errors
                            (update (append_event (logs0 self)
                                       {| e_type := event_type;
                                          e_details := VDict details |}))
     else flag (self, fs))
  /\ renders (fst st) = renders self.
Proof.
  intros Hevents. unfold and_then, log_event, _write_log. cbn [fst snd].
  pose proof (render_events_cases
                (d_events (logs0 (with_doc self
                   (append_event (logs0 self)
                      {| e_type := event_type; e_details := VDict details |}))))) as H.
  fold (renders (with_doc self
                   (append_event (logs0 self)
                      {| e_type := event_type; e_details := VDict details |}))) in H.
  rewrite renders_append in H. cbn [dict_details e_details] in H.
  rewrite andb_true_r in H.
  destruct (renders self) eqn:Hr.
  - rewrite H. cbn [fst snd]. split; [reflexivity|].
    unfold renders. cbn [logs0 with_doc]. rewrite Hevents.
    cbn [append_event d_events]. rewrite forallb_app. cbn [forallb dict_details e_details].
    unfold renders in Hr. rewrite Hr. reflexivity.
  - destruct H as [e ->]. cbn [fst snd]. split; [reflexivity|].
    rewrite renders_append, Hr. reflexivity.
Qed.

Ltac tidy :=
  cbn [negb dict_details e_details];
  rewrite ?andb_false_r, ?orb_false_r, ?andb_true_r.

Ltac event_flag self fs :=
  match goal with
  | |- context [and_then (log_event ?t (VDict ?d)) ?u self fs] =>
      destruct (and_then_flag t d u self fs ltac:(reflexivity)) as [-> ->]
  | |- context [log_event ?t ?d self fs] =>
      destruct (log_event_flag t d self fs) as [-> ->]
  end.

Lemma perform_flag c st :
  flag (perform c st) = flag st || (renders (fst st) && fails c)
  /\ renders (fst (perform c st)) = renders (fst st) && negb (ill_formed c).
Proof.
  destruct st as [self fs]. unfold perform. cbn [fst snd].
  destruct c; cbn [method_of fails].
  - event_flag self fs. tidy. split; [reflexivity|].
    destruct details; cbn [ill_formed negb]; tidy; reflexivity.
  - unfold log_start. event_flag self fs. cbn [ill_formed]. tidy. split; reflexivity.
  - unfold Audit.log_completion. event_flag self fs. cbn [ill_formed]. tidy.
    split; [destruct (renders self); reflexivity | reflexivity].
  - unfold log_error. event_flag self fs. cbn [ill_formed]. tidy.
    split; [destruct (renders self); reflexivity | reflexivity].
  - unfold log_validation. event_flag self fs. cbn [ill_formed]. tidy.
    split; [|reflexivity]. unfold flag. cbn.
    destruct (renders self), is_valid, (d_has_validation_errors (logs0 self)); reflexivity.
  - unfold log_file_operation. cbn [ill_formed]. tidy.
    destruct (negb (path_exists os file_path)).
    { event_flag self fs. tidy. split; reflexivity. }
    destruct (read_bytes os file_path); cbn [fst snd]; [split; reflexivity|].
    destruct (getsize os file_path); cbn [fst snd]; [split; reflexivity|].
    event_flag self fs. tidy. split; reflexivity.
  - unfold log_transformation. event_flag self fs. cbn [ill_formed]. tidy.
    split; reflexivity.
Qed.

Lemma perform_all_flag calls : forall st,
  flag (perform_all calls st)
  = flag st || (renders (fst st) && existsb fails (heard calls)).
Proof.
  induction calls as [|c calls IH]; intros st; cbn [perform_all fold_left heard].
  - cbn [existsb]. rewrite andb_false_r, orb_false_r. reflexivity.
  - fold (perform_all calls (perform c st)). rewrite IH.
    destruct (perform_flag c st) as [-> ->].
    destruct (ill_formed c) eqn:Hc; cbn [existsb negb].
    + assert (fails c = false) as -> by (destruct c; try discriminate; reflexivity).
      rewrite !andb_false_r, !orb_false_r. reflexivity.
    + destruct (flag st), (renders (fst st)), (fails c); reflexivity.
Qed.

Lemma heard_well_formed calls :
  existsb ill_formed calls = false -> heard calls = calls.
Proof.
  induction calls as [|c calls IH]; [reflexivity|]. cbn [existsb heard].
  intros [Hc Hrest]%orb_false_iff. rewrite Hc, (IH Hrest). reflexivity.
Qed.

(** X14: the audit document is written through.  After any sequence of
    calls of the methods of one logger (log_event, log_start, log_completion,
    log_error, log_validation, log_file_operation, log_transformation; a
    call that raises included, also one that raises while audit.log is
    rendered, which happens after audit.json is rewritten), the audit
    document of the process on disk is the document the logger holds, the
    events it held before are still at the head of the list in their order,
    and the documents of the other processes are untouched. *)
Theorem audit_document_follows_the_logger (pid : string) (now : Z) (fs : files)
    (first then_ : list call) :
  let st := perform_all first (new pid now fs) in
  let st' := perform_all then_ st in
  snd st' !! pid = Some (logs0 (fst st'))
  /\ d_events (logs0 (fst st)) `prefix_of` d_events (logs0 (fst st'))
  /\ forall pid', pid' <> pid -> snd st' !! pid' = fs !! pid'.
Proof.
  intros st st'.
  destruct (perform_all_in_step fs first _ (new_in_step pid now fs)) as (H1 & H2).
  destruct (perform_all_in_step fs then_ _ H1) as ([H3 H4] & H5).
  fold st in H1, H2, H3, H4, H5. fold st' in H3, H4, H5.
  assert (process_id (fst st') = pid) as Hpid.
  { rewrite (g_process _ _ H5), (g_process _ _ H2). reflexivity. }
  rewrite Hpid in H3, H4.
  split; [exact H3|]. split; [exact (g_events _ _ H5) | exact H4].
Qed.

(** X15: has_validation_errors is set by a failed validation that gets as
    far as its update, and is never cleared.  After any sequence of calls
    on a new logger, the flag of the document (in memory and on disk) is
    true if and only if one of the calls made before the first log_event
    whose details are not a dict was log_validation with is_valid false:
    from that log_event on, every call raises AttributeError while
    audit.log is rendered, a log_validation before it reaches its update.
    When no call is such a log_event, the flag is true exactly when some
    validation failed.  More calls never clear the flag. *)
Theorem validation_errors_flag_is_sticky (pid : string) (now : Z) (fs : files)
    (calls more : list call) :
  let st := perform_all calls (new pid now fs) in
  d_has_validation_errors (logs0 (fst st)) = existsb fails (heard calls)
  /\ (d_has_validation_errors <$> snd st !! pid) = Some (existsb fails (heard calls))
  /\ (existsb ill_formed calls = false ->
      d_has_validation_errors (logs0 (fst st)) = existsb fails calls)
  /\ (d_has_validation_errors (logs0 (fst st)) = true ->
      d_has_validation_errors (logs0 (fst (perform_all more st))) = true).
Proof.
  intros st.
  destruct (perform_all_in_step fs calls _ (new_in_step pid now fs)) as ([H1 _] & H2).
  fold st in H1, H2.
  assert (process_id (fst st) = pid) as Hpid by exact (g_process _ _ H2).
  rewrite Hpid in H1. rewrite H1. cbn [fmap option_fmap option_map].
  pose proof (perform_all_flag calls (new pid now fs)) as H3. fold st in H3.
  unfold flag in H3. cbn in H3. rewrite H3.
  split; [reflexivity|]. split; [reflexivity|]. split.
  - intros Hwell. rewrite (heard_well_formed _ Hwell). reflexivity.
  - intros Hset. pose proof (perform_all_flag more st) as H4. unfold flag in H4.
    rewrite H4, H3, Hset. reflexivity.
Qed.

(** A failed validation that follows an event whose details are a str is
    lost: both events are recorded, the flag is not set. *)
Example validation_after_an_ill_formed_event_is_lost :
  let st := perform_all [Log_event "note" (VStr "x");
                         Log_validation "chain" false (VDict [])]
              (new "p1" 1000 ∅) in
  d_has_validation_errors (logs0 (fst st)) = false
  /\ map e_type (d_events (logs0 (fst st))) = ["note"; "validation"]
  /\ fst (method_of (Log_validation "chain" false (VDict []))
            (fst (perform (Log_event "note" (VStr "x")) (new "p1" 1000 ∅)))
            (snd (perform (Log_event "note" (VStr "x")) (new "p1" 1000 ∅))))
     = Raised "'str' object has no attribute 'items'".
Proof. repeat split. Qed.

(** *** Durations *)

Definition digit (n : Z) : ascii := ascii_of_N (Z.to_N (48 + n)).

(** The two decimal digits of a number below 100. *)
Definition two_digits (n : Z) : string :=
  String (digit (n / 10)) (String (digit (n mod 10)) "").

Lemma format_02d_two_digits n : 0 <= n < 100 -> format_02d n = two_digits n.
Proof.
  intros Hn.
  assert (forallb (fun k => String.eqb (format_02d (Z.of_nat k)) (two_digits (Z.of_nat k)))
            (seq 0 100) = true) as H by (vm_compute; reflexivity).
  rewrite forallb_forall in H.
  specialize (H (Z.to_nat n)). rewrite Z2Nat.id in H by lia.
  apply String.eqb_eq, H, in_seq. lia.
Qed.

Lemma digit_inj a b : 0 <= a < 10 -> 0 <= b < 10 -> digit a = digit b -> a = b.
Proof.
  intros Ha Hb H. apply (f_equal N_of_ascii) in H. unfold digit in H.
  rewrite !N_ascii_embedding in H by lia. lia.
Qed.

Ltac quotients := Z.div_mod_to_equations; lia.

Lemma format_duration_fields seconds :
  0 <= seconds < 360000 ->
  _format_duration seconds
  = two_digits (seconds / 60 / 60) +:+ ":" +:+ two_digits (seconds / 60 mod 60)
    +:+ ":" +:+ two_digits (seconds mod 60).
Proof.
  intros H. unfold _format_duration.
  rewrite !format_02d_two_digits by quotients. reflexivity.
Qed.

(** X16: _format_duration below one hundred hours.  For a duration of
    0 <= seconds < 360000 the text is HH:MM:SS with two digits in each
    field, eight characters in all, and no other duration in that range has
    the same text. *)
Theorem format_duration_is_hh_mm_ss (seconds : Z) :
  0 <= seconds < 360000 ->
  _format_duration seconds
  = two_digits (seconds / 3600) +:+ ":" +:+ two_digits (seconds / 60 mod 60)
    +:+ ":" +:+ two_digits (seconds mod 60)
  /\ String.length (_format_duration seconds) = 8%nat
  /\ forall other, 0 <= other < 360000 ->
       _format_duration other = _format_duration seconds -> other = seconds.
Proof.
  intros Ha. rewrite !format_duration_fields by assumption.
  rewrite Z.div_div by lia. change (60 * 60) with 3600.
  split; [reflexivity|]. split; [reflexivity|].
  intros b Hb. rewrite format_duration_fields by assumption.
  rewrite (Z.div_div b) by lia. change (60 * 60) with 3600.
  unfold two_digits. cbn [String.append].
  intros H. injection H as H1 H2 H3 H4 H5 H6.
  apply digit_inj in H1, H2, H3, H4, H5, H6; quotients.
Qed.

Lemma format_duration_is_hh_mm_ss_witness :
  _format_duration 3725
  = two_digits (3725 / 3600) +:+ ":" +:+ two_digits (3725 / 60 mod 60)
    +:+ ":" +:+ two_digits (3725 mod 60)
  /\ String.length (_format_duration 3725) = 8%nat
  /\ forall other, 0 <= other < 360000 ->
       _format_duration other = _format_duration 3725 -> other = 3725.
Proof. apply (format_duration_is_hh_mm_ss 3725). lia. Defined.

End AuditTrailProofs.

Module ViralProofs.
Import Py Runtime Viral.

(** X17: a configuration with more than fifteen hashtags makes the
    generation of the metadata raise: 15 - len(user_hashtags) is negative,
    random.sample refuses it with a ValueError, and no hashtag list is
    produced, whatever the keywords of the video are. *)
Theorem too_many_user_hashtags_raise (picked user_hashtags original_keywords : list string) :
  (15 < length user_hashtags)%nat ->
  viral_hashtags picked user_hashtags original_keywords
  = Raised "Sample larger than population or is negative".
Proof.
  intros H. unfold viral_hashtags, sample, num_trending.
  destruct (Z.ltb_spec (Z.min 8 (15 - Z.of_nat (length user_hashtags))) 0) as [_|Hge];
    [reflexivity | lia].
Qed.

Lemma too_many_user_hashtags_raise_witness :
  viral_hashtags [] (repeat "tag" 16) ["cats"]
  = Raised "Sample larger than population or is negative".
Proof. apply too_many_user_hashtags_raise. cbn. lia. Defined.

Lemma mem_elem_of tag tags : mem tag tags = true <-> tag ∈ tags.
Proof.
  unfold mem. rewrite existsb_exists. split.
  - intros (x & Hin & Heq). apply String.eqb_eq in Heq. subst x.
    apply list_elem_of_In. exact Hin.
  - intros Hin. exists tag. split; [apply list_elem_of_In; exact Hin | apply String.eqb_refl].
Qed.

Lemma unique_NoDup hashtags : forall acc, NoDup acc -> NoDup (unique hashtags acc).
Proof.
  induction hashtags as [|tag rest IH]; intros acc Hacc; [exact Hacc|].
  cbn [unique]. apply IH. destruct (mem tag acc) eqn:E; [exact Hacc|].
  apply NoDup_app. split; [exact Hacc|]. split.
  - intros x Hx Hx'. apply list_elem_of_singleton in Hx'. subst x.
    apply mem_elem_of in Hx. congruence.
  - apply NoDup_singleton.
Qed.

Lemma unique_prefix hashtags : forall acc, acc `prefix_of` unique hashtags acc.
Proof.
  induction hashtags as [|tag rest IH]; intros acc; [reflexivity|].
  cbn [unique]. destruct (mem tag acc); [apply IH|].
  etransitivity; [|apply IH]. apply prefix_app_r. reflexivity.
Qed.

Lemma unique_app l1 l2 : forall acc, unique (l1 ++ l2) acc = unique l2 (unique l1 acc).
Proof.
  induction l1 as [|tag rest IH]; intros acc; [reflexivity|].
  cbn [unique app]. apply IH.
Qed.

Lemma unique_Forall (P : string -> Prop) hashtags : forall acc,
  Forall P hashtags -> Forall P acc -> Forall P (unique hashtags acc).
Proof.
  induction hashtags as [|tag rest IH]; intros acc Hl Hacc; [exact Hacc|].
  cbn [unique]. inversion Hl as [|? ? Htag Hrest]; subst.
  apply IH; [exact Hrest|]. destruct (mem tag acc); [exact Hacc|].
  apply Forall_app. split; [exact Hacc | apply Forall_singleton; exact Htag].
Qed.

Lemma unique_length hashtags : forall acc,
  (length (unique hashtags acc) <= length acc + length hashtags)%nat.
Proof.
  induction hashtags as [|tag rest IH]; intros acc; cbn [unique length]; [lia|].
  etransitivity; [apply IH|]. destruct (mem tag acc); rewrite ?length_app; cbn; lia.
Qed.

(** [tag.startswith("#")] *)
Definition tagged (tag : string) : Prop := String.prefix "#" tag = true.

Lemma hash_tagged s : tagged ("#" +:+ s).
Proof. unfold tagged. destruct s; vm_compute; reflexivity. Qed.

Lemma with_hash_tagged tag : tagged (with_hash tag).
Proof.
  unfold with_hash. destruct (String.prefix "#" tag) eqn:E; [exact E|].
  apply hash_tagged.
Qed.

Lemma relevant_tagged keywords : forall acc, Forall tagged acc -> Forall tagged (relevant keywords acc).
Proof.
  induction keywords as [|k rest IH]; intros acc Hacc; [exact Hacc|].
  cbn [relevant]. apply IH. destruct (_ && _); [|exact Hacc].
  apply Forall_app. split; [exact Hacc|]. apply Forall_singleton.
  apply hash_tagged.
Qed.

(** X18: the hashtags of the metadata, when they are produced: every one
    starts with #, none occurs twice, the hashtags of the configuration
    come first, in their order (each with its #, a repeated one kept once),
    and there are at most len(user_hashtags) + 5 + len(trending selection)
    of them. *)
Theorem viral_hashtags_are_tagged_and_distinct
    (picked user_hashtags original_keywords hashtags : list string) :
  viral_hashtags picked user_hashtags original_keywords = Returned hashtags ->
  Forall tagged hashtags
  /\ NoDup hashtags
  /\ unique (map with_hash user_hashtags) [] `prefix_of` hashtags
  /\ (length hashtags <= length user_hashtags + 5 + length picked)%nat.
Proof.
  unfold viral_hashtags. destruct (sample _ _ _) as [e|selection] eqn:Hs; [discriminate|].
  intros [= <-].
  assert (selection = picked) as ->.
  { unfold sample in Hs. destruct (_ || _); [discriminate|]. congruence. }
  split; [|split; [|split]].
  - apply unique_Forall; [|constructor].
    rewrite !Forall_app. split; [|split].
    + apply Forall_forall. intros x Hx. apply list_elem_of_fmap in Hx as (y & -> & _).
      apply with_hash_tagged.
    + apply Forall_take. apply relevant_tagged. constructor.
    + apply Forall_forall. intros x Hx. apply list_elem_of_fmap in Hx as (y & -> & _).
      apply with_hash_tagged.
  - apply unique_NoDup. constructor.
  - rewrite unique_app. apply unique_prefix.
  - etransitivity; [apply unique_length|].
    rewrite !length_app, !length_map, length_take. cbn [length]. lia.
Qed.

Lemma viral_hashtags_are_tagged_and_distinct_witness :
  Forall tagged ["#cats"; "#dogs"; "#funnycats"; "#fyp"; "#viral"]
  /\ NoDup ["#cats"; "#dogs"; "#funnycats"; "#fyp"; "#viral"]
  /\ unique (map with_hash ["cats"; "#dogs"; "cats"]) []
     `prefix_of` ["#cats"; "#dogs"; "#funnycats"; "#fyp"; "#viral"]
  /\ (length ["#cats"; "#dogs"; "#funnycats"; "#fyp"; "#viral"]
      <= length ["cats"; "#dogs"; "cats"] + 5 + length ["fyp"; "viral"])%nat.
Proof.
  apply (viral_hashtags_are_tagged_and_distinct ["fyp"; "viral"]
           ["cats"; "#dogs"; "cats"] ["Funny Cats"; "funny cats"; "!!"; "fyp"]).
  vm_compute. reflexivity.
Defined.

End ViralProofs.

Module QueueProofs.
Import Worker LeaseProofs.

(** Successive leases of [Worker.run], one by each worker [(now, pid)] in
    turn, with no other write in between: the tasks handed out, in order,
    and the store they leave. *)
Fixpoint leases (workers : list (Z * Z)) (store : list task) : list task * list task :=
  match workers with
  | [] => ([], store)
  | (now, pid) :: rest =>
      match find_one_and_update now pid store with
      | (Some t, store') =>
          let '(handed, remaining) := leases rest store' in (t :: handed, remaining)
      | (None, store') => leases rest store'
      end
  end.

(** [a] is not after [b] in the lease order. *)
Definition not_after (a b : task) : Prop :=
  priority b <= priority a
  /\ (priority b = priority a -> created_at a <= created_at b).

(** The tasks of [l] come in lease order: none is after a later one. *)
Definition in_lease_order (l : list task) : Prop :=
  forall i j a b, (i < j)%nat -> l !! i = Some a -> l !! j = Some b -> not_after a b.

Lemma in_lease_order_cons t l :
  Forall (not_after t) l -> in_lease_order l -> in_lease_order (t :: l).
Proof.
  intros Ht Hl i j a b Hlt Ha Hb. destruct j as [|j]; [lia|]. cbn in Hb.
  destruct i as [|i]; cbn in Ha.
  - injection Ha as <-. rewrite Forall_forall in Ht. apply Ht.
    eapply list_elem_of_lookup_2. exact Hb.
  - apply (Hl i j a b); [lia | exact Ha | exact Hb].
Qed.

Lemma in_lease_order_nil : in_lease_order [].
Proof. intros i j a b _ Ha. discriminate Ha. Qed.

#[local] Instance pending_dec t : Decision (pending t).
Proof. unfold pending. apply _. Defined.

Definition waiting (store : list task) : list task := filter pending store.

Lemma lease_step now pid store i t :
  find_one 0 store = Some (i, t) ->
  waiting store ≡ₚ t :: waiting (<[i := set_processing now pid t]> store)
  /\ first_in_order t store.
Proof.
  intros Hf. destruct (find_one_Some _ _ _ _ Hf) as (_ & Hlk & Hp & Hfirst).
  rewrite Nat.sub_0_r in Hlk. split; [|exact Hfirst].
  unfold waiting.
  rewrite <- (take_drop_middle store i t Hlk) at 1.
  rewrite insert_take_drop by (eapply lookup_lt_Some; exact Hlk).
  rewrite !filter_app, !filter_cons.
  destruct (decide (pending t)) as [_|Hn]; [|contradiction].
  destruct (decide (pending (set_processing now pid t))) as [Hp'|_]; [discriminate Hp'|].
  symmetry. apply Permutation_middle.
Qed.

Lemma leases_idle workers : forall store,
  waiting store = [] -> leases workers store = ([], store).
Proof.
  induction workers as [|[now pid] rest IH]; intros store Hw; [reflexivity|].
  cbn [leases]. unfold find_one_and_update.
  destruct (find_one 0 store) as [[i t]|] eqn:Hf.
  - destruct (find_one_Some _ _ _ _ Hf) as (_ & Hlk & Hp & _).
    assert (t ∈ waiting store) as Hin.
    { apply list_elem_of_filter. split; [exact Hp|].
      eapply list_elem_of_lookup_2. exact Hlk. }
    rewrite Hw in Hin. inversion Hin.
  - apply IH. exact Hw.
Qed.

Lemma leases_spec workers : forall store,
  (length (waiting store) <= length workers)%nat ->
  fst (leases workers store) ≡ₚ waiting store
  /\ in_lease_order (fst (leases workers store))
  /\ waiting (snd (leases workers store)) = [].
Proof.
  induction workers as [|[now pid] rest IH]; intros store Hlen.
  - cbn in Hlen. assert (waiting store = []) as Hw
      by (apply length_zero_iff_nil; lia).
    cbn [leases fst snd]. rewrite Hw. split; [reflexivity|].
    split; [apply in_lease_order_nil | reflexivity].
  - cbn [leases]. unfold find_one_and_update.
    destruct (find_one 0 store) as [[i t]|] eqn:Hf.
    + destruct (lease_step now pid store i t Hf) as [Hperm Hfirst].
      set (store' := <[i := set_processing now pid t]> store) in *.
      assert (length (waiting store') <= length rest)%nat as Hlen'.
      { apply Permutation_length in Hperm. cbn [length] in Hperm, Hlen. lia. }
      destruct (IH store' Hlen') as (H1 & H2 & H3).
      destruct (leases rest store') as [handed remaining]. cbn [fst snd] in *.
      split; [rewrite Hperm, H1; reflexivity|]. split; [|exact H3].
      apply in_lease_order_cons; [|exact H2].
      apply Forall_forall. intros t' Hin.
      assert (t' ∈ waiting store) as Hin'.
      { rewrite Hperm. right. rewrite <- H1. exact Hin. }
      apply list_elem_of_filter in Hin' as [Hp' Hs'].
      exact (Hfirst t' Hs' Hp').
    + assert (waiting store = []) as Hw.
      { destruct (waiting store) as [|t l] eqn:E; [reflexivity|]. exfalso.
        assert (t ∈ waiting store) as Hin by (rewrite E; left).
        apply list_elem_of_filter in Hin as [Hp Hin].
        exact (proj1 (find_one_None store 0) Hf t Hin Hp). }
      rewrite (leases_idle rest store Hw). cbn [fst snd]. rewrite Hw.
      split; [reflexivity|]. split; [apply in_lease_order_nil | reflexivity].
Qed.

(** X19: a queue that receives no new task is drained in lease order.
    When at least as many leases are made as tasks are pending, the tasks
    handed out are exactly the pending tasks of the store, each once; each
    task handed out has a priority at least that of every task handed out
    after it and, at equal priority, was created no later; and no task is
    left pending. *)
Theorem leases_drain_the_queue_in_order (workers : list (Z * Z)) (store : list task) :
  (length (filter pending store) <= length workers)%nat ->
  let handed := fst (leases workers store) in
  let remaining := snd (leases workers store) in
  handed ≡ₚ filter pending store
  /\ in_lease_order handed
  /\ (forall t, t ∈ remaining -> ~ pending t).
Proof.
  intros Hlen handed remaining.
  destruct (leases_spec workers store Hlen) as (H1 & H2 & H3).
  split; [exact H1|]. split; [exact H2|].
  intros t Hin Hp.
  assert (t ∈ waiting remaining) as Hw by (apply list_elem_of_filter; split; assumption).
  unfold remaining in Hw. rewrite H3 in Hw. inversion Hw.
Qed.

Lemma leases_drain_the_queue_in_order_witness :
  let handed := fst (leases [(1000, 7); (1001, 8)] [task_B; task_A]) in
  let remaining := snd (leases [(1000, 7); (1001, 8)] [task_B; task_A]) in
  handed ≡ₚ filter pending [task_B; task_A]
  /\ in_lease_order handed
  /\ (forall t, t ∈ remaining -> ~ pending t).
Proof.
  apply (leases_drain_the_queue_in_order [(1000, 7); (1001, 8)] [task_B; task_A]).
  vm_compute. lia.
Defined.

End QueueProofs.

Module CanonicalProofs.
Import Py Integrity.

(** The order of keys [sorted] uses, on code points. *)
Lemma ltb_lt a b : String.ltb a b = true <-> OrderedTypeEx.String_as_OT.lt a b.
Proof.
  unfold String.ltb. rewrite <- OrderedTypeEx.String_as_OT.cmp_lt.
  unfold OrderedTypeEx.String_as_OT.cmp.
  destruct (String.compare a b); split; congruence.
Qed.

Lemma ltb_trans a b c :
  String.ltb a b = true -> String.ltb b c = true -> String.ltb a c = true.
Proof.
  rewrite !ltb_lt. apply OrderedTypeEx.String_as_OT.lt_trans.
Qed.

Lemma ltb_irrefl a : String.ltb a a = false.
Proof.
  destruct (String.ltb a a) eqn:E; [|reflexivity].
  apply ltb_lt in E. destruct (OrderedTypeEx.String_as_OT.lt_not_eq _ _ E eq_refl).
Qed.

Lemma ltb_total a b : a <> b -> String.ltb a b = false -> String.ltb b a = true.
Proof.
  unfold String.ltb. rewrite (String.compare_antisym b a).
  destruct (String.compare a b) eqn:E; cbn; try congruence.
  intros Hne. apply String.compare_eq_iff in E. contradiction.
Qed.

Lemma ltb_asym a b : String.ltb a b = true -> String.ltb b a = false.
Proof.
  intros H. destruct (String.ltb b a) eqn:E; [|reflexivity].
  pose proof (ltb_trans _ _ _ H E) as H'. rewrite ltb_irrefl in H'. discriminate.
Qed.

(** Two insertions of items with different keys commute. *)
Lemma insert_by_key_comm (a b : string * string) l :
  fst a <> fst b ->
  insert_by_key a (insert_by_key b l) = insert_by_key b (insert_by_key a l).
Proof.
  intros Hne. induction l as [|x l IH]; cbn [insert_by_key].
  - destruct (String.ltb (fst b) (fst a)) eqn:Eba.
    + rewrite (ltb_asym _ _ Eba). reflexivity.
    + rewrite (ltb_total _ _ (not_eq_sym Hne) Eba). reflexivity.
  - destruct (String.ltb (fst x) (fst b)) eqn:Exb;
      destruct (String.ltb (fst x) (fst a)) eqn:Exa;
      destruct (String.ltb (fst a) (fst b)) eqn:Eab;
      destruct (String.ltb (fst b) (fst a)) eqn:Eba;
      cbn [insert_by_key]; rewrite ?Exa, ?Exb, ?Eab, ?Eba;
      cbn [insert_by_key]; rewrite ?Exa, ?Exb, ?Eab, ?Eba;
      try reflexivity; try (rewrite IH; reflexivity); exfalso;
      first
        [ rewrite (ltb_asym _ _ Eab) in Eba; discriminate
        | rewrite (ltb_total _ _ Hne Eab) in Eba; discriminate
        | rewrite (ltb_trans _ _ _ Exb Eba) in Exa; discriminate
        | rewrite (ltb_trans _ _ _ Exa Eab) in Exb; discriminate ].
Qed.

Lemma sort_by_key_permutation (l1 l2 : list (string * string)) :
  NoDup (map fst l1) -> l1 ≡ₚ l2 -> sort_by_key l1 = sort_by_key l2.
Proof.
  intros Hnd Hperm. unfold sort_by_key.
  apply (foldr_permutation eq insert_by_key []); [|exact Hperm].
  intros j1 a1 j2 a2 b Hj H1 H2. apply insert_by_key_comm.
  intros Hkey. apply Hj.
  apply (NoDup_lookup (map fst l1) j1 j2 (fst a1)); [exact Hnd | |].
  - rewrite list_lookup_fmap, H1. reflexivity.
  - rewrite list_lookup_fmap, H2, Hkey. reflexivity.
Qed.

Lemma json_dumps_permutation (d e : list (string * value)) :
  NoDup (map fst d) -> d ≡ₚ e -> json_dumps (VDict d) = json_dumps (VDict e).
Proof.
  intros Hnd Hperm. cbn [json_dumps].
  rewrite (sort_by_key_permutation
             (map (fun kv => (fst kv, json_dumps (snd kv))) d)
             (map (fun kv => (fst kv, json_dumps (snd kv))) e)); [reflexivity | |].
  - rewrite map_map. cbn [fst]. exact Hnd.
  - apply Permutation_map. exact Hperm.
Qed.

(** X20: the digest of a dict does not depend on the order in which its
    keys were inserted: for two dicts with the same items, generate_data_hash
    returns the same hash (and create_integrity_signature the same
    signature), because json.dumps sorts the keys. *)
Theorem data_hash_ignores_key_order (d e : list (string * value))
    (secret_key : string) (self self' : IntegrityValidator) :
  NoDup (map fst d) -> d ≡ₚ e ->
  fst (generate_data_hash (VDict d) self) = fst (generate_data_hash (VDict e) self')
  /\ fst (create_integrity_signature (VDict d) secret_key self)
     = fst (create_integrity_signature (VDict e) secret_key self').
Proof.
  intros Hnd Hperm. cbn [generate_data_hash create_integrity_signature fst].
  unfold data_digest. rewrite (json_dumps_permutation d e Hnd Hperm).
  split; reflexivity.
Qed.

Lemma data_hash_ignores_key_order_witness :
  fst (generate_data_hash (VDict [("b", VInt 2); ("a", VInt 1)]) (init "p1"))
  = fst (generate_data_hash (VDict [("a", VInt 1); ("b", VInt 2)]) (init "p2"))
  /\ fst (create_integrity_signature (VDict [("b", VInt 2); ("a", VInt 1)]) "k" (init "p1"))
     = fst (create_integrity_signature (VDict [("a", VInt 1); ("b", VInt 2)]) "k"
              (init "p2")).
Proof.
  apply data_hash_ignores_key_order.
  - apply (bool_decide_unpack _). vm_compute. exact I.
  - apply perm_swap.
Defined.

End CanonicalProofs.

Module EndpointProofs.
Import Py Runtime Os Web Endpoints.
Import Artifacts (reading, time, isoformat, state, dict_set, item, manifest_file,
  save_final_report, write_document, on_files, _save_manifest).

Section Routes.
Variable path_join : string -> string -> string.
Variable json_loads : list Z -> result value.
Variable str_http : nat -> string -> string.

(** X21: the answers of the results route.  Only an unknown process id is
    answered 404.  A known process that is not completed (running, failed or
    cancelled) is answered 400, whatever is on disk.  For a completed process
    whose final_report.json is missing, the 404 raised inside the try block
    is caught by its except clause and the answer is 500. *)
Theorem get_results_answers (fs : filesystem) (pid : string)
    (procs : gmap string process) :
  let answer := get_results path_join json_loads str_http fs pid procs in
  (status_code answer = 404%nat <-> procs !! pid = None)
  /\ (forall p, procs !! pid = Some p -> status p <> "completed" ->
        answer = HTTPError 400 "Conversion non terminée")
  /\ (forall p, procs !! pid = Some p -> status p = "completed" ->
        path_exists fs (path_join (output_dir p) "final_report.json") = false ->
        answer = HTTPError 500
                   ("Erreur lors de la récupération des résultats: "
                    +:+ str_http 404 "Rapport non trouvé")).
Proof.
  intros answer. subst answer. unfold get_results.
  destruct (procs !! pid) as [p|] eqn:Hp.
  - split; [|split].
    + split; [|discriminate].
      destruct (negb (String.eqb (status p) "completed")); [discriminate|].
      destruct (if negb _ then _ else _); discriminate.
    + intros p' [= <-] Hst.
      destruct (String.eqb_spec (status p) "completed"); [contradiction | reflexivity].
    + intros p' [= <-] Hst Hmissing. rewrite Hst, Hmissing. reflexivity.
  - split; [split; reflexivity|]. split; intros p' Hp'; discriminate Hp'.
Qed.

Lemma save_final_report_file now report_data s s' report_file report :
  path_join (Artifacts.output_dir (fst s)) "final_report.json" <> manifest_file path_join (fst s) ->
  save_final_report path_join now report_data s = (Returned (report_file, report), s') ->
  report_file = path_join (Artifacts.output_dir (fst s)) "final_report.json"
  /\ snd s' !! report_file
     = (if ArtifactProofs.special (snd s) report_file then snd s !! report_file
        else Some (Document (VDict report))).
Proof.
  intros Hpaths Hsave.
  unfold save_final_report, bind, on_files, ret, _save_manifest in Hsave.
  cbn [fst snd] in Hsave.
  destruct (write_document _ _ (snd s)) as [[e|[]] fs1] eqn:Hw1; [discriminate|].
  unfold on_files in Hsave. cbn [fst snd] in Hsave.
  match type of Hsave with
  | context [write_document ?p ?v fs1] =>
      destruct (write_document p v fs1) as [[e|[]] fs2] eqn:Hw2; [discriminate|]
  end.
  cbn [fst snd] in Hsave. injection Hsave as <- <- <-.
  apply ArtifactProofs.write_document_Returned in Hw1, Hw2. subst fs1 fs2.
  split; [reflexivity|]. cbn [fst snd].
  rewrite ArtifactProofs.write_to_other by exact Hpaths.
  apply ArtifactProofs.write_to_same.
Qed.

(** X22: what the results route returns for a completed process is the
    report save_final_report wrote into the output directory of the
    process: the report data of the caller with manifest_file, saved_at,
    saved_at_human and report_hash set.  (When final_report.json names a
    special file, which keeps nothing, the route answers as it did before
    the report was saved.) *)
Theorem saved_report_is_served (now : reading) (report_data report : list (string * value))
    (s s' : state) (report_file pid : string) (procs : gmap string process)
    (p : process) :
  save_final_report path_join now report_data s = (Returned (report_file, report), s') ->
  path_join (Artifacts.output_dir (fst s)) "final_report.json" <> manifest_file path_join (fst s) ->
  procs !! pid = Some p ->
  status p = "completed" ->
  output_dir p = Artifacts.output_dir (fst s) ->
  get_results path_join json_loads str_http (snd s') pid procs
  = (if ArtifactProofs.special (snd s)
          (path_join (Artifacts.output_dir (fst s)) "final_report.json")
     then get_results path_join json_loads str_http (snd s) pid procs
     else Ok (VDict report))
  /\ item "manifest_file" report = VStr (manifest_file path_join (fst s))
  /\ item "saved_at" report = VInt (time now)
  /\ dict_get "report_hash" report
     = Some (VStr (Integrity.data_digest
                     (VDict (dict_set "saved_at_human" (VStr (isoformat now))
                               (dict_set "saved_at" (VInt (time now))
                                  (dict_set "manifest_file"
                                     (VStr (manifest_file path_join (fst s)))
                                     report_data)))))).
Proof.
  intros Hsave Hpaths Hp Hst Hdir.
  destruct (save_final_report_file now report_data s s' report_file report Hpaths Hsave)
    as [-> Hfile].
  split.
  - unfold get_results. rewrite Hp, Hst, Hdir. cbn [negb String.eqb].
    unfold path_exists, json_load, read_bytes. rewrite Hfile.
    destruct (ArtifactProofs.special (snd s) _); [reflexivity|].
    rewrite bool_decide_eq_true_2 by (eexists; reflexivity). reflexivity.
  - unfold save_final_report, bind, on_files, ret, _save_manifest in Hsave.
    cbn [fst snd] in Hsave.
    destruct (write_document _ _ (snd s)) as [[e|[]] fs1]; [discriminate|].
    unfold on_files in Hsave. cbn [fst snd] in Hsave.
    match type of Hsave with
    | context [write_document ?p ?v fs1] =>
        destruct (write_document p v fs1) as [[e|[]] fs2]; [discriminate|]
    end.
    cbn [fst snd] in Hsave. injection Hsave as <- _.
    unfold item.
    repeat first [ rewrite ArtifactProofs.dict_get_set_same
                 | rewrite ArtifactProofs.dict_get_set_other by discriminate ].
    repeat split.
Qed.

End Routes.

(** A completed process whose report was saved by the manager of
    ArtifactProofs, a JSON reader that is never reached and the rendering of
    an HTTP exception as its detail. *)
Definition completed_p1 : gmap string process :=
  {[ "p1" := {| status := "completed"; progress := 100;
                current_stage := "Conversion terminée"; started_at := 1000;
                output_dir := "data/output/p1"; error := None |} ]}.

Definition no_loads (bytes : list Z) : result value := Raised "Expecting value".

Definition detail_of (status_code : nat) (detail : string) : string := detail.

Lemma saved_report_is_served_witness :
  get_results ArtifactProofs.join no_loads detail_of (snd (snd ArtifactProofs.saved)) "p1"
    completed_p1
  = (if ArtifactProofs.special (snd (ArtifactProofs.manager, ArtifactProofs.disk))
          (ArtifactProofs.join
             (Artifacts.output_dir (fst (ArtifactProofs.manager, ArtifactProofs.disk)))
             "final_report.json")
     then get_results ArtifactProofs.join no_loads detail_of
            (snd (ArtifactProofs.manager, ArtifactProofs.disk)) "p1" completed_p1
     else Ok (VDict ArtifactProofs.saved_report))
  /\ item "manifest_file" ArtifactProofs.saved_report
     = VStr (manifest_file ArtifactProofs.join
               (fst (ArtifactProofs.manager, ArtifactProofs.disk)))
  /\ item "saved_at" ArtifactProofs.saved_report = VInt (time ArtifactProofs.noon)
  /\ dict_get "report_hash" ArtifactProofs.saved_report
     = Some (VStr (Integrity.data_digest
                     (VDict (dict_set "saved_at_human"
                               (VStr (isoformat ArtifactProofs.noon))
                               (dict_set "saved_at" (VInt (time ArtifactProofs.noon))
                                  (dict_set "manifest_file"
                                     (VStr (manifest_file ArtifactProofs.join
                                              (fst (ArtifactProofs.manager,
                                                    ArtifactProofs.disk))))
                                     ArtifactProofs.sample_report)))))).
Proof.
  apply (saved_report_is_served ArtifactProofs.join no_loads detail_of ArtifactProofs.noon
           ArtifactProofs.sample_report ArtifactProofs.saved_report
           (ArtifactProofs.manager, ArtifactProofs.disk) (snd ArtifactProofs.saved)
           (ArtifactProofs.join "data/output/p1" "final_report.json") "p1" completed_p1
           {| status := "completed"; progress := 100;
              current_stage := "Conversion terminée"; started_at := 1000;
              output_dir := "data/output/p1"; error := None |}).
  - vm_compute. reflexivity.
  - discriminate.
  - reflexivity.
  - reflexivity.
  - reflexivity.
Defined.

End EndpointProofs.
